(** * aesdsocket: a shallow embedding of [server/aesdsocket_backup.c]

    The server accepts TCP connections one at a time, appends every
    newline-terminated packet to [DATA_FILE], answers each packet with the
    whole file, and on SIGINT/SIGTERM closes the listening socket and removes
    the file.

    The C code is embedded as functions in a state monad over a [world]:
    the process globals ([exit_requested], [errno]), the data file, the
    history of library calls made so far ([trace]) and the answers the
    environment will give to the calls still to come ([oracle]). *)

From Stdlib Require Import String Strings.Byte ZArith List Bool Lia.
Import ListNotations.
Local Open Scope Z_scope.

(** ** Constants of the source and of the C library *)

Definition DATA_FILE : string := "/var/tmp/aesdsocketdata".

Definition EINTR : Z := 4.
Definition ENOENT : Z := 2.
Definition SIGINT : Z := 2.
Definition SIGTERM : Z := 15.
Definition LOG_ERR : Z := 3.
Definition LOG_INFO : Z := 6.

(** [sizeof(recv_buf)] in [handle_client] and [sizeof(buf)] in
    [send_file_contents]. *)
Definition BUF_SIZE : nat := 1024.

(** The packet delimiter ['\n']. *)
Definition NL : byte := x0a.

(** ** The environment *)

(** What the environment answers to one library call: a non-negative return
    value, or failure with an [errno]. *)
Inductive outcome : Type :=
| Ok (n : nat)
| Err (e : Z).

(** One answer of the environment.  [signals] are the signals delivered to the
    process while it is inside the call (their handler has run when the call
    returns); [payload] is the data on the wire, used by [recv] only.  Only
    signals that reach [signal_handler] are modelled: a signal that kills the
    process ends the run. *)
Record event : Type := Event {
  signals : list Z;
  answer : outcome;
  payload : list byte
}.

Inductive syscall : Type :=
| SIGACTION | SOCKET | SETSOCKOPT | BIND | LISTEN | ACCEPT
| RECV | SEND
| OPEN_APPEND          (* open(DATA_FILE, O_WRONLY | O_CREAT | O_APPEND, 0644) *)
| OPEN_RDONLY          (* open(DATA_FILE, O_RDONLY) *)
| READ | WRITE | CLOSE | REMOVE
| REALLOC              (* the growing realloc of handle_client *)
| REALLOC_SHRINK.      (* the shrinking realloc after the memmove *)

(** The history of the process.  [Sys c arg data r]: call [c] with integer
    argument [arg] (a descriptor, a signal number or a size) transferred the
    bytes [data] and returned [r]. *)
Inductive entry : Type :=
| Sys (c : syscall) (arg : Z) (data : list byte) (r : outcome)
| Free (block : list byte)
| Log (priority : Z) (format : string)
| OpenLog
| CloseLog.

Record world : Type := World {
  exit_requested : Z;                 (* static volatile sig_atomic_t *)
  errno : Z;
  data_file : option (list byte);     (* None: DATA_FILE does not exist *)
  trace : list entry;
  oracle : list event
}.

Definition contents (w : world) : list byte :=
  match data_file w with
  | Some c => c
  | None => []
  end.

(** ** The monad *)

Inductive result (A : Type) : Type :=
| Done (a : A) (w : world)
| Blocked                  (* the environment gave no answer to a call *)
| OutOfFuel.               (* a loop bound of the model was hit *)
Arguments Done {A} a w.
Arguments Blocked {A}.
Arguments OutOfFuel {A}.

Definition M (A : Type) : Type := world -> result A.

Definition ret {A} (a : A) : M A := fun w => Done a w.

Definition bind {A B} (m : M A) (f : A -> M B) : M B :=
  fun w =>
    match m w with
    | Done a w' => f a w'
    | Blocked => Blocked
    | OutOfFuel => OutOfFuel
    end.

Declare Scope monad_scope.
Delimit Scope monad_scope with monad.
Notation "x <- m ;; k" := (bind m (fun x => k))
  (at level 61, m at next level, right associativity) : monad_scope.
Notation "' p <- m ;; k" := (bind m (fun x => let p := x in k))
  (at level 61, p pattern, m at next level, right associativity) : monad_scope.
Notation "m ;; k" := (bind m (fun _ => k))
  (at level 61, right associativity) : monad_scope.
Local Open Scope monad_scope.

(** Loops: the body either goes round again or leaves the loop. *)
Inductive ctl (S R : Type) : Type :=
| Continue (s : S)
| Break (r : R).
Arguments Continue {S R} s.
Arguments Break {S R} r.

Fixpoint loop {S R} (fuel : nat) (body : S -> M (ctl S R)) (s : S) : M R :=
  match fuel with
  | O => fun _ => OutOfFuel
  | Datatypes.S fuel' =>
      c <- body s ;;
      match c with
      | Continue s' => loop fuel' body s'
      | Break r => ret r
      end
  end.

(** Every loop of the program makes a blocking call on each round, so one
    round more than there are answers left is always enough. *)
Definition while {S R} (body : S -> M (ctl S R)) (s : S) : M R :=
  fun w => loop (Datatypes.S (length (oracle w))) body s w.

(** ** The signal handler *)

Definition set_exit_requested (v : Z) (w : world) : world :=
  World v (errno w) (data_file w) (trace w) (oracle w).

Definition signal_handler (signo : Z) (w : world) : world :=
  if (signo =? SIGINT) || (signo =? SIGTERM)
  then set_exit_requested 1 w
  else w.

Definition deliver (sigs : list Z) (w : world) : world :=
  fold_left (fun w' signo => signal_handler signo w') sigs w.

(** ** Library calls *)

Definition get_exit_requested : M Z := fun w => Done (exit_requested w) w.
Definition get_errno : M Z := fun w => Done (errno w) w.
Definition get_file : M (option (list byte)) := fun w => Done (data_file w) w.

Definition set_errno (e : Z) : M unit :=
  fun w => Done tt (World (exit_requested w) e (data_file w) (trace w) (oracle w)).

Definition set_file (f : option (list byte)) : M unit :=
  fun w => Done tt (World (exit_requested w) (errno w) f (trace w) (oracle w)).

Definition record (e : entry) : M unit :=
  fun w => Done tt (World (exit_requested w) (errno w) (data_file w)
                          (trace w ++ [e]) (oracle w)).

(** Entering a call takes the next answer of the environment and runs the
    handlers of the signals that arrive during the call. *)
Definition next_event : M event :=
  fun w =>
    match oracle w with
    | [] => Blocked
    | ev :: rest =>
        Done ev (deliver (signals ev)
                   (World (exit_requested w) (errno w) (data_file w) (trace w) rest))
    end.

Definition failed (c : syscall) (arg : Z) (e : Z) : M Z :=
  record (Sys c arg [] (Err e)) ;; set_errno e ;; ret (-1).

(** sigaction, socket, setsockopt, bind, listen, accept, close: the value
    returned on success is the one the environment chose. *)
Definition sys (c : syscall) (arg : Z) : M Z :=
  ev <- next_event ;;
  match answer ev with
  | Ok n => record (Sys c arg [] (Ok n)) ;; ret (Z.of_nat n)
  | Err e => failed c arg e
  end.

Definition close (fd : Z) : M Z := sys CLOSE fd.

Definition open_append : M Z :=
  ev <- next_event ;;
  match answer ev with
  | Ok n =>
      f <- get_file ;;
      set_file (Some (match f with Some c => c | None => [] end)) ;;
      record (Sys OPEN_APPEND 0 [] (Ok n)) ;;
      ret (Z.of_nat n)
  | Err e => failed OPEN_APPEND 0 e
  end.

Definition open_rdonly : M Z :=
  ev <- next_event ;;
  f <- get_file ;;
  match answer ev, f with
  | Ok n, Some _ => record (Sys OPEN_RDONLY 0 [] (Ok n)) ;; ret (Z.of_nat n)
  | Ok _, None => failed OPEN_RDONLY 0 ENOENT
  | Err e, _ => failed OPEN_RDONLY 0 e
  end.

(** write on a descriptor opened with O_APPEND: some prefix of [buf] goes to
    the end of the file. *)
Definition write (fd : Z) (buf : list byte) : M Z :=
  ev <- next_event ;;
  match answer ev with
  | Ok n =>
      let put := firstn n buf in
      f <- get_file ;;
      set_file (Some (match f with Some c => c | None => [] end ++ put)) ;;
      record (Sys WRITE fd put (Ok (length put))) ;;
      ret (Z.of_nat (length put))
  | Err e => failed WRITE fd e
  end.

(** read at file position [off]: at least one byte unless the position is at
    the end of the file, at most [count]. *)
Definition read (fd : Z) (off count : nat) : M (Z * list byte) :=
  ev <- next_event ;;
  f <- get_file ;;
  match answer ev with
  | Ok n =>
      let got := firstn (Nat.min (Nat.max n 1) count)
                        (skipn off (match f with Some c => c | None => [] end)) in
      record (Sys READ fd got (Ok (length got))) ;;
      ret (Z.of_nat (length got), got)
  | Err e => r <- failed READ fd e ;; ret (r, [])
  end.

Definition send (fd : Z) (buf : list byte) : M Z :=
  ev <- next_event ;;
  match answer ev with
  | Ok n =>
      let put := firstn n buf in
      record (Sys SEND fd put (Ok (length put))) ;;
      ret (Z.of_nat (length put))
  | Err e => failed SEND fd e
  end.

(** recv into a buffer of [BUF_SIZE] bytes; 0 bytes means the peer closed. *)
Definition recv (fd : Z) : M (Z * list byte) :=
  ev <- next_event ;;
  match answer ev with
  | Ok n =>
      let got := firstn (Nat.min n BUF_SIZE) (payload ev) in
      record (Sys RECV fd got (Ok (length got))) ;;
      ret (Z.of_nat (length got), got)
  | Err e => r <- failed RECV fd e ;; ret (r, [])
  end.

(** realloc: [true] when the returned pointer is not NULL. *)
Definition realloc (c : syscall) (size : nat) : M bool :=
  ev <- next_event ;;
  record (Sys c (Z.of_nat size) [] (answer ev)) ;;
  match answer ev with
  | Ok _ => ret true
  | Err e => ret false
  end.

Definition free (block : list byte) : M unit := record (Free block).

Definition remove : M Z :=
  ev <- next_event ;;
  f <- get_file ;;
  match answer ev, f with
  | Ok n, Some _ => set_file None ;; record (Sys REMOVE 0 [] (Ok 0)) ;; ret 0
  | Ok _, None => failed REMOVE 0 ENOENT
  | Err e, _ => failed REMOVE 0 e
  end.

(** syslog: the history keeps the priority and the format string, not the
    formatted arguments ([strerror(errno)], the peer address, the path); the
    quote characters around [%s] in the formats of the source are left out. *)
Definition syslog (priority : Z) (format : string) : M unit :=
  record (Log priority format).
Definition openlog : M unit := record OpenLog.
Definition closelog : M unit := record CloseLog.

(** ** append_to_file *)

(** One round of [while (written < (ssize_t)len)]. *)
Definition write_body (fd : Z) (data : list byte) (written : nat)
  : M (ctl nat Z) :=
  if (written <? length data)%nat then
    w <- write fd (skipn written data) ;;
    if w <? 0 then
      e <- get_errno ;;
      if e =? EINTR then ret (Continue written)
      else
        syslog LOG_ERR "write(%s) failed: %s" ;;
        _ <- close fd ;;
        ret (Break (-1))
    else ret (Continue (written + Z.to_nat w)%nat)
  else ret (Break 0).

Definition append_to_file (data : list byte) : M Z :=
  fd <- open_append ;;
  if fd =? -1 then
    syslog LOG_ERR "open(%s) failed: %s" ;;
    ret (-1)
  else
    r <- while (write_body fd data) 0%nat ;;
    if r =? -1 then ret (-1)
    else
      c <- close fd ;;
      if c =? -1 then
        syslog LOG_ERR "close data file failed: %s" ;;
        ret (-1)
      else ret 0.

(** ** send_file_contents *)

(** One round of [while (sent_total < bytes)] over the chunk [buf] just read. *)
Definition send_body (client_fd fd : Z) (buf : list byte) (sent_total : nat)
  : M (ctl nat Z) :=
  if (sent_total <? length buf)%nat then
    s <- send client_fd (skipn sent_total buf) ;;
    if s <? 0 then
      e <- get_errno ;;
      if e =? EINTR then ret (Continue sent_total)
      else
        syslog LOG_ERR "send() failed: %s" ;;
        _ <- close fd ;;
        ret (Break (-1))
    else ret (Continue (sent_total + Z.to_nat s)%nat)
  else ret (Break 0).

(** How the read loop is left: by [return -1] from inside it, or because
    [read] returned [bytes <= 0]. *)
Inductive leave : Type :=
| Return (r : Z)
| Exit (bytes : Z).

(** One round of [while ((bytes = read(fd, buf, sizeof(buf))) > 0)]; [off] is
    the file position of [fd]. *)
Definition read_body (client_fd fd : Z) (off : nat) : M (ctl nat leave) :=
  '(bytes, buf) <- read fd off BUF_SIZE ;;
  if 0 <? bytes then
    r <- while (send_body client_fd fd buf) 0%nat ;;
    if r =? -1 then ret (Break (Return (-1)))
    else ret (Continue (off + length buf)%nat)
  else ret (Break (Exit bytes)).

Definition send_file_contents (client_fd : Z) : M Z :=
  fd <- open_rdonly ;;
  if fd =? -1 then
    syslog LOG_ERR "open(%s) for read failed: %s" ;;
    ret (-1)
  else
    l <- while (read_body client_fd fd) 0%nat ;;
    match l with
    | Return r => ret r
    | Exit bytes =>
        if bytes <? 0 then
          syslog LOG_ERR "read(%s) failed: %s" ;;
          _ <- close fd ;;
          ret (-1)
        else
          c <- close fd ;;
          if c =? -1 then
            syslog LOG_ERR "close data file failed: %s" ;;
            ret (-1)
          else ret 0
    end.

(** ** handle_client *)

(** [for (size_t i = 0; i < packet_size; i++)] with [n] rounds left; the
    value is [start] when the loop is left. *)
Fixpoint scan (client_fd : Z) (packet_buf : list byte) (n i start : nat)
  : M nat :=
  match n with
  | O => ret start
  | Datatypes.S n' =>
      if Byte.eqb (nth i packet_buf x00) NL then
        let packet_len := (i - start + 1)%nat in
        r <- append_to_file (firstn packet_len (skipn start packet_buf)) ;;
        if negb (r =? 0) then ret (i + 1)%nat
        else
          r <- send_file_contents client_fd ;;
          if negb (r =? 0) then ret (i + 1)%nat
          else scan client_fd packet_buf n' (i + 1)%nat (i + 1)%nat
      else scan client_fd packet_buf n' (i + 1)%nat start
  end.

(** One round of [while (!exit_requested)]; the loop state is the contents of
    [packet_buf] ([packet_size] is its length). *)
Definition handle_body (client_fd : Z) (packet_buf : list byte)
  : M (ctl (list byte) (list byte)) :=
  x <- get_exit_requested ;;
  if x =? 0 then
    '(bytes, recv_buf) <- recv client_fd ;;
    if bytes <? 0 then
      e <- get_errno ;;
      x <- get_exit_requested ;;
      if (e =? EINTR) && negb (x =? 0) then ret (Break packet_buf)
      else if e =? EINTR then ret (Continue packet_buf)
      else
        syslog LOG_ERR "recv() failed: %s" ;;
        ret (Break packet_buf)
    else if bytes =? 0 then ret (Break packet_buf)
    else
      let packet_size := length packet_buf in
      new_buf <- realloc REALLOC (packet_size + Z.to_nat bytes) ;;
      if negb new_buf then
        syslog LOG_ERR "realloc() failed while growing packet buffer" ;;
        free packet_buf ;;
        ret (Break [])
      else
        let packet_buf := packet_buf ++ recv_buf in
        let packet_size := (packet_size + Z.to_nat bytes)%nat in
        start <- scan client_fd packet_buf packet_size 0 0 ;;
        if (0 <? start)%nat && (start <=? packet_size)%nat then
          let remaining := (packet_size - start)%nat in
          let packet_buf := firstn remaining (skipn start packet_buf) in
          _ <- realloc REALLOC_SHRINK remaining ;;
          ret (Continue packet_buf)
        else ret (Continue packet_buf)
  else ret (Break packet_buf).

Definition handle_client (client_fd : Z) : M unit :=
  packet_buf <- while (handle_body client_fd) [] ;;
  free packet_buf.

(** ** main *)

(** One round of the accept loop.  The peer address ([inet_ntop]) is used in
    the two log messages only and is not part of the model. *)
Definition accept_body (server_fd : Z) (_ : unit) : M (ctl unit unit) :=
  x <- get_exit_requested ;;
  if x =? 0 then
    client_fd <- sys ACCEPT server_fd ;;
    if client_fd =? -1 then
      e <- get_errno ;;
      x <- get_exit_requested ;;
      if (e =? EINTR) && negb (x =? 0) then ret (Break tt)
      else if e =? EINTR then ret (Continue tt)
      else
        syslog LOG_ERR "accept() failed: %s" ;;
        ret (Continue tt)
    else
      syslog LOG_INFO "Accepted connection from %s" ;;
      handle_client client_fd ;;
      syslog LOG_INFO "Closed connection from %s" ;;
      c <- close client_fd ;;
      (if c =? -1 then syslog LOG_ERR "close(client_fd) failed: %s" else ret tt) ;;
      ret (Continue tt)
  else ret (Break tt).

(** The code from the start of [main] to the label [cleanup]; the value is
    [(ret, server_fd)] on arrival there.  The port and the backlog are
    arguments of [bind] and [listen] that the model does not look at. *)
Definition serve : M (Z * Z) :=
  r <- sys SIGACTION SIGINT ;;
  if r =? -1 then
    syslog LOG_ERR "sigaction(SIGINT) failed: %s" ;; ret (-1, -1)
  else
  r <- sys SIGACTION SIGTERM ;;
  if r =? -1 then
    syslog LOG_ERR "sigaction(SIGTERM) failed: %s" ;; ret (-1, -1)
  else
  server_fd <- sys SOCKET 0 ;;
  if server_fd =? -1 then
    syslog LOG_ERR "socket() failed: %s" ;; ret (-1, server_fd)
  else
  r <- sys SETSOCKOPT server_fd ;;
  if r =? -1 then
    syslog LOG_ERR "setsockopt(SO_REUSEADDR) failed: %s" ;; ret (-1, server_fd)
  else
  r <- sys BIND server_fd ;;
  if r =? -1 then
    syslog LOG_ERR "bind() failed: %s" ;; ret (-1, server_fd)
  else
  r <- sys LISTEN server_fd ;;
  if r =? -1 then
    syslog LOG_ERR "listen() failed: %s" ;; ret (-1, server_fd)
  else
  while (accept_body server_fd) tt ;;
  x <- get_exit_requested ;;
  (if negb (x =? 0) then syslog LOG_INFO "Caught signal, exiting" else ret tt) ;;
  ret (0, server_fd).

(** The code from the label [cleanup] to the end of [main]. *)
Definition cleanup (ret_code server_fd : Z) : M Z :=
  (if negb (server_fd =? -1) then
     c <- close server_fd ;;
     if c =? -1 then syslog LOG_ERR "close(server_fd) failed: %s" else ret tt
   else ret tt) ;;
  r <- remove ;;
  e <- get_errno ;;
  (if (r =? -1) && negb (e =? ENOENT)
   then syslog LOG_ERR "remove(%s) failed: %s"
   else ret tt) ;;
  closelog ;;
  ret ret_code.

Definition main : M Z :=
  openlog ;;
  '(ret_code, server_fd) <- serve ;;
  cleanup ret_code server_fd.

(** * Properties *)

(** ** What a run leaves behind *)

(** The entries a run from [w] to [w'] added to the history, and the answers
    it took from the environment. *)
Definition new_trace (w w' : world) : list entry :=
  skipn (length (trace w)) (trace w').

Definition used_events (w w' : world) : list event :=
  firstn (length (oracle w) - length (oracle w')) (oracle w).

(** The value of the flag after the handler has run for each of [sigs]. *)
Definition latch (sigs : list Z) (x : Z) : Z :=
  fold_left
    (fun x' signo => if (signo =? SIGINT) || (signo =? SIGTERM) then 1 else x')
    sigs x.

(** The calls that can change [DATA_FILE]. *)
Definition modifies_file (e : entry) : bool :=
  match e with
  | Sys OPEN_APPEND _ _ (Ok _) => true
  | Sys WRITE _ _ (Ok _) => true
  | Sys REMOVE _ _ _ => true
  | _ => false
  end.

(** [w'] is reached from [w] by answering calls: the history grew, a prefix of
    the oracle was used, the flag moved only as the handler moved it, and the
    file changed only if a call that can change it was made. *)
Definition extends (w w' : world) : Prop :=
  trace w' = trace w ++ new_trace w w' /\
  oracle w = used_events w w' ++ oracle w' /\
  exit_requested w' =
    latch (flat_map signals (used_events w w')) (exit_requested w) /\
  (existsb modifies_file (new_trace w w') = false -> data_file w' = data_file w).

(** A computation is sound for [P] when it never hits the loop bound of the
    model and every run of it [extends] the world by entries that satisfy
    [P]. *)
Definition sound_with (P : entry -> bool) {A} (m : M A) : Prop :=
  forall w,
    match m w with
    | Done _ w' => extends w w' /\ forallb P (new_trace w w') = true
    | Blocked => True
    | OutOfFuel => False
    end.

Definition sound {A} (m : M A) : Prop := sound_with (fun _ => true) m.

(** A computation is [strict] when it cannot finish without an answer of the
    environment. *)
Definition strict {A} (m : M A) : Prop :=
  forall w a w', m w = Done a w' -> (length (oracle w') < length (oracle w))%nat.

(** A loop body is [consuming] when it cannot ask for another round without
    having taken an answer. *)
Definition consuming {S R} (m : M (ctl S R)) : Prop :=
  forall w s' w',
    m w = Done (Continue s') w' -> (length (oracle w') < length (oracle w))%nat.

(** ** Packets of a byte stream *)

(** [split cur bs]: the complete packets of [cur ++ bs] and the bytes after
    the last delimiter, for [cur] free of delimiters. *)
Fixpoint split (cur bs : list byte) : list (list byte) * list byte :=
  match bs with
  | [] => ([], cur)
  | b :: bs' =>
      if Byte.eqb b NL
      then let (rs, rest) := split [] bs' in ((cur ++ [NL]) :: rs, rest)
      else split (cur ++ [b]) bs'
  end.

(** The delimiter-terminated records of a byte stream, in order. *)
Definition records (bs : list byte) : list (list byte) := fst (split [] bs).

(** The bytes after the last delimiter. *)
Definition trailing (bs : list byte) : list byte := snd (split [] bs).

Definition no_delimiter (bs : list byte) : Prop :=
  forallb (fun b => negb (Byte.eqb b NL)) bs = true.

Definition delimiters (bs : list byte) : nat :=
  length (filter (fun b => Byte.eqb b NL) bs).

(** The answers to a sequence of records appended to a store that holds
    [store]: after each record, the whole store. *)
Fixpoint responses (store : list byte) (recs : list (list byte))
  : list (list byte) :=
  match recs with
  | [] => []
  | r :: rs => (store ++ r) :: responses (store ++ r) rs
  end.

(** ** Observations on a history *)

Definition received (t : list entry) : list byte :=
  flat_map (fun e => match e with Sys RECV _ d (Ok _) => d | _ => [] end) t.

Definition sent (t : list entry) : list byte :=
  flat_map (fun e => match e with Sys SEND _ d (Ok _) => d | _ => [] end) t.






(** A failure that makes [append_to_file] return -1. *)
Definition append_error (e : entry) : bool :=
  match e with
  | Sys OPEN_APPEND _ _ (Err _) => true
  | Sys WRITE _ _ (Err e) => negb (e =? EINTR)
  | Sys CLOSE _ _ (Err _) => true
  | _ => false
  end.

(** A failure that makes [send_file_contents] return -1. *)
Definition echo_error (e : entry) : bool :=
  match e with
  | Sys OPEN_RDONLY _ _ (Err _) => true
  | Sys READ _ _ (Err _) => true
  | Sys SEND _ _ (Err e) => negb (e =? EINTR)
  | Sys CLOSE _ _ (Err _) => true
  | _ => false
  end.

(** The growing realloc returned NULL. *)
Definition alloc_error (e : entry) : bool :=
  match e with
  | Sys REALLOC _ _ (Err _) => true
  | _ => false
  end.

(** A failure of an append, of an answer or of the growing realloc. *)
Definition failure (e : entry) : bool :=
  append_error e || echo_error e || alloc_error e.

Definition is_recv (e : entry) : bool :=
  match e with
  | Sys RECV _ _ _ => true
  | _ => false
  end.

Definition is_listen_ok (e : entry) : bool :=
  match e with
  | Sys LISTEN _ _ (Ok _) => true
  | _ => false
  end.

(** What closing the listening socket adds to the history. *)
Definition close_entries (fd : Z) (r : outcome) : list entry :=
  Sys CLOSE fd [] r ::
  match r with
  | Ok _ => []
  | Err _ => [Log LOG_ERR "close(server_fd) failed: %s"]
  end.

(** What removing the data file adds to the history: an error is logged
    unless the call succeeded or found no file. *)
Definition remove_entries (r : outcome) : list entry :=
  Sys REMOVE 0 [] r ::
  match r with
  | Ok _ => []
  | Err e => if e =? ENOENT then [] else [Log LOG_ERR "remove(%s) failed: %s"]
  end.


Definition is_write (e : entry) : bool :=
  match e with
  | Sys WRITE _ _ _ => true
  | _ => false
  end.

Definition written_bytes (t : list entry) : list byte :=
  flat_map (fun e => match e with Sys WRITE _ d (Ok _) => d | _ => [] end) t.

(** The entries [append_to_file] can add to the history. *)
Definition append_call (e : entry) : bool :=
  match e with
  | Sys OPEN_APPEND _ _ _ | Sys WRITE _ _ _ | Sys CLOSE _ _ _ | Log _ _ => true
  | _ => false
  end.

(** The entries [send_file_contents] can add to the history. *)
Definition echo_call (e : entry) : bool :=
  match e with
  | Sys OPEN_RDONLY _ _ _ | Sys READ _ _ _ | Sys SEND _ _ _ | Sys CLOSE _ _ _
  | Log _ _ => true
  | _ => false
  end.

(** The entries [handle_client] can add to the history. *)
Definition client_call (e : entry) : bool :=
  match e with
  | Sys RECV _ _ _ | Sys REALLOC _ _ _ | Sys REALLOC_SHRINK _ _ _ | Free _ => true
  | _ => append_call e || echo_call e
  end.

(** The world when a call that took the answer [ev] returns: [e] is the new
    [errno], [f] the new file and [new] what the call added to the history. *)
Definition after (w : world) (ev : event) (e : Z) (f : option (list byte))
    (new : list entry) : world :=
  World (latch (signals ev) (exit_requested w)) e f (trace w ++ new)
        (tl (oracle w)).

(** What [serve] hands to the cleanup code: exit code 0 after the accept loop
    was left with the flag set, or -1 when a setup call failed. *)
Definition served (w : world) (res : Z * Z) (w1 : world) : Prop :=
  (fst res = 0 /\
   exit_requested w1 <> 0 /\
   existsb is_listen_ok (new_trace w w1) = true /\
   exists n, snd res = Z.of_nat n /\
             In (Sys SOCKET 0 [] (Ok n)) (new_trace w w1)) \/
  (fst res = -1 /\ existsb is_listen_ok (new_trace w w1) = false).

(** The history after the first failure of an append, of an answer or of
    the growing realloc. *)
Fixpoint since_failure (t : list entry) : list entry :=
  match t with
  | [] => []
  | e :: t' => if failure e then t' else since_failure t'
  end.

(** A failed open, write or close of [append_to_file] whose cause is not an
    interruption. *)
Definition hard_error (e : entry) : bool :=
  match e with
  | Sys OPEN_APPEND _ _ (Err e) => negb (e =? EINTR)
  | Sys WRITE _ _ (Err e) => negb (e =? EINTR)
  | Sys CLOSE _ _ (Err e) => negb (e =? EINTR)
  | _ => false
  end.

(** An answer that reports success and progress: a descriptor, or at least
    one byte transferred. *)
Definition progress (ev : event) : Prop := exists n, answer ev = Ok (S n).

(** ** Concrete runs *)

Definition ECONNRESET : Z := 104.
Definition EACCES : Z := 13.
Definition ENOMEM : Z := 12.
Definition EINVAL : Z := 22.

Definition bytes (s : string) : list byte := list_byte_of_string s.
Definition line (s : string) : list byte := bytes s ++ [NL].

Definition answers (n : nat) : event := Event [] (Ok n) [].
Definition fails (e : Z) : event := Event [] (Err e) [].
Definition delivers (bs : list byte) : event := Event [] (Ok (length bs)) bs.
Definition interrupts (signo : Z) : event := Event [signo] (Err EINTR) [].

(** The process before [main] has made any call. *)
Definition boot (evs : list event) : world := World 0 0 None [] evs.

Definition final {A} (r : result A) (w : world) : world :=
  match r with
  | Done _ w' => w'
  | _ => w
  end.

(** The calls of one [append_to_file] and one [send_file_contents] that
    succeed at once. *)
Definition append_ok : list event := [answers 5; answers 1024; answers 0].
Definition echo_ok : list event :=
  [answers 5; answers 1024; answers 1024; answers 0; answers 0].

(** One client sends two packets in one chunk, then closes. *)
Definition two_packets : world :=
  boot ([delivers (line "hello" ++ line "world"); answers 1]
        ++ append_ok ++ echo_ok ++ append_ok ++ echo_ok
        ++ [fails ENOMEM; delivers []]).

(** As [two_packets], but the send of the first answer fails. *)
Definition echo_fails : world :=
  boot [delivers (line "a" ++ line "b"); answers 1;
        answers 5; answers 1024; answers 0;
        answers 5; answers 1024; fails ECONNRESET; answers 0;
        answers 1; delivers []].


(** The open of the first append fails; the client then sends a third
    packet and closes. *)
Definition append_fails : world :=
  boot ([delivers (line "a" ++ line "b"); answers 1;
         fails EACCES; answers 1;
         delivers (line "c"); answers 1]
        ++ append_ok ++ echo_ok ++ append_ok ++ echo_ok
        ++ [fails ENOMEM; delivers []]).

(** SIGTERM arrives while [send] is blocked. *)
Definition send_interrupted : world :=
  World 0 0 (Some (line "a")) [] [interrupts SIGTERM; answers 2].

(** [read] of the data file is interrupted; no signal sets the flag. *)
Definition read_interrupted : world :=
  World 0 0 (Some (line "a")) [] [answers 5; fails EINTR; answers 0].

(** [close] is interrupted after the data was written. *)
Definition close_interrupted : world :=
  boot [answers 5; answers 1024; interrupts SIGTERM].

(** The second chunk of a connection cannot be buffered. *)
Definition realloc_fails : world :=
  World 0 0 (Some (line "x")) [] [delivers (line "b" ++ bytes "c"); fails ENOMEM].

(** The first setup call fails. *)
Definition setup_fails : world := boot [fails EINVAL; answers 0].

(** One client sends a packet, then SIGTERM arrives during the next accept. *)
Definition one_client : world :=
  boot ([answers 0; answers 0; answers 3; answers 0; answers 0; answers 0;
         answers 4; delivers (line "hello"); answers 1]
        ++ append_ok ++ echo_ok
        ++ [fails ENOMEM; delivers []; answers 0;
            interrupts SIGTERM; answers 0; answers 0]).

(** A client sends bytes without a delimiter, then closes. *)
Definition unterminated : world :=
  World 0 0 (Some (line "old")) [] [delivers (bytes "abc"); answers 1; delivers []].

(** The calls of one connection that sends one short packet and closes. *)
Definition connection (fd : nat) (packet : list byte) : list event :=
  [answers fd; delivers packet; answers 1]
  ++ append_ok ++ echo_ok ++ [fails ENOMEM; delivers []; answers 0].

(** Two clients one after the other, then SIGTERM during the next accept. *)
Definition two_clients : world :=
  boot ([answers 0; answers 0; answers 3; answers 0; answers 0; answers 0]
        ++ connection 4 (line "a") ++ connection 4 (line "b")
        ++ [interrupts SIGTERM; answers 0; answers 0]).
(** * Further properties: definitions *)

(** What one entry of the history does to the data file. *)
Definition file_step (f : option (list byte)) (e : entry) : option (list byte) :=
  match e with
  | Sys OPEN_APPEND _ _ (Ok _) => Some (match f with Some c => c | None => [] end)
  | Sys WRITE _ d (Ok _) => Some (match f with Some c => c | None => [] end ++ d)
  | Sys REMOVE _ _ (Ok _) => None
  | _ => f
  end.

(** The data file after the calls of a history, starting from [f]. *)
Definition replay (t : list entry) (f : option (list byte)) : option (list byte) :=
  fold_left file_step t f.

(** A computation [preserves] a property of worlds when every run of it that
    starts in a world with the property ends in one. *)
Definition preserves (I : world -> Prop) {A} (m : M A) : Prop :=
  forall w a w', I w -> m w = Done a w' -> I w'.

(** [w] lies on a run from [w0] on which the file is what the history makes
    of it. *)
Definition follows (w0 w : world) : Prop :=
  exists new,
    trace w = trace w0 ++ new /\ data_file w = replay new (data_file w0).

(** One packet and the start of the next are in the buffer; the append and
    the answer succeed at once. *)
Definition packet_and_a_half : world :=
  World 0 0 (Some (line "old")) [] (append_ok ++ echo_ok).

(** A call that takes the data file away. *)
Definition removes (e : entry) : bool :=
  match e with
  | Sys REMOVE _ _ (Ok _) => true
  | _ => false
  end.

(** The calls of the write loop of [append_to_file] that are followed by
    another round: a write on [fd] that succeeded or was interrupted. *)
Definition write_retry (fd : Z) (e : entry) : bool :=
  match e with
  | Sys WRITE fd' _ (Ok _) => fd' =? fd
  | Sys WRITE fd' _ (Err e) => (fd' =? fd) && (e =? EINTR)
  | _ => false
  end.

(** The histories of [append_to_file data], with the value returned. *)
Inductive append_trace (data : list byte) : Z -> list entry -> Prop :=
| append_open_failed e :
    append_trace data (-1)
      [Sys OPEN_APPEND 0 [] (Err e); Log LOG_ERR "open(%s) failed: %s"]
| append_write_failed n ws k e o :
    forallb (write_retry (Z.of_nat n)) ws = true ->
    written_bytes ws = firstn k data ->
    (k < length data)%nat ->
    e <> EINTR ->
    append_trace data (-1)
      (Sys OPEN_APPEND 0 [] (Ok n) :: ws ++
       [Sys WRITE (Z.of_nat n) [] (Err e);
        Log LOG_ERR "write(%s) failed: %s";
        Sys CLOSE (Z.of_nat n) [] o])
| append_close_failed n ws e :
    forallb (write_retry (Z.of_nat n)) ws = true ->
    written_bytes ws = data ->
    append_trace data (-1)
      (Sys OPEN_APPEND 0 [] (Ok n) :: ws ++
       [Sys CLOSE (Z.of_nat n) [] (Err e);
        Log LOG_ERR "close data file failed: %s"])
| append_done n ws m :
    forallb (write_retry (Z.of_nat n)) ws = true ->
    written_bytes ws = data ->
    append_trace data 0
      (Sys OPEN_APPEND 0 [] (Ok n) :: ws ++ [Sys CLOSE (Z.of_nat n) [] (Ok m)]).

Definition ENOSPC : Z := 28.

(** The disk fills up after two bytes of the record. *)
Definition torn_write : world :=
  World 0 0 (Some (line "old")) []
        [answers 5; answers 2; interrupts SIGTERM; fails ENOSPC; answers 0].

Definition file_bytes (f : option (list byte)) : list byte :=
  match f with
  | Some c => c
  | None => []
  end.

(** The calls of the read and send loops of [send_file_contents] that are
    followed by another round: a read on [fd] that returned data, a send on
    [client_fd] that succeeded or was interrupted. *)
Definition echo_retry (client_fd fd : Z) (e : entry) : bool :=
  match e with
  | Sys READ fd' _ (Ok n) => (fd' =? fd) && (0 <? n)%nat
  | Sys SEND fd' _ (Ok _) => fd' =? client_fd
  | Sys SEND fd' _ (Err e) => (fd' =? client_fd) && (e =? EINTR)
  | _ => false
  end.

(** The histories of [send_file_contents client_fd] on a file that holds [c],
    with the value returned. *)
Inductive echo_trace (client_fd : Z) (c : list byte) : Z -> list entry -> Prop :=
| echo_open_failed e :
    echo_trace client_fd c (-1)
      [Sys OPEN_RDONLY 0 [] (Err e);
       Log LOG_ERR "open(%s) for read failed: %s"]
| echo_send_failed n t k e o :
    forallb (echo_retry client_fd (Z.of_nat n)) t = true ->
    sent t = firstn k c ->
    e <> EINTR ->
    echo_trace client_fd c (-1)
      (Sys OPEN_RDONLY 0 [] (Ok n) :: t ++
       [Sys SEND client_fd [] (Err e);
        Log LOG_ERR "send() failed: %s";
        Sys CLOSE (Z.of_nat n) [] o])
| echo_read_failed n t k e o :
    forallb (echo_retry client_fd (Z.of_nat n)) t = true ->
    sent t = firstn k c ->
    echo_trace client_fd c (-1)
      (Sys OPEN_RDONLY 0 [] (Ok n) :: t ++
       [Sys READ (Z.of_nat n) [] (Err e);
        Log LOG_ERR "read(%s) failed: %s";
        Sys CLOSE (Z.of_nat n) [] o])
| echo_close_failed n t e :
    forallb (echo_retry client_fd (Z.of_nat n)) t = true ->
    sent t = c ->
    echo_trace client_fd c (-1)
      (Sys OPEN_RDONLY 0 [] (Ok n) :: t ++
       [Sys READ (Z.of_nat n) [] (Ok 0);
        Sys CLOSE (Z.of_nat n) [] (Err e);
        Log LOG_ERR "close data file failed: %s"])
| echo_done n t m :
    forallb (echo_retry client_fd (Z.of_nat n)) t = true ->
    sent t = c ->
    echo_trace client_fd c 0
      (Sys OPEN_RDONLY 0 [] (Ok n) :: t ++
       [Sys READ (Z.of_nat n) [] (Ok 0); Sys CLOSE (Z.of_nat n) [] (Ok m)]).

(** The peer resets the connection after two bytes of the answer. *)
Definition send_fails_midway : world :=
  World 0 0 (Some (line "hello")) []
        [answers 5; answers 1024; answers 2; interrupts SIGTERM;
         fails ECONNRESET; answers 0].

(** There is no data file. *)
Definition no_file : world := boot [answers 5; answers 0].

(** The calls that leave the data file in place. *)
Definition keeps_file (e : entry) : bool := negb (removes e).

(** How [handle_client] ends: the calls from the last [recv] to the final
    [free], for the value [x] of the flag at that time. *)
Inductive connection_end (client_fd : Z) (x : Z) : list entry -> Prop :=
| end_shutdown buf :
    x <> 0 -> connection_end client_fd x [Free buf]
| end_interrupted buf :
    x <> 0 ->
    connection_end client_fd x [Sys RECV client_fd [] (Err EINTR); Free buf]
| end_peer_closed buf :
    connection_end client_fd x [Sys RECV client_fd [] (Ok 0); Free buf]
| end_recv_failed buf e :
    e <> EINTR ->
    connection_end client_fd x
      [Sys RECV client_fd [] (Err e); Log LOG_ERR "recv() failed: %s"; Free buf]
| end_out_of_memory buf chunk n size e :
    connection_end client_fd x
      [Sys RECV client_fd chunk (Ok n); Sys REALLOC size [] (Err e);
       Log LOG_ERR "realloc() failed while growing packet buffer";
       Free buf; Free []].

(** One round of the receive loop of [handle_client], from [w] to [w1] with
    [buf] in the packet buffer: what was called and how the round ends. *)
Inductive round (client_fd : Z) (buf : list byte) (w w1 : world)
  : ctl (list byte) (list byte) -> Prop :=
| round_guard :
    exit_requested w <> 0 -> w1 = w ->
    round client_fd buf w w1 (Break buf)
| round_interrupted_stop :
    new_trace w w1 = [Sys RECV client_fd [] (Err EINTR)] ->
    exit_requested w1 <> 0 ->
    round client_fd buf w w1 (Break buf)
| round_interrupted_retry :
    new_trace w w1 = [Sys RECV client_fd [] (Err EINTR)] ->
    exit_requested w1 = 0 ->
    round client_fd buf w w1 (Continue buf)
| round_recv_failed e :
    e <> EINTR ->
    new_trace w w1 =
      [Sys RECV client_fd [] (Err e); Log LOG_ERR "recv() failed: %s"] ->
    round client_fd buf w w1 (Break buf)
| round_peer_closed :
    new_trace w w1 = [Sys RECV client_fd [] (Ok 0)] ->
    round client_fd buf w w1 (Break buf)
| round_out_of_memory chunk e :
    chunk <> [] ->
    new_trace w w1 =
      [Sys RECV client_fd chunk (Ok (length chunk));
       Sys REALLOC (Z.of_nat (length buf + length chunk)) [] (Err e);
       Log LOG_ERR "realloc() failed while growing packet buffer";
       Free buf] ->
    round client_fd buf w w1 (Break [])
| round_scanned chunk m w2 :
    chunk <> [] ->
    extends w w2 ->
    new_trace w w2 =
      [Sys RECV client_fd chunk (Ok (length chunk));
       Sys REALLOC (Z.of_nat (length buf + length chunk)) [] (Ok m)] ->
    scan client_fd (buf ++ chunk) (length (buf ++ chunk)) 0 0 w2 = Done 0%nat w1 ->
    round client_fd buf w w1 (Continue (buf ++ chunk))
| round_compacted chunk m w2 w3 start o :
    chunk <> [] ->
    extends w w2 ->
    new_trace w w2 =
      [Sys RECV client_fd chunk (Ok (length chunk));
       Sys REALLOC (Z.of_nat (length buf + length chunk)) [] (Ok m)] ->
    scan client_fd (buf ++ chunk) (length (buf ++ chunk)) 0 0 w2 = Done start w3 ->
    (0 < start <= length (buf ++ chunk))%nat ->
    extends w3 w1 ->
    new_trace w3 w1 =
      [Sys REALLOC_SHRINK (Z.of_nat (length (buf ++ chunk) - start)) [] o] ->
    round client_fd buf w w1 (Continue (skipn start (buf ++ chunk))).

Definition prefix_of (p l : list byte) : Prop := exists k, p = firstn k l.

(** The calls of [append_to_file] in a history: each opens the file once. *)
Definition is_append (e : entry) : bool :=
  match e with
  | Sys OPEN_APPEND _ _ _ => true
  | _ => false
  end.

Definition appends (t : list entry) : nat := length (filter is_append t).

(** The calls of a round of [handle_client] that handles no packet. *)
Definition quiet_call (e : entry) : bool :=
  match e with
  | Sys RECV _ _ _ | Sys REALLOC _ _ _ | Log _ _ | Free _ => true
  | _ => false
  end.

(** What closing a client socket adds to the history. *)
Definition client_close (fd : Z) (r : outcome) : list entry :=
  Sys CLOSE fd [] r ::
  match r with
  | Ok _ => []
  | Err _ => [Log LOG_ERR "close(client_fd) failed: %s"]
  end.

(** One round of the accept loop of [main], from [w] to [w1]. *)
Inductive accept_round (server_fd : Z) (w w1 : world) : ctl unit unit -> Prop :=
| accept_guard :
    exit_requested w <> 0 -> w1 = w ->
    accept_round server_fd w w1 (Break tt)
| accept_interrupted_stop :
    new_trace w w1 = [Sys ACCEPT server_fd [] (Err EINTR)] ->
    exit_requested w1 <> 0 ->
    accept_round server_fd w w1 (Break tt)
| accept_interrupted_retry :
    new_trace w w1 = [Sys ACCEPT server_fd [] (Err EINTR)] ->
    exit_requested w1 = 0 ->
    accept_round server_fd w w1 (Continue tt)
| accept_failed e :
    e <> EINTR ->
    new_trace w w1 =
      [Sys ACCEPT server_fd [] (Err e); Log LOG_ERR "accept() failed: %s"] ->
    accept_round server_fd w w1 (Continue tt)
| accept_served n w2 w3 o :
    extends w w2 ->
    new_trace w w2 =
      [Sys ACCEPT server_fd [] (Ok n);
       Log LOG_INFO "Accepted connection from %s"] ->
    handle_client (Z.of_nat n) w2 = Done tt w3 ->
    extends w3 w1 ->
    new_trace w3 w1 =
      Log LOG_INFO "Closed connection from %s" :: client_close (Z.of_nat n) o ->
    accept_round server_fd w w1 (Continue tt).

(** The setup calls of [main] when they all succeed; [n] is the listening
    socket. *)
Definition setup_entries (r1 r2 n r4 r5 r6 : nat) : list entry :=
  [Sys SIGACTION SIGINT [] (Ok r1);
   Sys SIGACTION SIGTERM [] (Ok r2);
   Sys SOCKET 0 [] (Ok n);
   Sys SETSOCKOPT (Z.of_nat n) [] (Ok r4);
   Sys BIND (Z.of_nat n) [] (Ok r5);
   Sys LISTEN (Z.of_nat n) [] (Ok r6)].

(** The message logged when the setup call of the same position fails. *)
Definition setup_messages : list string :=
  ["sigaction(SIGINT) failed: %s"; "sigaction(SIGTERM) failed: %s";
   "socket() failed: %s"; "setsockopt(SO_REUSEADDR) failed: %s";
   "bind() failed: %s"; "listen() failed: %s"]%string.

(** The same call, failing with [e]. *)
Definition fail_with (e : Z) (x : entry) : entry :=
  match x with
  | Sys c arg d _ => Sys c arg d (Err e)
  | _ => x
  end.

(** The calls made after the label [cleanup]. *)
Definition cleanup_call (e : entry) : bool :=
  match e with
  | Sys CLOSE _ _ _ | Sys REMOVE _ _ _ | Log _ _ | CloseLog => true
  | _ => false
  end.

Definition EADDRINUSE : Z := 98.

(** The port is taken: [bind] fails. *)
Definition bind_fails : world :=
  boot [answers 0; answers 0; answers 3; answers 0; fails EADDRINUSE;
        answers 0; answers 0].

(** ** Descriptors *)

Definition on_top (fd : Z) (st : list Z) : bool :=
  match st with
  | top :: _ => fd =? top
  | [] => false
  end.

(** The descriptors the process holds, the one obtained last first.  The
    state is [None] once a call was made on a descriptor other than the one
    it is due on: every call is due on the descriptor obtained last, except
    [send], due on the one obtained just before it (the data file is open
    while its contents are sent). *)
Definition fd_step (q : option (list Z)) (e : entry) : option (list Z) :=
  match q with
  | None => None
  | Some st =>
      match e with
      | Sys SOCKET _ _ (Ok n) | Sys OPEN_APPEND _ _ (Ok n)
      | Sys OPEN_RDONLY _ _ (Ok n) => Some (Z.of_nat n :: st)
      | Sys ACCEPT fd _ (Ok n) =>
          if on_top fd st then Some (Z.of_nat n :: st) else None
      | Sys CLOSE fd _ _ => if on_top fd st then Some (tl st) else None
      | Sys SEND fd _ _ => if on_top fd (tl st) then Some st else None
      | Sys ACCEPT fd _ (Err _) | Sys SETSOCKOPT fd _ _ | Sys BIND fd _ _
      | Sys LISTEN fd _ _ | Sys RECV fd _ _ | Sys READ fd _ _
      | Sys WRITE fd _ _ =>
          if on_top fd st then Some st else None
      | _ => Some st
      end
  end.

Definition descriptors (t : list entry) (q : option (list Z)) : option (list Z) :=
  fold_left fd_step t q.

(** ** Error lines *)

(** What a descriptor of the process is open on. *)
Inductive kind : Type := Listening | Connection | DataFile.

(** The error line of a [close] that failed, by what was closed. *)
Definition close_format (k : kind) : string :=
  match k with
  | Listening => "close(server_fd) failed: %s"
  | Connection => "close(client_fd) failed: %s"
  | DataFile => "close data file failed: %s"
  end.

(** What the history owes after an entry, with the descriptors held (the one
    obtained last first): nothing; the error line of the call that just
    failed; that line and then the [close] of the data file on the error
    path; that [close], whose own failure is not reported; or the
    correspondence of failures and error lines is broken. *)
Inductive log_state : Type :=
| Settled (held : list kind)
| Owed (format : string) (held : list kind)
| OwedThenClose (format : string) (held : list kind)
| ErrorPath (held : list kind)
| Broken.

(** A call that succeeded: what it obtains or releases. *)
Definition after_success (c : syscall) (held : list kind) : log_state :=
  match c with
  | SOCKET => Settled (Listening :: held)
  | ACCEPT => Settled (Connection :: held)
  | OPEN_APPEND | OPEN_RDONLY => Settled (DataFile :: held)
  | CLOSE =>
      match held with
      | _ :: held' => Settled held'
      | [] => Broken
      end
  | _ => Settled held
  end.

(** A call that failed with [e]: the error line the code owes for it. *)
Definition after_failure (c : syscall) (arg e : Z) (held : list kind)
  : log_state :=
  match c with
  | SIGACTION =>
      if arg =? SIGINT then Owed "sigaction(SIGINT) failed: %s" held
      else if arg =? SIGTERM then Owed "sigaction(SIGTERM) failed: %s" held
      else Broken
  | SOCKET => Owed "socket() failed: %s" held
  | SETSOCKOPT => Owed "setsockopt(SO_REUSEADDR) failed: %s" held
  | BIND => Owed "bind() failed: %s" held
  | LISTEN => Owed "listen() failed: %s" held
  | ACCEPT => if e =? EINTR then Settled held else Owed "accept() failed: %s" held
  | RECV => if e =? EINTR then Settled held else Owed "recv() failed: %s" held
  | SEND =>
      if e =? EINTR then Settled held
      else OwedThenClose "send() failed: %s" held
  | WRITE =>
      if e =? EINTR then Settled held
      else OwedThenClose "write(%s) failed: %s" held
  | READ => OwedThenClose "read(%s) failed: %s" held
  | OPEN_APPEND => Owed "open(%s) failed: %s" held
  | OPEN_RDONLY => Owed "open(%s) for read failed: %s" held
  | CLOSE =>
      match held with
      | k :: held' => Owed (close_format k) held'
      | [] => Broken
      end
  | REMOVE =>
      if e =? ENOENT then Settled held else Owed "remove(%s) failed: %s" held
  | REALLOC => Owed "realloc() failed while growing packet buffer" held
  | REALLOC_SHRINK => Settled held
  end.

Definition error_line (format : string) (e : entry) : bool :=
  match e with
  | Log p f => (p =? LOG_ERR) && String.eqb f format
  | _ => false
  end.

Definition log_step (q : log_state) (e : entry) : log_state :=
  match q with
  | Broken => Broken
  | Owed format held =>
      if error_line format e then Settled held else Broken
  | OwedThenClose format held =>
      if error_line format e then ErrorPath held else Broken
  | ErrorPath held =>
      match e, held with
      | Sys CLOSE _ _ _, DataFile :: held' => Settled held'
      | _, _ => Broken
      end
  | Settled held =>
      match e with
      | Sys c _ _ (Ok _) => after_success c held
      | Sys c arg _ (Err x) => after_failure c arg x held
      | Log p _ => if p =? LOG_ERR then Broken else Settled held
      | _ => Settled held
      end
  end.

Definition error_lines (t : list entry) (q : log_state) : log_state :=
  fold_left log_step t q.

(** ** An environment that lets the calls succeed *)

(** The answers to the calls of a send loop or write loop that has [rem]
    bytes to pass: each answer takes some of the bytes, or none, or is an
    interruption.  The value is what is left of the answers when the last
    byte has gone; there is none when an answer is a failure, or when the
    answers end first. *)
Fixpoint passes (rem : nat) (evs : list event) {struct evs}
  : option (list event) :=
  match rem, evs with
  | O, _ => Some evs
  | _, [] => None
  | _, ev :: evs' =>
      match answer ev with
      | Ok n => passes (rem - n) evs'
      | Err e => if e =? EINTR then passes rem evs' else None
      end
  end.

(** The answers to the reads of a file with [rem] bytes to go and to the
    sends of each chunk read: every read returns, and what it returned
    passes.  [rounds] bounds the reads. *)
Fixpoint feeds (rounds rem : nat) (evs : list event) : option (list event) :=
  match rounds, evs with
  | S rounds', ev :: evs' =>
      match answer ev with
      | Ok n =>
          match Nat.min (Nat.min (Nat.max n 1) BUF_SIZE) rem with
          | O => Some evs'
          | S k =>
              match passes (S k) evs' with
              | Some evs'' => feeds rounds' (rem - S k) evs''
              | None => None
              end
          end
      | Err _ => None
      end
  | _, _ => None
  end.

(** The answers that let [send_file_contents] succeed on a file that holds
    [c]: to the open, to the reads and sends, to the close. *)
Definition echo_answers (c : list byte) (evs : list event)
  : option (list event) :=
  match evs with
  | o :: evs1 =>
      match answer o, feeds (S (length c)) (length c) evs1 with
      | Ok _, Some (cl :: rest) =>
          match answer cl with
          | Ok _ => Some rest
          | Err _ => None
          end
      | _, _ => None
      end
  | [] => None
  end.

(** The answers that let [append_to_file data] succeed: to the open, to the
    writes, to the close. *)
Definition append_answers (data : list byte) (evs : list event)
  : option (list event) :=
  match evs with
  | o :: evs1 =>
      match answer o, passes (length data) evs1 with
      | Ok _, Some (cl :: rest) =>
          match answer cl with
          | Ok _ => Some rest
          | Err _ => None
          end
      | _, _ => None
      end
  | [] => None
  end.

(** The answers that let a round of the receive loop store and answer the
    record [rec] that the chunk just received completes: the growing
    [realloc] succeeds, the append succeeds, the answer succeeds on the file
    that holds [c] by then, and the shrinking [realloc] returns, a pointer
    or NULL. *)
Definition packet_answers (rec c : list byte) (evs : list event)
  : option (list event) :=
  match evs with
  | g :: evs1 =>
      match answer g, append_answers rec evs1 with
      | Ok _, Some evs2 =>
          match echo_answers c evs2 with
          | Some (_ :: rest) => Some rest
          | _ => None
          end
      | _, _ => None
      end
  | [] => None
  end.

(** A file of six bytes is read in three chunks; the first is sent in two
    pieces, after a send that takes nothing and one that is interrupted. *)
Definition patient : world :=
  World 0 0 (Some (line "hello")) []
        [answers 5;
         answers 4; answers 0; interrupts SIGTERM; answers 3; answers 1024;
         answers 0; answers 1;
         answers 1024; answers 5;
         answers 0; answers 0;
         delivers (line "next")].

(** A client sends the end of a packet; the write of the record is
    interrupted once and takes two pieces; [realloc(p, 0)] returns NULL. *)
Definition completing : world :=
  World 0 0 (Some (line "old")) []
        [delivers (line "lo"); answers 1;
         answers 5; answers 2; fails EINTR; answers 1024; answers 0;
         answers 5; answers 1024; answers 1024; answers 0; answers 0;
         fails ENOMEM;
         delivers (line "next")].

Definition is_free (e : entry) : bool :=
  match e with
  | Free _ => true
  | _ => false
  end.

(** The calls of [append_to_file] and [send_file_contents]. *)
Definition packet_call (e : entry) : bool := append_call e || echo_call e.

(** * Proofs *)

(** ** The monad and the frame of a run *)

Lemma bind_done {A B} (m : M A) (f : A -> M B) w b w2 :
  bind m f w = Done b w2 ->
  exists a w1, m w = Done a w1 /\ f a w1 = Done b w2.
Proof.
  unfold bind. destruct (m w) as [a w1| |]; try discriminate.
  intros H. exists a, w1. split; [reflexivity|exact H].
Qed.

Lemma ret_done {A} (a b : A) w w' : ret a w = Done b w' -> b = a /\ w' = w.
Proof. unfold ret. intros H. inversion H. split; reflexivity. Qed.

Lemma latch_app a b x : latch (a ++ b) x = latch b (latch a x).
Proof. unfold latch. apply fold_left_app. Qed.

Lemma latch_set sigs : latch sigs 1 = 1.
Proof.
  induction sigs as [|s sigs IH]; [reflexivity|].
  unfold latch in *. simpl. destruct ((s =? SIGINT) || (s =? SIGTERM)); exact IH.
Qed.

Lemma latch_cases sigs x : latch sigs x = x \/ latch sigs x = 1.
Proof.
  revert x. induction sigs as [|s sigs IH]; intros x; [left; reflexivity|].
  change (latch (s :: sigs) x)
    with (latch sigs (if (s =? SIGINT) || (s =? SIGTERM) then 1 else x)).
  destruct ((s =? SIGINT) || (s =? SIGTERM)).
  - right. apply latch_set.
  - apply IH.
Qed.

Lemma deliver_eq sigs w :
  deliver sigs w =
  World (latch sigs (exit_requested w)) (errno w) (data_file w) (trace w) (oracle w).
Proof.
  revert w. induction sigs as [|s sigs IH]; intros [x e f t o]; [reflexivity|].
  unfold deliver in *. simpl. rewrite IH. unfold signal_handler, latch. simpl.
  destruct ((s =? SIGINT) || (s =? SIGTERM)); reflexivity.
Qed.

Lemma skipn_length_app {A} (l k : list A) : skipn (length l) (l ++ k) = k.
Proof. induction l as [|a l IH]; [reflexivity|exact IH]. Qed.

Lemma firstn_length_app {A} (l k : list A) :
  firstn (length (l ++ k) - length k) (l ++ k) = l.
Proof.
  rewrite length_app.
  replace (length l + length k - length k)%nat with (length l) by lia.
  induction l as [|a l IH]; simpl.
  - reflexivity.
  - f_equal. exact IH.
Qed.

Lemma extends_intro w w' used new :
  oracle w = used ++ oracle w' ->
  trace w' = trace w ++ new ->
  exit_requested w' = latch (flat_map signals used) (exit_requested w) ->
  (existsb modifies_file new = false -> data_file w' = data_file w) ->
  extends w w' /\ new_trace w w' = new /\ used_events w w' = used.
Proof.
  intros Ho Ht Hx Hf.
  assert (Hn : new_trace w w' = new).
  { unfold new_trace. rewrite Ht. apply skipn_length_app. }
  assert (Hu : used_events w w' = used).
  { unfold used_events. rewrite Ho. apply firstn_length_app. }
  unfold extends. rewrite Hn, Hu. auto.
Qed.

Lemma extends_refl w : extends w w.
Proof.
  apply (extends_intro w w [] []).
  - reflexivity.
  - symmetry. apply app_nil_r.
  - reflexivity.
  - reflexivity.
Qed.

Lemma extends_trans_full w w1 w2 :
  extends w w1 -> extends w1 w2 ->
  extends w w2 /\
  new_trace w w2 = new_trace w w1 ++ new_trace w1 w2 /\
  used_events w w2 = used_events w w1 ++ used_events w1 w2.
Proof.
  intros (Ht1 & Ho1 & Hx1 & Hf1) (Ht2 & Ho2 & Hx2 & Hf2).
  apply extends_intro.
  - rewrite Ho1 at 1. rewrite Ho2 at 1. apply app_assoc.
  - rewrite Ht2 at 1. rewrite Ht1 at 1. symmetry. apply app_assoc.
  - rewrite Hx2, Hx1, flat_map_app, latch_app. reflexivity.
  - rewrite existsb_app. intros H. apply orb_false_elim in H as [H1 H2].
    rewrite (Hf2 H2). exact (Hf1 H1).
Qed.

Lemma extends_trans w w1 w2 : extends w w1 -> extends w1 w2 -> extends w w2.
Proof. intros H1 H2. apply (extends_trans_full w w1 w2 H1 H2). Qed.

Lemma new_trace_trans w w1 w2 :
  extends w w1 -> extends w1 w2 ->
  new_trace w w2 = new_trace w w1 ++ new_trace w1 w2.
Proof. intros H1 H2. apply (extends_trans_full w w1 w2 H1 H2). Qed.

Lemma used_events_trans w w1 w2 :
  extends w w1 -> extends w1 w2 ->
  used_events w w2 = used_events w w1 ++ used_events w1 w2.
Proof. intros H1 H2. apply (extends_trans_full w w1 w2 H1 H2). Qed.

Lemma extends_oracle_le w w' :
  extends w w' -> (length (oracle w') <= length (oracle w))%nat.
Proof. intros (_ & Ho & _). rewrite Ho, length_app. lia. Qed.

Lemma extends_new w w' used new :
  oracle w = used ++ oracle w' ->
  trace w' = trace w ++ new ->
  exit_requested w' = latch (flat_map signals used) (exit_requested w) ->
  (existsb modifies_file new = false -> data_file w' = data_file w) ->
  extends w w' /\ new_trace w w' = new.
Proof.
  intros Ho Ht Hx Hf.
  destruct (extends_intro w w' used new Ho Ht Hx Hf) as (E & N & _).
  auto.
Qed.

Lemma extends_file w w' :
  extends w w' -> existsb modifies_file (new_trace w w') = false ->
  data_file w' = data_file w.
Proof. intros (_ & _ & _ & Hf). exact Hf. Qed.


(** ** What each library call does *)

Lemma after_extends w ev e f new :
  hd_error (oracle w) = Some ev ->
  (existsb modifies_file new = false -> f = data_file w) ->
  extends w (after w ev e f new) /\
  new_trace w (after w ev e f new) = new /\
  used_events w (after w ev e f new) = [ev].
Proof.
  intros Hhd Hf. apply extends_intro; unfold after; simpl.
  - destruct (oracle w); simpl in *; [discriminate|]. congruence.
  - reflexivity.
  - rewrite app_nil_r. reflexivity.
  - exact Hf.
Qed.

(** A call that leaves the file alone. *)
Lemma after_same w ev e new :
  hd_error (oracle w) = Some ev ->
  extends w (after w ev e (data_file w) new) /\
  new_trace w (after w ev e (data_file w) new) = new /\
  used_events w (after w ev e (data_file w) new) = [ev].
Proof. intros Hhd. apply after_extends; auto. Qed.

(** A call that is recorded as changing the file. *)
Lemma after_modified w ev e f new :
  hd_error (oracle w) = Some ev ->
  existsb modifies_file new = true ->
  extends w (after w ev e f new) /\
  new_trace w (after w ev e f new) = new /\
  used_events w (after w ev e f new) = [ev].
Proof.
  intros Hhd Hm. apply after_extends; [exact Hhd|].
  rewrite Hm. discriminate.
Qed.

Lemma next_event_after w ev w' :
  next_event w = Done ev w' ->
  hd_error (oracle w) = Some ev /\ w' = after w ev (errno w) (data_file w) [].
Proof.
  unfold next_event, after. destruct (oracle w) as [|ev' rest]; [discriminate|].
  rewrite deliver_eq. simpl. rewrite app_nil_r.
  intros H. inversion H. subst. auto.
Qed.

Ltac call_inv H :=
  let ev := fresh "ev" in
  let w0 := fresh "w0" in
  let Hev := fresh "Hev" in
  let Hhd := fresh "Hhd" in
  apply bind_done in H as (ev & w0 & Hev & H);
  apply next_event_after in Hev as [Hhd ->];
  exists ev; split; [exact Hhd|];
  unfold failed, bind, ret, record, set_errno, set_file, get_file in H;
  simpl in H.

Ltac call_done H :=
  inversion H; subst; clear H; unfold after; simpl;
  rewrite <- ?app_assoc, ?app_nil_r; simpl; auto.

Lemma sys_done c arg w r w' :
  sys c arg w = Done r w' ->
  exists ev, hd_error (oracle w) = Some ev /\
    match answer ev with
    | Ok n => r = Z.of_nat n /\
              w' = after w ev (errno w) (data_file w) [Sys c arg [] (Ok n)]
    | Err e => r = -1 /\
               w' = after w ev e (data_file w) [Sys c arg [] (Err e)]
    end.
Proof.
  unfold sys. intros H. call_inv H. destruct (answer ev); call_done H.
Qed.

Lemma open_append_done w r w' :
  open_append w = Done r w' ->
  exists ev, hd_error (oracle w) = Some ev /\
    match answer ev with
    | Ok n => r = Z.of_nat n /\
              w' = after w ev (errno w) (Some (contents w))
                         [Sys OPEN_APPEND 0 [] (Ok n)]
    | Err e => r = -1 /\
               w' = after w ev e (data_file w) [Sys OPEN_APPEND 0 [] (Err e)]
    end.
Proof.
  unfold open_append. intros H. call_inv H. destruct (answer ev); call_done H.
Qed.

Lemma open_rdonly_done w r w' :
  open_rdonly w = Done r w' ->
  exists ev, hd_error (oracle w) = Some ev /\
    match answer ev, data_file w with
    | Ok n, Some _ =>
        r = Z.of_nat n /\
        w' = after w ev (errno w) (data_file w) [Sys OPEN_RDONLY 0 [] (Ok n)]
    | Ok _, None =>
        r = -1 /\
        w' = after w ev ENOENT (data_file w) [Sys OPEN_RDONLY 0 [] (Err ENOENT)]
    | Err e, _ =>
        r = -1 /\
        w' = after w ev e (data_file w) [Sys OPEN_RDONLY 0 [] (Err e)]
    end.
Proof.
  unfold open_rdonly. intros H. call_inv H.
  destruct (answer ev); [destruct (data_file w)|]; call_done H.
Qed.

Lemma write_done fd buf w r w' :
  write fd buf w = Done r w' ->
  exists ev, hd_error (oracle w) = Some ev /\
    match answer ev with
    | Ok n =>
        r = Z.of_nat (length (firstn n buf)) /\
        w' = after w ev (errno w) (Some (contents w ++ firstn n buf))
                   [Sys WRITE fd (firstn n buf) (Ok (length (firstn n buf)))]
    | Err e => r = -1 /\
               w' = after w ev e (data_file w) [Sys WRITE fd [] (Err e)]
    end.
Proof.
  unfold write. intros H. call_inv H. destruct (answer ev); call_done H.
Qed.

Lemma read_done fd off count w r buf w' :
  read fd off count w = Done (r, buf) w' ->
  exists ev, hd_error (oracle w) = Some ev /\
    match answer ev with
    | Ok n =>
        buf = firstn (Nat.min (Nat.max n 1) count) (skipn off (contents w)) /\
        r = Z.of_nat (length buf) /\
        w' = after w ev (errno w) (data_file w)
                   [Sys READ fd buf (Ok (length buf))]
    | Err e => buf = [] /\ r = -1 /\
               w' = after w ev e (data_file w) [Sys READ fd [] (Err e)]
    end.
Proof.
  unfold read. intros H. call_inv H. destruct (answer ev); call_done H.
Qed.

Lemma send_done fd buf w r w' :
  send fd buf w = Done r w' ->
  exists ev, hd_error (oracle w) = Some ev /\
    match answer ev with
    | Ok n =>
        r = Z.of_nat (length (firstn n buf)) /\
        w' = after w ev (errno w) (data_file w)
                   [Sys SEND fd (firstn n buf) (Ok (length (firstn n buf)))]
    | Err e => r = -1 /\
               w' = after w ev e (data_file w) [Sys SEND fd [] (Err e)]
    end.
Proof.
  unfold send. intros H. call_inv H. destruct (answer ev); call_done H.
Qed.

Lemma recv_done fd w r buf w' :
  recv fd w = Done (r, buf) w' ->
  exists ev, hd_error (oracle w) = Some ev /\
    match answer ev with
    | Ok n =>
        buf = firstn (Nat.min n BUF_SIZE) (payload ev) /\
        r = Z.of_nat (length buf) /\
        w' = after w ev (errno w) (data_file w)
                   [Sys RECV fd buf (Ok (length buf))]
    | Err e => buf = [] /\ r = -1 /\
               w' = after w ev e (data_file w) [Sys RECV fd [] (Err e)]
    end.
Proof.
  unfold recv. intros H. call_inv H. destruct (answer ev); call_done H.
Qed.

Lemma realloc_done c size w r w' :
  realloc c size w = Done r w' ->
  exists ev, hd_error (oracle w) = Some ev /\
    w' = after w ev (errno w) (data_file w)
               [Sys c (Z.of_nat size) [] (answer ev)] /\
    r = match answer ev with Ok _ => true | Err _ => false end.
Proof.
  unfold realloc. intros H. call_inv H. destruct (answer ev); call_done H.
Qed.

Lemma remove_done w r w' :
  remove w = Done r w' ->
  exists ev, hd_error (oracle w) = Some ev /\
    match answer ev, data_file w with
    | Ok _, Some _ =>
        r = 0 /\ w' = after w ev (errno w) None [Sys REMOVE 0 [] (Ok 0)]
    | Ok _, None =>
        r = -1 /\
        w' = after w ev ENOENT None [Sys REMOVE 0 [] (Err ENOENT)]
    | Err e, _ =>
        r = -1 /\ w' = after w ev e (data_file w) [Sys REMOVE 0 [] (Err e)]
    end.
Proof.
  unfold remove. intros H. call_inv H.
  destruct (answer ev); [destruct (data_file w) eqn:Hf|]; call_done H.
Qed.

Lemma record_done e w u w' :
  record e w = Done u w' ->
  w' = World (exit_requested w) (errno w) (data_file w) (trace w ++ [e]) (oracle w).
Proof. unfold record. intros H. inversion H. reflexivity. Qed.
(** ** Soundness of the building blocks *)

Lemma sound_with_done P {A} (m : M A) w a w' :
  sound_with P m -> m w = Done a w' ->
  extends w w' /\ forallb P (new_trace w w') = true.
Proof. intros Hs H. specialize (Hs w). rewrite H in Hs. exact Hs. Qed.

Lemma sound_done {A} (m : M A) w a w' :
  sound m -> m w = Done a w' -> extends w w'.
Proof. intros Hs H. apply (sound_with_done _ m w a w' Hs H). Qed.

Lemma sound_weaken (P Q : entry -> bool) {A} (m : M A) :
  (forall e, P e = true -> Q e = true) -> sound_with P m -> sound_with Q m.
Proof.
  intros HPQ Hm w. specialize (Hm w). destruct (m w); auto.
  destruct Hm as [He Hf]. split; [exact He|].
  rewrite forallb_forall in *. auto.
Qed.

Lemma sound_any P {A} (m : M A) : sound_with P m -> sound m.
Proof. apply sound_weaken. reflexivity. Qed.

Lemma sound_silent P {A} (m : M A) :
  (forall w, match m w with
             | Done _ w' => extends w w' /\ new_trace w w' = []
             | Blocked => True
             | OutOfFuel => False
             end) ->
  sound_with P m.
Proof.
  intros H w. specialize (H w). destruct (m w); auto.
  destruct H as [He Hn]. rewrite Hn. auto.
Qed.

Lemma sound_ret P {A} (a : A) : sound_with P (ret a).
Proof.
  apply sound_silent. intros w.
  apply (extends_new w w [] []); auto using app_nil_r.
Qed.

Lemma sound_bind P {A B} (m : M A) (f : A -> M B) :
  sound_with P m -> (forall a, sound_with P (f a)) -> sound_with P (bind m f).
Proof.
  intros Hm Hf w. unfold bind. specialize (Hm w).
  destruct (m w) as [a w1| |]; try exact Hm.
  specialize (Hf a w1). destruct (f a w1) as [b w2| |]; try exact Hf.
  destruct Hm as [E1 F1], Hf as [E2 F2].
  split; [eapply extends_trans; eassumption|].
  rewrite (new_trace_trans w w1 w2 E1 E2), forallb_app, F1, F2. reflexivity.
Qed.

Lemma sound_get_exit_requested P : sound_with P get_exit_requested.
Proof.
  apply sound_silent. intros w.
  apply (extends_new w w [] []); auto using app_nil_r.
Qed.

Lemma sound_get_errno P : sound_with P get_errno.
Proof.
  apply sound_silent. intros w.
  apply (extends_new w w [] []); auto using app_nil_r.
Qed.

Lemma sound_get_file P : sound_with P get_file.
Proof.
  apply sound_silent. intros w.
  apply (extends_new w w [] []); auto using app_nil_r.
Qed.

Lemma sound_set_errno P e : sound_with P (set_errno e).
Proof.
  apply sound_silent. intros w.
  apply (extends_new _ _ [] []); simpl; auto using app_nil_r.
Qed.

Lemma sound_record (P : entry -> bool) e : P e = true -> sound_with P (record e).
Proof.
  intros HP w. simpl.
  destruct (extends_new w
              (World (exit_requested w) (errno w) (data_file w)
                     (trace w ++ [e]) (oracle w)) [] [e]) as (E & N);
    try (intros; reflexivity).
  split; [exact E|]. rewrite N. simpl. rewrite HP. reflexivity.
Qed.

Lemma next_event_done w ev w' :
  next_event w = Done ev w' ->
  exists rest,
    oracle w = ev :: rest /\
    w' = World (latch (signals ev) (exit_requested w)) (errno w) (data_file w)
               (trace w) rest.
Proof.
  unfold next_event. destruct (oracle w) as [|ev' rest] eqn:Ho; [discriminate|].
  rewrite deliver_eq. simpl. intros H. inversion H. subst. eauto.
Qed.

Lemma sound_next_event P : sound_with P next_event.
Proof.
  apply sound_silent. intros w.
  destruct (next_event w) as [ev w'| |] eqn:H; [| exact I |].
  - apply next_event_done in H as (rest & Ho & ->).
    apply (extends_new _ _ [ev] []); simpl.
    + exact Ho.
    + symmetry. apply app_nil_r.
    + rewrite app_nil_r. reflexivity.
    + reflexivity.
  - unfold next_event in H. destruct (oracle w); discriminate.
Qed.

Lemma strict_next_event : strict next_event.
Proof.
  intros w ev w' H. apply next_event_done in H as (rest & Ho & ->).
  rewrite Ho. simpl. lia.
Qed.

Lemma strict_bind {A B} (m : M A) (f : A -> M B) :
  strict m -> (forall a, sound (f a)) -> strict (bind m f).
Proof.
  intros Hm Hf w b w2 H. apply bind_done in H as (a & w1 & H1 & H2).
  apply Hm in H1. apply (sound_done _ _ _ _ (Hf a)) in H2.
  apply extends_oracle_le in H2. lia.
Qed.

Lemma consuming_strict {S R} (m : M (ctl S R)) : strict m -> consuming m.
Proof. intros H w s' w' E. exact (H w _ w' E). Qed.

Lemma consuming_break {S R} (r : R) : consuming (ret (Break r) : M (ctl S R)).
Proof. intros w s' w' E. discriminate. Qed.

Lemma consuming_bind {A S R} (m : M A) (f : A -> M (ctl S R)) :
  sound m -> (forall a, consuming (f a)) -> consuming (bind m f).
Proof.
  intros Hm Hf w s' w2 H. apply bind_done in H as (a & w1 & H1 & H2).
  apply (sound_done _ _ _ _ Hm) in H1. apply extends_oracle_le in H1.
  apply Hf in H2. lia.
Qed.

Lemma sound_loop P {S R} (body : S -> M (ctl S R)) :
  (forall s, sound_with P (body s)) -> (forall s, consuming (body s)) ->
  forall fuel s w,
    (length (oracle w) < fuel)%nat ->
    match loop fuel body s w with
    | Done _ w' => extends w w' /\ forallb P (new_trace w w') = true
    | Blocked => True
    | OutOfFuel => False
    end.
Proof.
  intros Hs Hc. induction fuel as [|fuel IH]; intros s w Hlt; [lia|].
  simpl. unfold bind. pose proof (Hs s w) as Hb.
  destruct (body s w) as [[s'|r] w1| |] eqn:E; try exact Hb.
  pose proof (Hc s w s' w1 E) as Hlen.
  specialize (IH s' w1 ltac:(lia)).
  destruct (loop fuel body s' w1) as [r w2| |]; try exact IH.
  destruct Hb as [E1 F1], IH as [E2 F2].
  split; [eapply extends_trans; eassumption|].
  rewrite (new_trace_trans w w1 w2 E1 E2), forallb_app, F1, F2. reflexivity.
Qed.

Lemma sound_while P {S R} (body : S -> M (ctl S R)) s :
  (forall s, sound_with P (body s)) -> (forall s, consuming (body s)) ->
  sound_with P (while body s).
Proof. intros Hs Hc w. unfold while. apply sound_loop; auto. Qed.

(** The library calls: each adds entries of its own kind only. *)

Lemma sound_failed (P : entry -> bool) c arg e :
  P (Sys c arg [] (Err e)) = true -> sound_with P (failed c arg e).
Proof.
  intros HP. unfold failed.
  repeat (apply sound_bind; [|intro]);
    auto using sound_record, sound_set_errno, sound_ret.
Qed.

Ltac call_sound HP :=
  repeat first
    [ apply sound_bind; [|intro]
    | apply sound_next_event | apply sound_get_file
    | apply sound_ret
    | apply sound_record; apply HP
    | apply sound_failed; apply HP
    | match goal with
      | |- sound_with _ (match ?x with _ => _ end) => destruct x
      end ].

Section Calls.
Variable P : entry -> bool.

Lemma sound_sys c arg :
  (forall r, P (Sys c arg [] r) = true) -> sound_with P (sys c arg).
Proof. intros HP. unfold sys. call_sound HP. Qed.

Lemma sound_open_append :
  (forall r, P (Sys OPEN_APPEND 0 [] r) = true) -> sound_with P open_append.
Proof.
  intros HP w. destruct (open_append w) as [r w'| |] eqn:H; [| exact I |].
  - apply open_append_done in H as (ev & Hhd & H).
    destruct (answer ev); destruct H as [-> ->];
      (edestruct after_extends as (E & N & _);
       [exact Hhd | | split; [exact E | rewrite N; simpl; rewrite HP; reflexivity]]);
      simpl; intros; try discriminate; reflexivity.
  - unfold open_append, bind, next_event in H.
    destruct (oracle w); [discriminate|].
    rewrite deliver_eq in H. simpl in H.
    repeat match type of H with
           | context [match ?x with _ => _ end] => destruct x
           end; discriminate.
Qed.

Lemma sound_open_rdonly :
  (forall r, P (Sys OPEN_RDONLY 0 [] r) = true) -> sound_with P open_rdonly.
Proof. intros HP. unfold open_rdonly. call_sound HP. Qed.

Lemma sound_write fd buf :
  (forall d r, P (Sys WRITE fd d r) = true) -> sound_with P (write fd buf).
Proof.
  intros HP w. destruct (write fd buf w) as [r w'| |] eqn:H; [| exact I |].
  - apply write_done in H as (ev & Hhd & H).
    destruct (answer ev); destruct H as [-> ->];
      (edestruct after_extends as (E & N & _);
       [exact Hhd | | split; [exact E | rewrite N; simpl; rewrite HP; reflexivity]]);
      simpl; intros; try discriminate; reflexivity.
  - unfold write, bind, next_event in H.
    destruct (oracle w); [discriminate|].
    rewrite deliver_eq in H. simpl in H.
    repeat match type of H with
           | context [match ?x with _ => _ end] => destruct x
           end; discriminate.
Qed.

Lemma sound_read fd off count :
  (forall d r, P (Sys READ fd d r) = true) -> sound_with P (read fd off count).
Proof. intros HP. unfold read. call_sound HP. Qed.

Lemma sound_send fd buf :
  (forall d r, P (Sys SEND fd d r) = true) -> sound_with P (send fd buf).
Proof. intros HP. unfold send. call_sound HP. Qed.

Lemma sound_recv fd :
  (forall d r, P (Sys RECV fd d r) = true) -> sound_with P (recv fd).
Proof. intros HP. unfold recv. call_sound HP. Qed.

Lemma sound_realloc c size :
  (forall r, P (Sys c (Z.of_nat size) [] r) = true) ->
  sound_with P (realloc c size).
Proof. intros HP. unfold realloc. call_sound HP. Qed.

Lemma sound_remove :
  (forall r, P (Sys REMOVE 0 [] r) = true) -> sound_with P remove.
Proof.
  intros HP w. destruct (remove w) as [r w'| |] eqn:H; [| exact I |].
  - apply remove_done in H as (ev & Hhd & H).
    destruct (answer ev); [destruct (data_file w) eqn:Hfile|];
      destruct H as [-> ->];
      (edestruct after_extends as (E & N & _);
       [exact Hhd | | split; [exact E | rewrite N; simpl; rewrite HP; reflexivity]]);
      simpl; intros; try discriminate; reflexivity.
  - unfold remove, bind, next_event in H.
    destruct (oracle w); [discriminate|].
    rewrite deliver_eq in H. simpl in H.
    repeat match type of H with
           | context [match ?x with _ => _ end] => destruct x
           end; discriminate.
Qed.
End Calls.

Ltac entry_tac :=
  let e := fresh "e" in
  intros e; destruct e as [[] ? ? ?| | | |]; simpl; intros; auto; discriminate.

Ltac weaken_from L := eapply sound_weaken; [|apply L]; entry_tac.

Ltac sound_step :=
  match goal with
  | |- sound_with _ (bind _ _) => apply sound_bind
  | |- sound_with _ (ret _) => apply sound_ret
  | |- sound_with _ next_event => apply sound_next_event
  | |- sound_with _ get_exit_requested => apply sound_get_exit_requested
  | |- sound_with _ get_errno => apply sound_get_errno
  | |- sound_with _ get_file => apply sound_get_file
  | |- sound_with _ (set_errno _) => apply sound_set_errno
  | |- sound_with _ (record _) => apply sound_record; reflexivity
  | |- sound_with _ (failed _ _ _) => apply sound_failed; reflexivity
  | |- sound_with _ (syslog _ _) => apply sound_record; reflexivity
  | |- sound_with _ (free _) => apply sound_record; reflexivity
  | |- sound_with _ openlog => apply sound_record; reflexivity
  | |- sound_with _ closelog => apply sound_record; reflexivity
  | |- sound_with _ (sys _ _) => apply sound_sys; intros; reflexivity
  | |- sound_with _ (close _) => apply sound_sys; intros; reflexivity
  | |- sound_with _ open_append => apply sound_open_append; intros; reflexivity
  | |- sound_with _ open_rdonly => apply sound_open_rdonly; intros; reflexivity
  | |- sound_with _ (write _ _) => apply sound_write; intros; reflexivity
  | |- sound_with _ (read _ _ _) => apply sound_read; intros; reflexivity
  | |- sound_with _ (send _ _) => apply sound_send; intros; reflexivity
  | |- sound_with _ (recv _) => apply sound_recv; intros; reflexivity
  | |- sound_with _ (realloc _ _) => apply sound_realloc; intros; reflexivity
  | |- sound_with _ remove => apply sound_remove; intros; reflexivity
  | |- sound_with _ (if ?b then _ else _) => destruct b
  | |- sound_with _ (match ?x with _ => _ end) => destruct x
  | |- forall _, _ => intro
  end.

Ltac sound_tac := unfold sound; repeat sound_step.

Ltac strict_tac := apply strict_bind; [apply strict_next_event | sound_tac].

Lemma strict_sys c arg : strict (sys c arg).
Proof. unfold sys. strict_tac. Qed.

Lemma strict_write fd buf : strict (write fd buf).
Proof.
  intros w a w' H. apply write_done in H as (ev & Hhd & H).
  destruct (answer ev); destruct H as [_ ->]; unfold after; simpl;
    destruct (oracle w); simpl in *; try discriminate; lia.
Qed.

Lemma strict_read fd off count : strict (read fd off count).
Proof. unfold read. strict_tac. Qed.

Lemma strict_send fd buf : strict (send fd buf).
Proof. unfold send. strict_tac. Qed.

Lemma strict_recv fd : strict (recv fd).
Proof. unfold recv. strict_tac. Qed.

(** ** Soundness of the program: no loop of the model runs out of fuel *)

Lemma sound_write_body fd data written :
  sound_with append_call (write_body fd data written).
Proof. unfold write_body. sound_tac. Qed.

Lemma consuming_write_body fd data written :
  consuming (write_body fd data written).
Proof.
  unfold write_body. destruct (written <? length data)%nat.
  - apply consuming_strict, strict_bind; [apply strict_write | sound_tac].
  - apply consuming_break.
Qed.

Lemma sound_append_to_file data : sound_with append_call (append_to_file data).
Proof.
  unfold append_to_file. sound_tac.
  apply sound_while; [apply sound_write_body | apply consuming_write_body].
Qed.

Lemma sound_send_body client_fd fd buf sent_total :
  sound_with echo_call (send_body client_fd fd buf sent_total).
Proof. unfold send_body. sound_tac. Qed.

Lemma consuming_send_body client_fd fd buf sent_total :
  consuming (send_body client_fd fd buf sent_total).
Proof.
  unfold send_body. destruct (sent_total <? length buf)%nat.
  - apply consuming_strict, strict_bind; [apply strict_send | sound_tac].
  - apply consuming_break.
Qed.

Lemma sound_send_loop client_fd fd buf s :
  sound_with echo_call (while (send_body client_fd fd buf) s).
Proof.
  apply sound_while; [apply sound_send_body | apply consuming_send_body].
Qed.

Lemma sound_read_body client_fd fd off :
  sound_with echo_call (read_body client_fd fd off).
Proof. unfold read_body. sound_tac; apply sound_send_loop. Qed.

Lemma consuming_read_body client_fd fd off :
  consuming (read_body client_fd fd off).
Proof.
  unfold read_body.
  apply consuming_strict, strict_bind; [apply strict_read | sound_tac].
  weaken_from sound_send_loop.
Qed.

Lemma sound_send_file_contents client_fd :
  sound_with echo_call (send_file_contents client_fd).
Proof.
  unfold send_file_contents. sound_tac.
  apply sound_while; [apply sound_read_body | apply consuming_read_body].
Qed.

Lemma sound_scan client_fd packet_buf n :
  forall i start, sound_with client_call (scan client_fd packet_buf n i start).
Proof.
  induction n as [|n IH]; intros i start; simpl; sound_tac; try apply IH.
  - weaken_from sound_append_to_file.
  - weaken_from sound_send_file_contents.
Qed.

Lemma sound_handle_body client_fd packet_buf :
  sound_with client_call (handle_body client_fd packet_buf).
Proof. unfold handle_body. sound_tac. apply sound_scan. Qed.

Lemma consuming_handle_body client_fd packet_buf :
  consuming (handle_body client_fd packet_buf).
Proof.
  unfold handle_body. apply consuming_bind; [sound_tac|]. intros x.
  destruct (x =? 0).
  - apply consuming_strict, strict_bind; [apply strict_recv | sound_tac].
    weaken_from sound_scan.
  - apply consuming_break.
Qed.

Lemma sound_handle_loop client_fd packet_buf :
  sound_with client_call (while (handle_body client_fd) packet_buf).
Proof.
  apply sound_while; [apply sound_handle_body | apply consuming_handle_body].
Qed.

Lemma sound_handle_client client_fd :
  sound_with client_call (handle_client client_fd).
Proof. unfold handle_client. sound_tac. apply sound_handle_loop. Qed.

Lemma sound_accept_body server_fd u : sound (accept_body server_fd u).
Proof. unfold accept_body. sound_tac. weaken_from sound_handle_client. Qed.

Lemma consuming_accept_body server_fd u : consuming (accept_body server_fd u).
Proof.
  unfold accept_body. apply consuming_bind; [sound_tac|]. intros x.
  destruct (x =? 0).
  - apply consuming_strict, strict_bind; [apply strict_sys | sound_tac].
    weaken_from sound_handle_client.
  - apply consuming_break.
Qed.

Lemma sound_accept_loop server_fd :
  sound (while (accept_body server_fd) tt).
Proof.
  apply sound_while; [apply sound_accept_body | apply consuming_accept_body].
Qed.

Lemma sound_serve : sound serve.
Proof. unfold serve. sound_tac. apply sound_accept_loop. Qed.

Lemma sound_cleanup ret_code server_fd : sound (cleanup ret_code server_fd).
Proof. unfold cleanup. sound_tac. Qed.

Lemma sound_main : sound main.
Proof. unfold main. sound_tac; [apply sound_serve | apply sound_cleanup]. Qed.

(** The loop bound of the model is never what stops the program: a run ends
    with a result, or waits for an answer that the oracle does not hold. *)
Lemma never_out_of_fuel {A} (m : M A) w : sound m -> m w <> OutOfFuel.
Proof. intros Hs H. specialize (Hs w). rewrite H in Hs. exact Hs. Qed.

Lemma main_never_out_of_fuel w : main w <> OutOfFuel.
Proof. apply never_out_of_fuel, sound_main. Qed.

Lemma handle_client_never_out_of_fuel client_fd w :
  handle_client client_fd w <> OutOfFuel.
Proof.
  apply never_out_of_fuel, (sound_any client_call), sound_handle_client.
Qed.

Lemma append_to_file_never_out_of_fuel data w :
  append_to_file data w <> OutOfFuel.
Proof.
  apply never_out_of_fuel, (sound_any append_call), sound_append_to_file.
Qed.

Lemma send_file_contents_never_out_of_fuel client_fd w :
  send_file_contents client_fd w <> OutOfFuel.
Proof.
  apply never_out_of_fuel, (sound_any echo_call), sound_send_file_contents.
Qed.


(** ** Lists of bytes and packets *)

Lemma skipn_firstn_length {A} n (l : list A) :
  skipn (length (firstn n l)) l = skipn n l.
Proof.
  revert l. induction n as [|n IH]; intros [|a l]; simpl; auto.
Qed.

Lemma split_app cur a b :
  split cur (a ++ b) =
  (fst (split cur a) ++ fst (split (snd (split cur a)) b),
   snd (split (snd (split cur a)) b)).
Proof.
  revert cur. induction a as [|x a IH]; intros cur; simpl.
  - destruct (split cur b); reflexivity.
  - destruct (Byte.eqb x NL).
    + rewrite (IH []). destruct (split [] a) as [rs rest]. reflexivity.
    + apply IH.
Qed.

Lemma split_no_delimiter cur t b :
  no_delimiter t -> split cur (t ++ b) = split (cur ++ t) b.
Proof.
  unfold no_delimiter. revert cur.
  induction t as [|x t IH]; intros cur H; simpl in *.
  - rewrite app_nil_r. reflexivity.
  - apply andb_prop in H as [Hx Ht]. apply negb_true_iff in Hx. rewrite Hx.
    rewrite (IH _ Ht), <- app_assoc. reflexivity.
Qed.

Lemma split_trailing_no_delimiter cur bs :
  no_delimiter cur -> no_delimiter (snd (split cur bs)).
Proof.
  unfold no_delimiter. revert cur.
  induction bs as [|x bs IH]; intros cur H; simpl.
  - exact H.
  - destruct (Byte.eqb x NL) eqn:Hx.
    + specialize (IH [] eq_refl). destruct (split [] bs). exact IH.
    + apply IH. rewrite forallb_app, H. simpl. rewrite Hx. reflexivity.
Qed.

Lemma split_concat cur bs :
  concat (fst (split cur bs)) ++ snd (split cur bs) = cur ++ bs.
Proof.
  revert cur. induction bs as [|x bs IH]; intros cur; simpl.
  - rewrite app_nil_r. reflexivity.
  - destruct (Byte.eqb x NL) eqn:Hx.
    + apply Byte.byte_dec_bl in Hx. subst x.
      specialize (IH []). destruct (split [] bs) as [rs rest]. simpl in *.
      rewrite <- !app_assoc, IH. reflexivity.
    + rewrite IH, <- app_assoc. reflexivity.
Qed.

Lemma trailing_no_delimiter bs : no_delimiter (trailing bs).
Proof. apply split_trailing_no_delimiter. reflexivity. Qed.

Lemma records_trailing bs : concat (records bs) ++ trailing bs = bs.
Proof. apply (split_concat [] bs). Qed.

Lemma records_app a b :
  records (a ++ b) = records a ++ records (trailing a ++ b).
Proof.
  unfold records. rewrite split_app. simpl. fold (trailing a).
  rewrite (split_no_delimiter [] _ b (trailing_no_delimiter a)). reflexivity.
Qed.

Lemma trailing_app a b : trailing (a ++ b) = trailing (trailing a ++ b).
Proof.
  unfold trailing. rewrite split_app. simpl.
  rewrite (split_no_delimiter [] (snd (split [] a)) b (trailing_no_delimiter a)).
  reflexivity.
Qed.

Lemma records_no_delimiter bs : no_delimiter bs -> records bs = [].
Proof.
  intros H. unfold records.
  rewrite <- (app_nil_r bs), (split_no_delimiter [] bs [] H). reflexivity.
Qed.

Lemma trailing_no_delimiter_id bs : no_delimiter bs -> trailing bs = bs.
Proof.
  intros H. unfold trailing.
  rewrite <- (app_nil_r bs) at 1. rewrite (split_no_delimiter [] bs [] H).
  reflexivity.
Qed.

Lemma split_records_length cur bs :
  length (fst (split cur bs)) = delimiters bs.
Proof.
  unfold delimiters. revert cur. induction bs as [|x bs IH]; intros cur; simpl.
  - reflexivity.
  - destruct (Byte.eqb x NL).
    + specialize (IH []). destruct (split [] bs). simpl in *. rewrite IH.
      reflexivity.
    + apply IH.
Qed.

Lemma records_length bs : length (records bs) = delimiters bs.
Proof. apply split_records_length. Qed.

Lemma responses_app store r1 r2 :
  responses store (r1 ++ r2) =
  responses store r1 ++ responses (store ++ concat r1) r2.
Proof.
  revert store. induction r1 as [|r r1 IH]; intros store; simpl.
  - rewrite app_nil_r. reflexivity.
  - rewrite IH, <- app_assoc. reflexivity.
Qed.

Lemma responses_map store recs :
  responses store recs =
  map (fun i => store ++ concat (firstn i recs)) (seq 1 (length recs)).
Proof.
  revert store. induction recs as [|r rs IH]; intros store; simpl.
  - reflexivity.
  - rewrite app_nil_r. f_equal. rewrite IH, <- (seq_shift (length rs) 1), map_map.
    apply map_ext. intros i. simpl. rewrite <- app_assoc. reflexivity.
Qed.

(** ** Observations on histories *)

Lemma received_app a b : received (a ++ b) = received a ++ received b.
Proof. apply flat_map_app. Qed.

Lemma sent_app a b : sent (a ++ b) = sent a ++ sent b.
Proof. apply flat_map_app. Qed.

Lemma written_bytes_app a b :
  written_bytes (a ++ b) = written_bytes a ++ written_bytes b.
Proof. apply flat_map_app. Qed.

Lemma append_call_quiet t :
  forallb append_call t = true ->
  received t = [] /\ sent t = [] /\ existsb alloc_error t = false.
Proof.
  induction t as [|e t IH]; simpl; [auto|].
  intros H. apply andb_prop in H as [He Ht].
  destruct (IH Ht) as (R & S & A).
  unfold received, sent in *. simpl. rewrite R, S, A.
  destruct e as [[] ? ? []| | | |]; simpl in *; auto; discriminate.
Qed.

Lemma echo_call_quiet t :
  forallb echo_call t = true ->
  received t = [] /\ written_bytes t = [] /\ existsb alloc_error t = false.
Proof.
  induction t as [|e t IH]; simpl; [auto|].
  intros H. apply andb_prop in H as [He Ht].
  destruct (IH Ht) as (R & S & A).
  unfold received, written_bytes in *. simpl. rewrite R, S, A.
  destruct e as [[] ? ? []| | | |]; simpl in *; auto; discriminate.
Qed.

Lemma new_trace_refl w : new_trace w w = [].
Proof.
  unfold new_trace. rewrite <- (app_nil_r (trace w)) at 2.
  apply skipn_length_app.
Qed.

(** ** append_to_file *)

Ltac bind_inv H :=
  let a := fresh "a" in
  let w := fresh "w" in
  let H1 := fresh "Hc" in
  apply bind_done in H as (a & w & H1 & H).

Ltac ret_inv H :=
  let E := fresh "E" in
  apply ret_done in H as [E ->]; try discriminate E;
  try (injection E as E); subst.

Lemma of_nat_ltb_0 n : (Z.of_nat n <? 0) = false.
Proof. apply Z.ltb_ge. lia. Qed.

Lemma of_nat_eqb_m1 n : (Z.of_nat n =? -1) = false.
Proof. apply Z.eqb_neq. lia. Qed.

Lemma contents_some w c : data_file w = Some c -> contents w = c.
Proof. unfold contents. intros ->. reflexivity. Qed.

(** One round of the write loop: it either leaves having written nothing
    more, or fails, or goes on having appended the next piece of the data. *)
Lemma write_body_spec fd data written w c k w1 :
  write_body fd data written w = Done k w1 ->
  data_file w = Some c ->
  extends w w1 /\
  match k with
  | Continue s' =>
      exists put,
        skipn written data = put ++ skipn s' data /\
        data_file w1 = Some (c ++ put) /\
        existsb append_error (new_trace w w1) = false /\
        forallb is_write (new_trace w w1) = true /\
        written_bytes (new_trace w w1) = put
  | Break r =>
      (r = 0 /\ skipn written data = [] /\ w1 = w) \/
      (r = -1 /\ existsb append_error (new_trace w w1) = true)
  end.
Proof.
  intros H Hf.
  split; [apply (sound_with_done _ _ _ _ _ (sound_write_body _ _ _) H)|].
  unfold write_body in H.
  destruct (written <? length data)%nat eqn:Hlt.
  - bind_inv H. apply write_done in Hc as (ev & Hhd & Hw).
    destruct (answer ev) as [n|e]; destruct Hw as [-> ->].
    + rewrite of_nat_ltb_0 in H. ret_inv H.
      destruct (after_modified w ev (errno w)
                  (Some (contents w ++ firstn n (skipn written data)))
                  [Sys WRITE fd (firstn n (skipn written data))
                     (Ok (length (firstn n (skipn written data))))] Hhd eq_refl)
        as (_ & -> & _).
      exists (firstn n (skipn written data)).
      rewrite (contents_some w c Hf), Nat2Z.id.
      repeat split; simpl; rewrite ?app_nil_r; auto.
      rewrite Nat.add_comm, <- skipn_skipn, skipn_firstn_length, firstn_skipn.
      reflexivity.
    + change (-1 <? 0) with true in H. cbv iota in H.
      unfold bind at 1, get_errno in H. simpl in H.
      destruct (after_same w ev e [Sys WRITE fd [] (Err e)] Hhd)
        as (E1 & N1 & _).
      destruct (e =? EINTR) eqn:He.
      * ret_inv H. rewrite N1. exists []. simpl. rewrite He.
        rewrite app_nil_r. auto.
      * assert (S : sound (syslog LOG_ERR "write(%s) failed: %s" ;;
                           _ <- close fd ;; ret (Break (S:=nat) (-1))))
          by sound_tac.
        pose proof (sound_done _ _ _ _ S H) as E2.
        rewrite (new_trace_trans _ _ _ E1 E2), N1.
        bind_inv H. bind_inv H. ret_inv H.
        right. split; [reflexivity|]. simpl. rewrite He. reflexivity.
  - ret_inv H. left. repeat split.
    apply skipn_all2. apply Nat.ltb_ge in Hlt. exact Hlt.
Qed.

Lemma write_loop_spec fd data fuel :
  forall written w c r w',
    loop fuel (write_body fd data) written w = Done r w' ->
    data_file w = Some c ->
    extends w w' /\
    ((r = 0 /\
      data_file w' = Some (c ++ skipn written data) /\
      existsb append_error (new_trace w w') = false /\
      forallb is_write (new_trace w w') = true /\
      written_bytes (new_trace w w') = skipn written data) \/
     (r = -1 /\ existsb append_error (new_trace w w') = true)).
Proof.
  induction fuel as [|fuel IH]; intros written w c r w' H Hf; [discriminate|].
  simpl in H. bind_inv H.
  destruct (write_body_spec _ _ _ _ _ _ _ Hc Hf) as [E1 Hk].
  destruct a as [s'|r0].
  - destruct Hk as (put & Hsk & Hf1 & He1 & Hw1 & Hb1).
    destruct (IH _ _ _ _ _ H Hf1) as [E2 Hr].
    split; [eapply extends_trans; eassumption|].
    rewrite (new_trace_trans _ _ _ E1 E2).
    rewrite existsb_app, forallb_app, written_bytes_app, He1, Hw1, Hb1, Hsk.
    destruct Hr as [(-> & Hf2 & He2 & Hw2 & Hb2)|(-> & He2)].
    + left. rewrite Hf2, He2, Hw2, Hb2, app_assoc. auto.
    + right. rewrite He2. auto.
  - ret_inv H. split; [exact E1|].
    destruct Hk as [(-> & Hsk & ->)|(-> & He)].
    + left. rewrite new_trace_refl, Hsk, app_nil_r. auto.
    + right. auto.
Qed.

(** [append_to_file] returns 0 having appended all of [data] between an open
    and a close that succeeded, or -1 after a failure. *)
Lemma append_to_file_spec data w r w' :
  append_to_file data w = Done r w' ->
  (r = 0 /\
   data_file w' = Some (contents w ++ data) /\
   existsb append_error (new_trace w w') = false /\
   exists n m ws,
     new_trace w w' =
       Sys OPEN_APPEND 0 [] (Ok n) :: ws ++ [Sys CLOSE (Z.of_nat n) [] (Ok m)] /\
     forallb is_write ws = true /\
     written_bytes ws = data) \/
  (r = -1 /\ existsb append_error (new_trace w w') = true).
Proof.
  intros H. unfold append_to_file in H. bind_inv H.
  apply open_append_done in Hc as (ev & Hhd & Ho).
  destruct (answer ev) as [n|e]; destruct Ho as [-> ->].
  - replace (Z.of_nat n =? -1) with false in H by (symmetry; apply Z.eqb_neq; lia).
    destruct (after_modified w ev (errno w) (Some (contents w))
                [Sys OPEN_APPEND 0 [] (Ok n)] Hhd eq_refl) as (E1 & N1 & _).
    bind_inv H. unfold while in Hc.
    destruct (write_loop_spec _ _ _ _ _ (contents w) _ _ Hc eq_refl) as [E2 Hr].
    pose proof (extends_trans _ _ _ E1 E2) as E12.
    destruct Hr as [(-> & Hf2 & He2 & Hw2 & Hb2)|(-> & He2)].
    + change (0 =? -1) with false in H. cbv iota in H.
      bind_inv H. apply sys_done in Hc0 as (ev2 & Hhd2 & Hcl).
      destruct (answer ev2) as [m|e2]; destruct Hcl as [-> ->].
      * replace (Z.of_nat m =? -1) with false in H
          by (symmetry; apply Z.eqb_neq; lia).
        ret_inv H.
        destruct (after_same w0 ev2 (errno w0)
                    [Sys CLOSE (Z.of_nat n) [] (Ok m)] Hhd2) as (E3 & N3 & _).
        rewrite (new_trace_trans _ _ _ E12 E3), (new_trace_trans _ _ _ E1 E2).
        rewrite N1, N3. left. split; [reflexivity|]. split; [exact Hf2|].
        split.
        -- simpl. rewrite existsb_app, He2. reflexivity.
        -- exists n, m, (new_trace
                           (after w ev (errno w) (Some (contents w))
                              [Sys OPEN_APPEND 0 [] (Ok n)]) w0).
           auto.
      * change (-1 =? -1) with true in H. cbv iota in H.
        destruct (after_same w0 ev2 e2
                    [Sys CLOSE (Z.of_nat n) [] (Err e2)] Hhd2) as (E3 & N3 & _).
        pose proof (extends_trans _ _ _ E12 E3) as E13.
        assert (S : sound (syslog LOG_ERR "close data file failed: %s" ;;
                           ret (-1))) by sound_tac.
        pose proof (sound_done _ _ _ _ S H) as E4.
        bind_inv H. ret_inv H. right. split; [reflexivity|].
        rewrite (new_trace_trans _ _ _ E13 E4), (new_trace_trans _ _ _ E12 E3).
        rewrite N3, !existsb_app. simpl. rewrite !orb_true_r. reflexivity.
    + change (-1 =? -1) with true in H. cbv iota in H. ret_inv H.
      right. split; [reflexivity|].
      rewrite (new_trace_trans _ _ _ E1 E2), existsb_app, He2.
      apply orb_true_r.
  - change (-1 =? -1) with true in H. cbv iota in H.
    destruct (after_same w ev e
                [Sys OPEN_APPEND 0 [] (Err e)] Hhd) as (E1 & N1 & _).
    assert (S : sound (syslog LOG_ERR "open(%s) failed: %s" ;; ret (-1)))
      by sound_tac.
    pose proof (sound_done _ _ _ _ S H) as E2.
    bind_inv H. ret_inv H. right. split; [reflexivity|].
    rewrite (new_trace_trans _ _ _ E1 E2), N1. reflexivity.
Qed.

(** With enough answers that report progress the write loop comes to its
    end: it takes at most one answer for each byte still to be written. *)
Lemma write_loop_returns fd data :
  forall k written w fuel,
    (length data - written <= k)%nat ->
    (k <= length (oracle w))%nat ->
    (k < fuel)%nat ->
    Forall progress (oracle w) ->
    exists w' used,
      loop fuel (write_body fd data) written w = Done 0 w' /\
      oracle w = used ++ oracle w' /\ (length used <= k)%nat.
Proof.
  induction k as [|k IH]; intros written w fuel Hrem Hlen Hfuel Hgood.
  - destruct fuel as [|fuel]; [lia|]. exists w, []. simpl.
    unfold bind, write_body.
    replace (written <? length data)%nat with false
      by (symmetry; apply Nat.ltb_ge; lia).
    auto.
  - destruct fuel as [|fuel]; [lia|].
    destruct (written <? length data)%nat eqn:Hlt.
    2:{ exists w, []. simpl. unfold bind, write_body. rewrite Hlt.
        split; [reflexivity|]. split; [reflexivity|simpl; lia]. }
    apply Nat.ltb_lt in Hlt.
    destruct w as [x e f t o]. simpl in Hlen, Hgood.
    destruct o as [|ev rest]; [simpl in Hlen; lia|].
    pose proof (Forall_inv Hgood) as [n Hn].
    pose proof (Forall_inv_tail Hgood) as Hrest.
    destruct ev as [sigs ans pay]. simpl in Hn. subst ans.
    set (put := firstn (S n) (skipn written data)).
    assert (Hput : (1 <= length put)%nat).
    { unfold put. rewrite length_firstn, length_skipn. lia. }
    set (w1 := World (latch sigs x) e
                 (Some (match f with Some c => c | None => [] end ++ put))
                 (t ++ [Sys WRITE fd put (Ok (length put))]) rest).
    destruct (IH (written + length put)%nat w1 fuel) as (w' & used & Hl & Ho & Hu).
    + lia.
    + simpl in *. lia.
    + lia.
    + exact Hrest.
    + exists w', (Event sigs (Ok (S n)) pay :: used).
      split; [|split; [simpl in *; rewrite Ho; reflexivity|simpl; lia]].
      rewrite <- Hl. cbn [loop]. unfold bind at 1.
      replace (write_body fd data written
                 (World x e f t (Event sigs (Ok (S n)) pay :: rest)))
        with (Done (Continue (S:=nat) (R:=Z) (written + length put)%nat) w1).
      { reflexivity. }
      unfold write_body. apply Nat.ltb_lt in Hlt. rewrite Hlt.
      unfold write, next_event, get_file, set_file, record, ret, bind.
      cbn -[firstn skipn]. rewrite deliver_eq. cbn -[firstn skipn]. fold put.
      rewrite of_nat_ltb_0, Nat2Z.id. reflexivity.
Qed.

(** [append_to_file] returns 0 whenever the environment lets every call
    succeed with progress and has an answer for the open, one for each byte,
    and one for the close. *)
Lemma append_to_file_returns data w :
  Forall progress (oracle w) ->
  (length data + 2 <= length (oracle w))%nat ->
  exists w', append_to_file data w = Done 0 w'.
Proof.
  intros Hgood Hlen. destruct w as [x e f t o]. simpl in Hgood, Hlen.
  destruct o as [|ev rest]; [simpl in Hlen; lia|].
  pose proof (Forall_inv Hgood) as [n Hn].
  pose proof (Forall_inv_tail Hgood) as Hrest.
  destruct ev as [sigs ans pay]. simpl in Hn. subst ans. simpl in Hlen.
  set (w1 := World (latch sigs x) e
               (Some (match f with Some c => c | None => [] end))
               (t ++ [Sys OPEN_APPEND 0 [] (Ok (S n))]) rest).
  destruct (write_loop_returns (Z.of_nat (S n)) data (length data) 0 w1
              (S (length rest))) as (w2 & used & Hl & Ho & Hu);
    try (simpl; lia); try exact Hrest.
  assert (Hopen : open_append (World x e f t (Event sigs (Ok (S n)) pay :: rest))
                  = Done (Z.of_nat (S n)) w1).
  { unfold open_append, next_event, get_file, set_file, record, ret, bind.
    cbn. rewrite deliver_eq. reflexivity. }
  simpl in Ho.
  assert (Hrest2 : Forall progress (oracle w2)).
  { rewrite Ho in Hrest. apply Forall_app in Hrest. apply Hrest. }
  destruct (oracle w2) as [|ev2 rest2] eqn:Ho2.
  { exfalso. rewrite Ho, length_app in Hlen. simpl in Hlen. lia. }
  pose proof (Forall_inv Hrest2) as [m Hm].
  destruct w2 as [x2 e2 f2 t2 o2]. simpl in Ho2. subst o2.
  destruct ev2 as [sigs2 ans2 pay2]. simpl in Hm. subst ans2.
  eexists. unfold append_to_file. unfold bind at 1. rewrite Hopen.
  rewrite of_nat_eqb_m1. unfold bind at 1. unfold while.
  change (oracle w1) with rest. rewrite Hl.
  change (0 =? -1) with false. cbv iota.
  unfold close, sys, next_event, record, ret, bind.
  cbn. rewrite deliver_eq. cbn. reflexivity.
Qed.

(** ** send_file_contents *)

Lemma echo_call_keeps_file t :
  forallb echo_call t = true -> existsb modifies_file t = false.
Proof.
  induction t as [|e t IH]; simpl; [auto|].
  intros H. apply andb_prop in H as [He Ht]. rewrite (IH Ht).
  destruct e as [[] ? ? []| | | |]; simpl in *; auto; discriminate.
Qed.

Lemma echo_keeps_file w w' :
  extends w w' -> forallb echo_call (new_trace w w') = true ->
  data_file w' = data_file w.
Proof. intros E H. apply (extends_file w w' E), echo_call_keeps_file, H. Qed.

Lemma echo_keeps_contents w w' :
  extends w w' -> forallb echo_call (new_trace w w') = true ->
  contents w' = contents w.
Proof. intros E H. unfold contents. rewrite (echo_keeps_file w w' E H). reflexivity. Qed.

(** One round of the send loop. *)
Lemma send_body_spec client_fd fd buf sent_total w k w1 :
  send_body client_fd fd buf sent_total w = Done k w1 ->
  match k with
  | Continue s' =>
      exists put,
        skipn sent_total buf = put ++ skipn s' buf /\
        sent (new_trace w w1) = put /\
        existsb echo_error (new_trace w w1) = false
  | Break r =>
      (r = 0 /\ skipn sent_total buf = [] /\ w1 = w) \/
      (r = -1 /\ existsb echo_error (new_trace w w1) = true)
  end.
Proof.
  intros H. unfold send_body in H.
  destruct (sent_total <? length buf)%nat eqn:Hlt.
  - bind_inv H. apply send_done in Hc as (ev & Hhd & Hs).
    destruct (answer ev) as [n|e]; destruct Hs as [-> ->].
    + rewrite of_nat_ltb_0 in H. ret_inv H.
      destruct (after_same w ev (errno w)
                  [Sys SEND client_fd (firstn n (skipn sent_total buf))
                     (Ok (length (firstn n (skipn sent_total buf))))] Hhd)
        as (_ & -> & _).
      exists (firstn n (skipn sent_total buf)).
      rewrite Nat2Z.id. unfold sent. simpl. rewrite app_nil_r.
      repeat split.
      rewrite Nat.add_comm, <- skipn_skipn, skipn_firstn_length, firstn_skipn.
      reflexivity.
    + change (-1 <? 0) with true in H. cbv iota in H.
      unfold bind at 1, get_errno in H. simpl in H.
      destruct (after_same w ev e [Sys SEND client_fd [] (Err e)] Hhd)
        as (E1 & N1 & _).
      destruct (e =? EINTR) eqn:He.
      * ret_inv H. rewrite N1. exists []. simpl. rewrite He. auto.
      * assert (S : sound (syslog LOG_ERR "send() failed: %s" ;;
                           _ <- close fd ;; ret (Break (S:=nat) (-1))))
          by sound_tac.
        pose proof (sound_done _ _ _ _ S H) as E2.
        rewrite (new_trace_trans _ _ _ E1 E2), N1.
        bind_inv H. bind_inv H. ret_inv H.
        right. split; [reflexivity|]. simpl. rewrite He. reflexivity.
  - ret_inv H. left. repeat split.
    apply skipn_all2. apply Nat.ltb_ge in Hlt. exact Hlt.
Qed.

Lemma send_loop_spec client_fd fd buf fuel :
  forall sent_total w r w',
    loop fuel (send_body client_fd fd buf) sent_total w = Done r w' ->
    extends w w' /\
    forallb echo_call (new_trace w w') = true /\
    ((r = 0 /\
      sent (new_trace w w') = skipn sent_total buf /\
      existsb echo_error (new_trace w w') = false) \/
     (r = -1 /\ existsb echo_error (new_trace w w') = true)).
Proof.
  induction fuel as [|fuel IH]; intros sent_total w r w' H; [discriminate|].
  simpl in H. bind_inv H.
  destruct (sound_with_done _ _ _ _ _ (sound_send_body _ _ _ _) Hc) as [E1 F1].
  pose proof (send_body_spec _ _ _ _ _ _ _ Hc) as Hk.
  destruct a as [s'|r0].
  - destruct Hk as (put & Hsk & Hs1 & He1).
    destruct (IH _ _ _ _ H) as (E2 & F2 & Hr).
    split; [eapply extends_trans; eassumption|].
    rewrite (new_trace_trans _ _ _ E1 E2).
    rewrite existsb_app, forallb_app, sent_app, F1, F2, He1, Hs1, Hsk.
    split; [reflexivity|].
    destruct Hr as [(-> & Hs2 & He2)|(-> & He2)].
    + left. rewrite Hs2, He2. auto.
    + right. rewrite He2. auto.
  - ret_inv H. split; [exact E1|]. split; [exact F1|].
    destruct Hk as [(-> & Hsk & ->)|(-> & He)].
    + left. rewrite new_trace_refl, Hsk. auto.
    + right. auto.
Qed.

Lemma firstn_nil_inv {A} n (l : list A) :
  (1 <= n)%nat -> firstn n l = [] -> l = [].
Proof. destruct n; [lia|]. destruct l; [auto|discriminate]. Qed.

(** One round of the read loop. *)
Lemma read_body_spec client_fd fd off w k w1 :
  read_body client_fd fd off w = Done k w1 ->
  match k with
  | Continue off' =>
      exists put,
        skipn off (contents w) = put ++ skipn off' (contents w) /\
        sent (new_trace w w1) = put /\
        existsb echo_error (new_trace w w1) = false
  | Break (Return r) =>
      r = -1 /\ existsb echo_error (new_trace w w1) = true
  | Break (Exit bytes) =>
      (bytes = 0 /\ skipn off (contents w) = [] /\
       sent (new_trace w w1) = [] /\
       existsb echo_error (new_trace w w1) = false) \/
      (bytes < 0 /\ existsb echo_error (new_trace w w1) = true)
  end.
Proof.
  intros H. unfold read_body in H. bind_inv H. destruct a as [bytes buf].
  apply read_done in Hc as (ev & Hhd & Hr).
  destruct (answer ev) as [n|e].
  - destruct Hr as (Hbuf & -> & ->).
    destruct (after_same w ev (errno w)
                [Sys READ fd buf (Ok (length buf))] Hhd) as (E1 & N1 & _).
    destruct (0 <? Z.of_nat (length buf)) eqn:Hpos.
    + bind_inv H. unfold while in Hc.
      destruct (send_loop_spec _ _ _ _ _ _ _ _ Hc) as (E2 & F2 & Hs).
      destruct Hs as [(-> & Hs2 & He2)|(-> & He2)].
      * change (0 =? -1) with false in H. cbv iota in H.
        revert Hbuf. ret_inv H. intros Hbuf.
        exists buf. rewrite (new_trace_trans _ _ _ E1 E2), N1.
        rewrite sent_app, existsb_app, Hs2, He2. simpl.
        repeat split.
        rewrite Nat.add_comm, <- skipn_skipn.
        rewrite Hbuf at 2. rewrite skipn_firstn_length.
        rewrite Hbuf at 1. rewrite firstn_skipn. reflexivity.
      * change (-1 =? -1) with true in H. cbv iota in H. ret_inv H.
        rewrite (new_trace_trans _ _ _ E1 E2), N1.
        rewrite existsb_app, He2. split; [reflexivity|apply orb_true_r].
    + revert Hbuf. ret_inv H. intros Hbuf. left. rewrite N1.
      apply Z.ltb_ge in Hpos.
      assert (Hnil : buf = []) by (apply length_zero_iff_nil; lia).
      rewrite Hnil in *. repeat split. symmetry in Hbuf.
      apply firstn_nil_inv in Hbuf; [exact Hbuf|]. unfold BUF_SIZE. lia.
  - destruct Hr as (-> & -> & ->). simpl in H. ret_inv H.
    destruct (after_same w ev e [Sys READ fd [] (Err e)] Hhd) as (_ & -> & _).
    right. split; [lia|reflexivity].
Qed.

Lemma read_loop_spec client_fd fd fuel :
  forall off w l w',
    loop fuel (read_body client_fd fd) off w = Done l w' ->
    extends w w' /\
    forallb echo_call (new_trace w w') = true /\
    match l with
    | Return r => r = -1 /\ existsb echo_error (new_trace w w') = true
    | Exit bytes =>
        (bytes = 0 /\
         sent (new_trace w w') = skipn off (contents w) /\
         existsb echo_error (new_trace w w') = false) \/
        (bytes < 0 /\ existsb echo_error (new_trace w w') = true)
    end.
Proof.
  induction fuel as [|fuel IH]; intros off w l w' H; [discriminate|].
  simpl in H. bind_inv H.
  destruct (sound_with_done _ _ _ _ _ (sound_read_body _ _ _) Hc) as [E1 F1].
  pose proof (read_body_spec _ _ _ _ _ _ Hc) as Hk.
  destruct a as [off'|l0].
  - destruct Hk as (put & Hsk & Hs1 & He1).
    destruct (IH _ _ _ _ H) as (E2 & F2 & Hr).
    split; [eapply extends_trans; eassumption|].
    rewrite (new_trace_trans _ _ _ E1 E2).
    rewrite existsb_app, forallb_app, sent_app, F1, F2, He1, Hs1, Hsk.
    split; [reflexivity|].
    rewrite (echo_keeps_contents _ _ E1 F1) in Hr.
    destruct l as [r|bytes].
    + destruct Hr as [-> He2]. rewrite He2. auto.
    + destruct Hr as [(-> & Hs2 & He2)|(Hneg & He2)].
      * left. rewrite Hs2, He2. auto.
      * right. rewrite He2. auto.
  - ret_inv H. split; [exact E1|]. split; [exact F1|].
    destruct l0 as [r|bytes]; [exact Hk|].
    destruct Hk as [(-> & Hsk & Hs & He)|(Hneg & He)].
    + left. rewrite Hs, Hsk. auto.
    + right. auto.
Qed.

(** [send_file_contents] returns 0 having sent the whole file, or -1 after a
    failure; it leaves the file as it is. *)
Lemma send_file_contents_spec client_fd w r w' :
  send_file_contents client_fd w = Done r w' ->
  data_file w' = data_file w /\
  ((r = 0 /\
    sent (new_trace w w') = contents w /\
    existsb echo_error (new_trace w w') = false) \/
   (r = -1 /\ existsb echo_error (new_trace w w') = true)).
Proof.
  intros H.
  destruct (sound_with_done _ _ _ _ _ (sound_send_file_contents _) H) as [E F].
  split; [apply (echo_keeps_file _ _ E F)|].
  unfold send_file_contents in H. bind_inv H.
  apply open_rdonly_done in Hc as (ev & Hhd & Ho).
  assert (Hfail : forall e wx,
             wx = after w ev e (data_file w) [Sys OPEN_RDONLY 0 [] (Err e)] ->
             (syslog LOG_ERR "open(%s) for read failed: %s" ;; ret (-1)) wx
               = Done r w' ->
             r = -1 /\ existsb echo_error (new_trace w w') = true).
  { intros e wx -> H0.
    destruct (after_same w ev e [Sys OPEN_RDONLY 0 [] (Err e)] Hhd)
      as (E1 & N1 & _).
    assert (S : sound (syslog LOG_ERR "open(%s) for read failed: %s" ;;
                       ret (-1))) by sound_tac.
    pose proof (sound_done _ _ _ _ S H0) as E2.
    bind_inv H0. ret_inv H0. split; [reflexivity|].
    rewrite (new_trace_trans _ _ _ E1 E2), N1. reflexivity. }
  destruct (answer ev) as [n|e]; [destruct (data_file w) as [c|] eqn:Hf|];
    destruct Ho as [-> Hw0];
    [ | right; apply (Hfail ENOENT w0 Hw0 H) | right; apply (Hfail e w0 Hw0 H) ].
  subst w0.
  replace (Z.of_nat n =? -1) with false in H by (symmetry; apply Z.eqb_neq; lia).
  destruct (after_same w ev (errno w) [Sys OPEN_RDONLY 0 [] (Ok n)] Hhd)
    as (E1 & N1 & _).
  rewrite Hf in E1, N1.
  bind_inv H. unfold while in Hc.
  destruct (read_loop_spec _ _ _ _ _ _ _ Hc) as (E2 & F2 & Hl).
  change (contents (after w ev (errno w) (Some c) [Sys OPEN_RDONLY 0 [] (Ok n)]))
    with c in Hl.
  rewrite (contents_some w c Hf).
  pose proof (extends_trans _ _ _ E1 E2) as E12.
  assert (Hbad : existsb echo_error (new_trace w w0) = true ->
                 forall m : M Z, sound m -> m w0 = Done r w' ->
                 existsb echo_error (new_trace w w') = true).
  { intros Hb m Sm Hm. pose proof (sound_done _ _ _ _ Sm Hm) as E3.
    rewrite (new_trace_trans _ _ _ E12 E3), existsb_app, Hb. reflexivity. }
  rewrite (new_trace_trans _ _ _ E1 E2), N1 in Hbad.
  destruct a as [r0|bytes].
  - destruct Hl as [-> He]. ret_inv H. right. split; [reflexivity|].
    rewrite (new_trace_trans _ _ _ E1 E2), N1, existsb_app, He.
    apply orb_true_r.
  - destruct Hl as [(-> & Hs & He)|(Hneg & He)].
    + change (0 <? 0) with false in H. cbv iota in H.
      bind_inv H. apply sys_done in Hc0 as (ev2 & Hhd2 & Hcl).
      destruct (answer ev2) as [m|e2]; destruct Hcl as [-> ->].
      * replace (Z.of_nat m =? -1) with false in H
          by (symmetry; apply Z.eqb_neq; lia).
        ret_inv H.
        destruct (after_same w0 ev2 (errno w0)
                    [Sys CLOSE (Z.of_nat n) [] (Ok m)] Hhd2) as (E3 & N3 & _).
        rewrite (new_trace_trans _ _ _ E12 E3), (new_trace_trans _ _ _ E1 E2).
        rewrite N1, N3, !sent_app, !existsb_app, Hs, He. left.
        repeat split. simpl. rewrite app_nil_r. reflexivity.
      * change (-1 =? -1) with true in H. cbv iota in H.
        destruct (after_same w0 ev2 e2
                    [Sys CLOSE (Z.of_nat n) [] (Err e2)] Hhd2) as (E3 & N3 & _).
        pose proof (extends_trans _ _ _ E12 E3) as E13.
        assert (S : sound (syslog LOG_ERR "close data file failed: %s" ;;
                           ret (-1))) by sound_tac.
        pose proof (sound_done _ _ _ _ S H) as E4.
        bind_inv H. ret_inv H. right. split; [reflexivity|].
        rewrite (new_trace_trans _ _ _ E13 E4), (new_trace_trans _ _ _ E12 E3).
        rewrite N3, !existsb_app. simpl. rewrite !orb_true_r. reflexivity.
    + replace (bytes <? 0) with true in H by (symmetry; apply Z.ltb_lt; exact Hneg).
      right. split.
      * bind_inv H. bind_inv H. ret_inv H. reflexivity.
      * eapply Hbad; [rewrite existsb_app, He; apply orb_true_r| |exact H].
        sound_tac.
Qed.

(** ** The scan of the packet buffer *)

Lemma existsb_failure_false t :
  existsb failure t = false ->
  existsb append_error t = false /\
  existsb echo_error t = false /\
  existsb alloc_error t = false.
Proof.
  induction t as [|e t IH]; simpl; [auto|].
  intros H. apply orb_false_elim in H as [He Ht].
  destruct (IH Ht) as (A & B & C). rewrite A, B, C.
  unfold failure in He.
  apply orb_false_elim in He as [He He3]. apply orb_false_elim in He as [He1 He2].
  rewrite He1, He2, He3. auto.
Qed.

Lemma nth_middle_app (pre cur rest : list byte) b :
  nth (length pre + length cur) (pre ++ cur ++ b :: rest) x00 = b.
Proof.
  rewrite app_assoc, <- length_app. apply nth_middle.
Qed.

Lemma firstn_exact {A} (l k : list A) : firstn (length l) (l ++ k) = l.
Proof. induction l as [|a l IH]; simpl; [reflexivity|]. rewrite IH. reflexivity. Qed.

Lemma packet_at (pre cur rest : list byte) :
  firstn (length pre + length cur - length pre + 1)
         (skipn (length pre) (pre ++ cur ++ NL :: rest)) = cur ++ [NL].
Proof.
  rewrite skipn_length_app.
  replace (length pre + length cur - length pre + 1)%nat
    with (length (cur ++ [NL])) by (rewrite length_app; simpl; lia).
  change (cur ++ NL :: rest) with (cur ++ [NL] ++ rest).
  rewrite app_assoc. apply firstn_exact.
Qed.

Lemma split_nil_trailing cur rest :
  fst (split cur rest) = [] -> snd (split cur rest) = cur ++ rest.
Proof.
  intros H. pose proof (split_concat cur rest) as Hc.
  rewrite H in Hc. exact Hc.
Qed.

Ltac rest_sound H S :=
  match type of H with
  | ?m _ = Done _ _ => assert (S : sound m)
  end.

(** A scan on which nothing fails appends every complete packet, answers each
    with the whole file, and ends with [start] just after the last
    delimiter. *)
Lemma scan_spec client_fd :
  forall rest pre cur buf i start w start' w',
    buf = pre ++ cur ++ rest ->
    i = (length pre + length cur)%nat ->
    start = length pre ->
    scan client_fd buf (length rest) i start w = Done start' w' ->
    existsb failure (new_trace w w') = false ->
    contents w' = contents w ++ concat (fst (split cur rest)) /\
    sent (new_trace w w') = concat (responses (contents w) (fst (split cur rest))) /\
    received (new_trace w w') = [] /\
    ((start' = start /\ fst (split cur rest) = []) \/
     ((start < start' <= length buf)%nat /\
      skipn start' buf = snd (split cur rest))).
Proof.
  induction rest as [|b rest IH];
    intros pre cur buf i start w start' w' Hbuf Hi Hstart H Hclean.
  - simpl in H. ret_inv H. rewrite new_trace_refl. simpl.
    rewrite app_nil_r. repeat split. left. auto.
  - simpl length in H. simpl scan in H. subst buf i start.
    rewrite nth_middle_app in H.
    simpl split. destruct (Byte.eqb b NL) eqn:Hb.
    + apply Byte.byte_dec_bl in Hb. subst b.
      rewrite packet_at in H. bind_inv H.
      destruct (sound_with_done _ _ _ _ _ (sound_append_to_file _) Hc)
        as [E1 F1].
      destruct (append_call_quiet _ F1) as (R1 & S1 & _).
      rest_sound H Srest.
      { sound_tac; try weaken_from sound_send_file_contents;
          weaken_from sound_scan. }
      pose proof (sound_done _ _ _ _ Srest H) as Erest.
      rewrite (new_trace_trans _ _ _ E1 Erest) in Hclean |- *.
      rewrite existsb_app in Hclean.
      apply orb_false_elim in Hclean as [Hclean1 Hclean].
      apply existsb_failure_false in Hclean1 as (Ha1 & _ & _).
      destruct (append_to_file_spec _ _ _ _ Hc)
        as [(-> & Hf1 & _)|(_ & Hbad)]; [|congruence].
      change (negb (0 =? 0)) with false in H. cbv iota in H.
      clear Srest Erest. bind_inv H.
      destruct (sound_with_done _ _ _ _ _ (sound_send_file_contents _) Hc0)
        as [E2 F2].
      destruct (echo_call_quiet _ F2) as (R2 & _ & _).
      rest_sound H Srest.
      { sound_tac; weaken_from sound_scan. }
      pose proof (sound_done _ _ _ _ Srest H) as Erest.
      rewrite (new_trace_trans _ _ _ E2 Erest) in Hclean |- *.
      rewrite existsb_app in Hclean.
      apply orb_false_elim in Hclean as [Hclean2 Hclean].
      apply existsb_failure_false in Hclean2 as (_ & He2 & _).
      destruct (send_file_contents_spec _ _ _ _ Hc0)
        as [Hf2 [(-> & Hs2 & _)|(_ & Hbad)]]; [|congruence].
      change (negb (0 =? 0)) with false in H. cbv iota in H.
      assert (C1 : contents w0 = contents w ++ cur ++ [NL])
        by (apply contents_some; exact Hf1).
      assert (C2 : contents w1 = contents w0)
        by (unfold contents; rewrite Hf2; reflexivity).
      assert (Hbuf : pre ++ cur ++ NL :: rest = (pre ++ cur ++ [NL]) ++ [] ++ rest)
        by (simpl; rewrite <- !app_assoc; reflexivity).
      assert (Hi : (length pre + length cur + 1 =
                    length (pre ++ cur ++ [NL]) + length (@nil byte))%nat)
        by (rewrite !length_app; simpl; lia).
      assert (Hstart : (length pre + length cur + 1 =
                        length (pre ++ cur ++ [NL]))%nat)
        by (rewrite !length_app; simpl; lia).
      destruct (IH _ _ _ _ _ _ _ _ Hbuf Hi Hstart H Hclean)
        as (C3 & S3 & R3 & Hst).
      pose proof (split_nil_trailing [] rest) as Hnil.
      destruct (split [] rest) as [rs tl] eqn:Hsp. simpl in *.
      rewrite C3, C2, C1, !sent_app, !received_app, R1, R2, R3, S1, S3, Hs2, C2, C1.
      rewrite <- !app_assoc. simpl.
      repeat split.
      right. destruct Hst as [[-> Hrs]|[Hlt Hsk]].
      * split; [rewrite !length_app; simpl; lia|].
        rewrite (Hnil Hrs), Hstart, Hbuf. apply skipn_length_app.
      * split; [lia|exact Hsk].
    + eapply (IH pre (cur ++ [b])); [ | | | exact H | exact Hclean ].
      * rewrite <- !app_assoc. reflexivity.
      * rewrite length_app. simpl. lia.
      * reflexivity.
Qed.

(** ** handle_client *)

Lemma record_new e w u w' :
  record e w = Done u w' -> extends w w' /\ new_trace w w' = [e].
Proof.
  intros H. apply record_done in H. subst w'.
  apply (extends_new _ _ [] [e]); reflexivity || (intros; reflexivity).
Qed.

(** A round that receives nothing and appends nothing leaves the invariant
    as it is. *)
Lemma quiet_round buf w w1 :
  extends w w1 ->
  received (new_trace w w1) = [] ->
  sent (new_trace w w1) = [] ->
  existsb modifies_file (new_trace w w1) = false ->
  no_delimiter buf ->
  contents w1 = contents w ++ concat (records (buf ++ received (new_trace w w1))) /\
  sent (new_trace w w1) =
    concat (responses (contents w) (records (buf ++ received (new_trace w w1)))) /\
  buf = trailing (buf ++ received (new_trace w w1)).
Proof.
  intros E R S Hm Hnd. rewrite R, S, app_nil_r.
  rewrite (records_no_delimiter buf Hnd), (trailing_no_delimiter_id buf Hnd).
  simpl. rewrite app_nil_r. unfold contents.
  rewrite (extends_file w w1 E Hm). auto.
Qed.

(** One round of the receive loop on which nothing fails: the packets
    completed by the new chunk are appended and answered, and the buffer is
    left holding the bytes after the last delimiter. *)
Lemma handle_body_spec client_fd buf w k w1 :
  handle_body client_fd buf w = Done k w1 ->
  existsb failure (new_trace w w1) = false ->
  no_delimiter buf ->
  contents w1 = contents w ++ concat (records (buf ++ received (new_trace w w1))) /\
  sent (new_trace w w1) =
    concat (responses (contents w) (records (buf ++ received (new_trace w w1)))) /\
  match k with
  | Continue buf' => buf' = trailing (buf ++ received (new_trace w w1))
  | Break buf' => buf' = trailing (buf ++ received (new_trace w w1))
  end.
Proof.
  intros H Hclean Hnd. unfold handle_body in H.
  unfold bind at 1, get_exit_requested in H. cbv beta iota in H.
  destruct (exit_requested w =? 0) eqn:Hx.
  2:{ ret_inv H. apply quiet_round; auto using extends_refl;
      rewrite new_trace_refl; reflexivity. }
  bind_inv H. destruct a as [bytes recv_buf].
  apply recv_done in Hc as (ev & Hhd & Hr).
  destruct (answer ev) as [n|e].
  - destruct Hr as (Hbuf & -> & ->).
    destruct (after_same w ev (errno w)
                [Sys RECV client_fd recv_buf (Ok (length recv_buf))] Hhd)
      as (E1 & N1 & _).
    cbv beta iota in H. rewrite of_nat_ltb_0 in H.
    destruct (Z.of_nat (length recv_buf) =? 0) eqn:Hz.
    + revert Hbuf. ret_inv H. intros Hbuf.
      apply Z.eqb_eq in Hz.
      assert (Hnil : recv_buf = []) by (apply length_zero_iff_nil; lia).
      apply quiet_round; auto; rewrite N1, Hnil; reflexivity.
    + rewrite Nat2Z.id in H. bind_inv H.
      apply realloc_done in Hc as (ev2 & Hhd2 & -> & ->).
      remember (after w ev (errno w) (data_file w)
                  [Sys RECV client_fd recv_buf (Ok (length recv_buf))]) as wa
        eqn:Hwa.
      assert (Da : data_file wa = data_file w) by (subst wa; reflexivity).
      destruct (after_same wa ev2 (errno wa)
                  [Sys REALLOC (Z.of_nat (length buf + length recv_buf)) []
                     (answer ev2)] Hhd2) as (E2 & N2 & _).
      remember (after wa ev2 (errno wa) (data_file wa)
                  [Sys REALLOC (Z.of_nat (length buf + length recv_buf)) []
                     (answer ev2)]) as wb eqn:Hwb.
      assert (Db : data_file wb = data_file w) by (subst wb; exact Da).
      clear Hwa Hwb.
      rest_sound H Srest.
      { sound_tac; weaken_from sound_scan. }
      pose proof (sound_done _ _ _ _ Srest H) as Erest.
      pose proof (extends_trans _ _ _ E1 E2) as E12.
      rewrite (new_trace_trans _ _ _ E12 Erest) in Hclean |- *.
      rewrite (new_trace_trans _ _ _ E1 E2), N1, N2 in Hclean |- *.
      destruct (answer ev2) as [m|e2].
      2:{ simpl in Hclean. discriminate Hclean. }
      clear Srest Erest. simpl negb in H. cbv iota in H.
      bind_inv H. rename a into start, w0 into wc.
      destruct (sound_with_done _ _ _ _ _ (sound_scan _ _ _ _ _) Hc) as [E3 _].
      rest_sound H Srest.
      { sound_tac. }
      pose proof (sound_done _ _ _ _ Srest H) as E4. clear Srest.
      rewrite (new_trace_trans _ _ _ E3 E4) in Hclean |- *.
      rewrite !existsb_app in Hclean.
      apply orb_false_elim in Hclean as [_ Hclean].
      apply orb_false_elim in Hclean as [Hclean _].
      rewrite <- length_app in Hc, H.
      destruct (scan_spec client_fd (buf ++ recv_buf) [] [] _ _ _ _ _ _
                  eq_refl eq_refl eq_refl Hc Hclean) as (C3 & S3 & R3 & Hst).
      fold (records (buf ++ recv_buf)) in C3, S3, Hst.
      assert (Cb : contents wb = contents w)
        by (unfold contents; rewrite Db; reflexivity).
      rewrite Cb in C3, S3.
      assert (Hlast : received (new_trace wc w1) = [] /\
                      sent (new_trace wc w1) = [] /\
                      contents w1 = contents wc /\
                      match k with
                      | Continue buf' | Break buf' =>
                          buf' = trailing (buf ++ recv_buf)
                      end).
      { destruct Hst as [[-> Hrs]|[Hlt Hsk]].
        - simpl in H. ret_inv H. rewrite new_trace_refl.
          repeat split. symmetry. apply (split_nil_trailing [] _ Hrs).
        - simpl in Hlt.
          replace (0 <? start)%nat with true in H
            by (symmetry; apply Nat.ltb_lt; lia).
          replace (start <=? length (buf ++ recv_buf))%nat with true in H
            by (symmetry; apply Nat.leb_le; lia).
          simpl andb in H. cbv iota in H. bind_inv H.
          apply realloc_done in Hc0 as (ev3 & Hhd3 & -> & _).
          ret_inv H.
          match goal with
          | |- context [after wc ev3 ?e ?f ?new] =>
              destruct (after_same wc ev3 e new Hhd3) as (_ & -> & _)
          end.
          repeat split.
          rewrite firstn_all2; [exact Hsk|].
          rewrite length_skipn. lia. }
      destruct Hlast as (R4 & S4 & C4 & Hk).
      rewrite !received_app, !sent_app, R3, R4, S3, S4, C4, C3.
      unfold received at 1 2, sent at 1 2. simpl. rewrite !app_nil_r.
      repeat split. destruct k; exact Hk.
  - destruct Hr as (-> & -> & ->).
    destruct (after_same w ev e [Sys RECV client_fd [] (Err e)] Hhd)
      as (E1 & N1 & _).
    cbv beta iota in H. change (-1 <? 0) with true in H. cbv iota in H.
    unfold bind at 1, get_errno in H. cbv beta iota in H.
    unfold bind at 1, get_exit_requested in H. cbv beta iota in H.
    change (errno (after w ev e (data_file w) [Sys RECV client_fd [] (Err e)]))
      with e in H.
    destruct ((e =? EINTR) && _) in H; [|destruct (e =? EINTR) in H].
    + ret_inv H. apply quiet_round; auto; rewrite N1; reflexivity.
    + ret_inv H. apply quiet_round; auto; rewrite N1; reflexivity.
    + bind_inv H. ret_inv H. apply record_new in Hc as [E2 N2].
      rewrite (new_trace_trans _ _ _ E1 E2), N1, N2.
      pose proof (extends_trans _ _ _ E1 E2) as E12.
      pose proof (quiet_round buf _ _ E12) as Q.
      rewrite (new_trace_trans _ _ _ E1 E2), N1, N2 in Q.
      apply Q; auto.
Qed.

Lemma handle_loop_spec client_fd fuel :
  forall buf w r w',
    loop fuel (handle_body client_fd) buf w = Done r w' ->
    extends w w' /\
    (existsb failure (new_trace w w') = false ->
     no_delimiter buf ->
     contents w' =
       contents w ++ concat (records (buf ++ received (new_trace w w'))) /\
     sent (new_trace w w') =
       concat (responses (contents w)
                 (records (buf ++ received (new_trace w w')))) /\
     r = trailing (buf ++ received (new_trace w w'))).
Proof.
  induction fuel as [|fuel IH]; intros buf w r w' H; [discriminate|].
  simpl in H. bind_inv H.
  destruct (sound_with_done _ _ _ _ _ (sound_handle_body _ _) Hc) as [E1 _].
  pose proof (handle_body_spec _ _ _ _ _ Hc) as Hk.
  destruct a as [buf'|r0].
  - destruct (IH _ _ _ _ H) as [E2 Hr].
    split; [eapply extends_trans; eassumption|].
    rewrite (new_trace_trans _ _ _ E1 E2). intros Hclean Hnd.
    rewrite existsb_app in Hclean.
    apply orb_false_elim in Hclean as [Hclean1 Hclean2].
    destruct (Hk Hclean1 Hnd) as (C1 & S1 & ->).
    destruct (Hr Hclean2 (trailing_no_delimiter _)) as (C2 & S2 & ->).
    rewrite received_app, sent_app, app_assoc.
    set (rx1 := received (new_trace w w0)) in *.
    set (rx2 := received (new_trace w0 w')) in *.
    rewrite (records_app (buf ++ rx1) rx2), (trailing_app (buf ++ rx1) rx2).
    rewrite responses_app, !concat_app.
    rewrite C2, C1, S1, S2, C1, <- app_assoc. auto.
  - ret_inv H. split; [exact E1|]. intros Hclean Hnd.
    destruct (Hk Hclean Hnd) as (C1 & S1 & ->). auto.
Qed.

(** What a connection on which nothing fails leaves behind. *)
Lemma handle_client_spec client_fd w u w' :
  handle_client client_fd w = Done u w' ->
  existsb failure (new_trace w w') = false ->
  contents w' = contents w ++ concat (records (received (new_trace w w'))) /\
  sent (new_trace w w') =
    concat (responses (contents w) (records (received (new_trace w w')))) /\
  exists t, new_trace w w' = t ++ [Free (trailing (received (new_trace w w')))].
Proof.
  intros H Hclean. unfold handle_client in H. bind_inv H.
  unfold while in Hc. destruct (handle_loop_spec _ _ _ _ _ _ Hc) as [E1 Hr].
  apply record_new in H as [E2 N2].
  rewrite (new_trace_trans _ _ _ E1 E2), N2 in Hclean |- *.
  rewrite existsb_app in Hclean. apply orb_false_elim in Hclean as [Hclean _].
  destruct (Hr Hclean eq_refl) as (C & S & ->). simpl in C, S |- *.
  rewrite received_app, sent_app. unfold received at 2 4 6, sent at 2.
  simpl. rewrite !app_nil_r.
  split; [|split; [exact S|eauto]].
  rewrite <- C. unfold contents.
  rewrite (extends_file _ _ E2); [reflexivity|]. rewrite N2. reflexivity.
Qed.

(** ** main *)

Lemma sys_cases c arg w r w1 :
  sys c arg w = Done r w1 ->
  extends w w1 /\ data_file w1 = data_file w /\
  exists o,
    new_trace w w1 = [Sys c arg [] o] /\
    ((exists n, o = Ok n /\ r = Z.of_nat n) \/
     (exists e, o = Err e /\ r = -1 /\ errno w1 = e)).
Proof.
  intros H. apply sys_done in H as (ev & Hhd & H).
  destruct (answer ev) as [n|e]; destruct H as [-> ->];
    (edestruct after_same as (E & N & _); [exact Hhd|]);
    (split; [exact E|]); (split; [reflexivity|]); eexists; (split; [exact N|]);
    eauto.
Qed.

(** The accept loop is left only with the flag set. *)
Lemma accept_body_break server_fd u w r w1 :
  accept_body server_fd u w = Done (Break r) w1 -> exit_requested w1 <> 0.
Proof.
  intros H. unfold accept_body in H.
  unfold bind at 1, get_exit_requested in H. cbv beta iota in H.
  destruct (exit_requested w =? 0) eqn:Hx.
  - bind_inv H. apply sys_done in Hc as (ev & Hhd & Hs).
    destruct (answer ev) as [n|e]; destruct Hs as [-> ->].
    + rewrite of_nat_eqb_m1 in H. repeat bind_inv H. ret_inv H.
    + change (-1 =? -1) with true in H. cbv iota in H.
      unfold bind at 1, get_errno in H. cbv beta iota in H.
      unfold bind at 1, get_exit_requested in H. cbv beta iota in H.
      match type of H with
      | context [negb (?x =? 0)] => destruct (x =? 0) eqn:Hx1
      end.
      * rewrite andb_false_r in H. destruct (_ =? EINTR) in H.
        -- ret_inv H.
        -- bind_inv H. ret_inv H.
      * destruct (_ =? EINTR) in H; simpl in H.
        -- ret_inv H. apply Z.eqb_neq. exact Hx1.
        -- bind_inv H. ret_inv H.
  - ret_inv H. apply Z.eqb_neq. exact Hx.
Qed.

Lemma accept_loop_exit server_fd fuel :
  forall u w r w',
    loop fuel (accept_body server_fd) u w = Done r w' -> exit_requested w' <> 0.
Proof.
  induction fuel as [|fuel IH]; intros u w r w' H; [discriminate|].
  simpl in H. bind_inv H. destruct a as [u'|r0].
  - apply (IH _ _ _ _ H).
  - ret_inv H. apply (accept_body_break _ _ _ _ _ Hc).
Qed.

(** The code after the label [cleanup]: the listening socket, if there is
    one, is closed, the removal of the file is attempted, and the exit code is
    the one it was given. *)
Lemma cleanup_spec ret_code server_fd w r w' :
  cleanup ret_code server_fd w = Done r w' ->
  r = ret_code /\
  exists tc rr,
    new_trace w w' = tc ++ remove_entries rr ++ [CloseLog] /\
    (server_fd = -1 -> tc = []) /\
    (server_fd <> -1 -> exists rc, tc = close_entries server_fd rc) /\
    (data_file w' = None \/ exists e, rr = Err e) /\
    (data_file w = None -> data_file w' = None).
Proof.
  intros H. unfold cleanup in H. bind_inv H.
  assert (Hclose : extends w w0 /\ data_file w0 = data_file w /\
                   (server_fd = -1 -> new_trace w w0 = []) /\
                   (server_fd <> -1 ->
                    exists rc, new_trace w w0 = close_entries server_fd rc)).
  { destruct (server_fd =? -1) eqn:Hfd; simpl in Hc.
    - ret_inv Hc. apply Z.eqb_eq in Hfd.
      split; [apply extends_refl|]. split; [reflexivity|].
      split; [intros _; apply new_trace_refl|]. intros; exfalso; lia.
    - apply Z.eqb_neq in Hfd. bind_inv Hc.
      apply sys_cases in Hc0 as (E1 & D1 & o & N1 & Ho).
      destruct Ho as [(n & -> & ->)|(e & -> & -> & _)].
      + rewrite of_nat_eqb_m1 in Hc. ret_inv Hc.
        split; [exact E1|]. split; [exact D1|].
        split; [intros; exfalso; lia|]. intros _. exists (Ok n). exact N1.
      + change (-1 =? -1) with true in Hc. cbv iota in Hc.
        apply record_new in Hc as [E2 N2].
        split; [eapply extends_trans; eassumption|].
        split; [rewrite <- D1; apply (extends_file _ _ E2); rewrite N2; reflexivity|].
        split; [intros; lia|]. intros _. exists (Err e).
        rewrite (new_trace_trans _ _ _ E1 E2), N1, N2. reflexivity. }
  destruct Hclose as (E1 & D1 & Hnone & Hsome). clear Hc.
  bind_inv H. apply remove_done in Hc as (ev & Hhd & Hrm).
  unfold bind at 1, get_errno in H. cbv beta iota in H.
  assert (Hrest : forall e f rr,
             w1 = after w0 ev e f [Sys REMOVE 0 [] rr] ->
             extends w0 w1 ->
             ((if (a0 =? -1) && negb (errno w1 =? ENOENT)
               then [Log LOG_ERR "remove(%s) failed: %s"] else [])
              = tl (remove_entries rr)) ->
             r = ret_code /\
             new_trace w w' = new_trace w w0 ++ remove_entries rr ++ [CloseLog] /\
             data_file w' = f).
  { intros e f rr Hw1 E2 Hlog.
    assert (N2 : new_trace w0 w1 = [Sys REMOVE 0 [] rr]).
    { subst w1. unfold new_trace, after. simpl. apply skipn_length_app. }
    assert (D2 : data_file w1 = f) by (subst w1; reflexivity).
    clear Hw1. bind_inv H.
    assert (Hl : extends w1 w2 /\ new_trace w1 w2 = tl (remove_entries rr) /\
                 data_file w2 = data_file w1).
    { rewrite <- Hlog. destruct ((a0 =? -1) && negb (errno w1 =? ENOENT)).
      - apply record_new in Hc as [E3 N3].
        split; [exact E3|]. split; [exact N3|].
        apply (extends_file _ _ E3). rewrite N3. reflexivity.
      - ret_inv Hc.
        split; [apply extends_refl|]. split; [apply new_trace_refl|reflexivity]. }
    destruct Hl as (E3 & N3 & D3). clear Hc.
    bind_inv H. apply record_new in Hc as [E4 N4].
    apply ret_done in H as [Hr Hw]. rewrite Hw. clear Hw.
    split; [exact Hr|].
    pose proof (extends_trans _ _ _ E1 E2) as E12.
    pose proof (extends_trans _ _ _ E12 E3) as E13.
    rewrite (new_trace_trans _ _ _ E13 E4), (new_trace_trans _ _ _ E12 E3).
    rewrite (new_trace_trans _ _ _ E1 E2), N2, N3, N4.
    split; [rewrite <- !app_assoc; reflexivity|].
    rewrite <- D2, <- D3. apply (extends_file _ _ E4). rewrite N4. reflexivity. }
  assert (Hgoal : forall f rr,
             r = ret_code /\
             new_trace w w' = new_trace w w0 ++ remove_entries rr ++ [CloseLog] /\
             data_file w' = f ->
             (f = None \/ exists e, rr = Err e) ->
             (data_file w0 = None -> f = None) ->
             r = ret_code /\
             exists tc rr0,
               new_trace w w' = tc ++ remove_entries rr0 ++ [CloseLog] /\
               (server_fd = -1 -> tc = []) /\
               (server_fd <> -1 -> exists rc, tc = close_entries server_fd rc) /\
               (data_file w' = None \/ exists e, rr0 = Err e) /\
               (data_file w = None -> data_file w' = None)).
  { intros f rr (Hr & Hn & Hd) Hf Hkeep. split; [exact Hr|].
    exists (new_trace w w0), rr. rewrite Hd, <- D1. auto. }
  destruct (answer ev) as [n|e]; [destruct (data_file w0) as [c|] eqn:Hf0|];
    destruct Hrm as [-> Hw1].
  - apply (Hgoal None (Ok 0)); [|auto|auto].
    eapply Hrest; [exact Hw1| |reflexivity].
    subst w1. apply after_modified; auto.
  - apply (Hgoal None (Err ENOENT)); [|auto|auto].
    eapply Hrest; [exact Hw1| |subst w1; reflexivity].
    subst w1. rewrite <- Hf0. apply after_same; auto.
  - apply (Hgoal (data_file w0) (Err e)); [|eauto|auto].
    eapply Hrest; [exact Hw1| |].
    + subst w1. apply after_same; auto.
    + subst w1. simpl. destruct (e =? ENOENT); reflexivity.
Qed.

Lemma setup_step w wk c arg msg (fdv : Z -> Z) (k : Z -> M (Z * Z)) res w1 :
  extends w wk ->
  existsb is_listen_ok (new_trace w wk) = false ->
  (forall o, is_listen_ok (Sys c arg [] o) = false) ->
  (r <- sys c arg ;;
   if r =? -1 then syslog LOG_ERR msg ;; ret (-1, fdv r) else k r) wk
    = Done res w1 ->
  (forall n wk',
      extends w wk' ->
      existsb is_listen_ok (new_trace w wk') = false ->
      new_trace w wk' = new_trace w wk ++ [Sys c arg [] (Ok n)] ->
      k (Z.of_nat n) wk' = Done res w1 ->
      served w res w1) ->
  served w res w1.
Proof.
  intros E Hno Hc H Hk. bind_inv H.
  apply sys_cases in Hc0 as (E1 & _ & o & N1 & Ho).
  pose proof (extends_trans _ _ _ E E1) as E01.
  assert (N01 : new_trace w w0 = new_trace w wk ++ [Sys c arg [] o])
    by (rewrite (new_trace_trans _ _ _ E E1), N1; reflexivity).
  assert (Hno1 : existsb is_listen_ok (new_trace w w0) = false)
    by (rewrite N01, existsb_app, Hno;
        change (existsb is_listen_ok [Sys c arg [] o])
          with (is_listen_ok (Sys c arg [] o) || false);
        rewrite Hc; reflexivity).
  destruct Ho as [(n & -> & ->)|(e & -> & -> & _)].
  - rewrite of_nat_eqb_m1 in H. apply (Hk n w0); assumption.
  - change (-1 =? -1) with true in H. cbv iota in H.
    bind_inv H. apply record_new in Hc0 as [E2 N2]. ret_inv H.
    right. split; [reflexivity|].
    rewrite (new_trace_trans _ _ _ E01 E2), existsb_app, Hno1, N2. reflexivity.
Qed.

Lemma serve_spec w res w1 : serve w = Done res w1 -> served w res w1.
Proof.
  intros H. unfold serve in H.
  eapply (setup_step w w);
    [apply extends_refl | rewrite new_trace_refl; reflexivity | | exact H |];
    [reflexivity|].
  clear H. intros n1 wa Ea Na _ H.
  eapply (setup_step w wa); [exact Ea | exact Na | | exact H |]; [reflexivity|].
  clear H. intros n2 wb Eb Nb _ H.
  eapply (setup_step w wb); [exact Eb | exact Nb | | exact H |]; [reflexivity|].
  clear H. intros n wc Ec Nc Hsock H.
  eapply (setup_step w wc); [exact Ec | exact Nc | | exact H |]; [reflexivity|].
  clear H. intros n4 wd Ed Nd Hd H.
  eapply (setup_step w wd); [exact Ed | exact Nd | | exact H |]; [reflexivity|].
  clear H. intros n5 we Ee Ne He H.
  assert (Hin : In (Sys SOCKET 0 [] (Ok n)) (new_trace w we)).
  { rewrite He, Hd, Hsock, !in_app_iff. simpl. auto. }
  bind_inv H. apply sys_cases in Hc as (E1 & _ & o & N1 & Ho).
  pose proof (extends_trans _ _ _ Ee E1) as E01.
  destruct Ho as [(m & -> & ->)|(e & -> & -> & _)].
  - rewrite of_nat_eqb_m1 in H. bind_inv H.
    pose proof (sound_done _ _ _ _ (sound_accept_loop _) Hc) as E2.
    unfold while in Hc. apply accept_loop_exit in Hc.
    unfold bind at 1, get_exit_requested in H. cbv beta iota in H.
    apply Z.eqb_neq in Hc. rewrite Hc in H. simpl negb in H. cbv iota in H.
    bind_inv H. pose proof (record_done _ _ _ _ Hc0) as Hw.
    apply record_new in Hc0 as [E3 N3]. ret_inv H. left. simpl.
    pose proof (extends_trans _ _ _ E01 E2) as E02.
    split; [reflexivity|]. split; [apply Z.eqb_neq; exact Hc|].
    rewrite (new_trace_trans _ _ _ E02 E3), (new_trace_trans _ _ _ E01 E2).
    rewrite (new_trace_trans _ _ _ Ee E1), N1.
    split.
    + rewrite !existsb_app. simpl. rewrite !orb_true_r. reflexivity.
    + exists n. split; [reflexivity|]. rewrite !in_app_iff. auto.
  - change (-1 =? -1) with true in H. cbv iota in H.
    bind_inv H. apply record_new in Hc as [E2 N2]. ret_inv H.
    right. split; [reflexivity|].
    rewrite (new_trace_trans _ _ _ E01 E2), (new_trace_trans _ _ _ Ee E1).
    rewrite !existsb_app, Ne, N1, N2. reflexivity.
Qed.

(** ** The scenarios of the specification *)

(** A packet of two records in one chunk: two answers, the first record, then
    both. *)
Example scenario_two_records :
  let w' := final (handle_client 7 two_packets) two_packets in
  handle_client 7 two_packets = Done tt w' /\
  data_file w' = Some (line "hello" ++ line "world") /\
  sent (trace w') = line "hello" ++ (line "hello" ++ line "world").
Proof. vm_compute. repeat split; reflexivity. Qed.

(** Bytes without a delimiter: nothing is appended and nothing is sent. *)
Example scenario_unterminated :
  let w' := final (handle_client 7 unterminated) unterminated in
  handle_client 7 unterminated = Done tt w' /\
  data_file w' = data_file unterminated /\
  sent (trace w') = [] /\
  trace w' = [Sys RECV 7 (bytes "abc") (Ok 3); Sys REALLOC 3 [] (Ok 1);
              Sys RECV 7 [] (Ok 0); Free (bytes "abc")].
Proof. vm_compute. repeat split; reflexivity. Qed.

(** Two connections one after the other: the answer to the second holds the
    record of the first; after SIGTERM the file is gone and the exit code
    is 0. *)
Example scenario_two_connections :
  let w' := final (main two_clients) two_clients in
  main two_clients = Done 0 w' /\
  sent (trace w') = line "a" ++ (line "a" ++ line "b") /\
  data_file w' = None /\
  oracle w' = [].
Proof. vm_compute. repeat split; reflexivity. Qed.

(** * The claims *)

(** C1, as stated, does not hold: excluding append errors is not enough.
    In [echo_fails] two packets are received and no append fails, but the send
    of the first answer fails, the scan is left, the client closes, and the
    second packet never reaches the file. *)
Lemma C1_only_append_errors_excluded_fails :
  ~ (forall client_fd w w',
        handle_client client_fd w = Done tt w' ->
        existsb append_error (new_trace w w') = false ->
        contents w' =
          contents w ++ concat (records (received (new_trace w w')))).
Proof.
  intros H.
  assert (Hrun : handle_client 7 echo_fails =
                 Done tt (final (handle_client 7 echo_fails) echo_fails))
    by (vm_compute; reflexivity).
  assert (Hclean : existsb append_error
                     (new_trace echo_fails
                        (final (handle_client 7 echo_fails) echo_fails)) = false)
    by (vm_compute; reflexivity).
  specialize (H 7 echo_fails _ Hrun Hclean).
  vm_compute in H. discriminate H.
Qed.

(** C1 (amended).  For every sequence of bytes received on one connection,
    when the handler returns and no append, no answer and no growing of the
    buffer failed, the file holds what it held before followed by the
    delimiter-terminated records of the received bytes in order; there are as
    many records as delimiters, and the bytes after the last delimiter are
    not in the file. *)
Theorem C1_store_after_connection client_fd w w' :
  handle_client client_fd w = Done tt w' ->
  existsb failure (new_trace w w') = false ->
  let rx := received (new_trace w w') in
  contents w' = contents w ++ concat (records rx) /\
  length (records rx) = delimiters rx /\
  concat (records rx) ++ trailing rx = rx /\
  contents w' ++ trailing rx = contents w ++ rx.
Proof.
  intros H Hclean rx.
  destruct (handle_client_spec _ _ _ _ H Hclean) as (C & _ & _).
  fold rx in C. split; [exact C|]. split; [apply records_length|].
  split; [apply records_trailing|].
  rewrite C, <- app_assoc, records_trailing. reflexivity.
Qed.

Lemma C1_store_after_connection_witness :
  let w := two_packets in
  let w' := final (handle_client 7 two_packets) two_packets in
  let rx := received (new_trace w w') in
  contents w' = contents w ++ concat (records rx) /\
  length (records rx) = delimiters rx /\
  concat (records rx) ++ trailing rx = rx /\
  contents w' ++ trailing rx = contents w ++ rx.
Proof.
  apply (C1_store_after_connection 7 two_packets
           (final (handle_client 7 two_packets) two_packets)).
  - vm_compute. reflexivity.
  - vm_compute. reflexivity.
Defined.


(** C6, as stated, does not hold: in [close_interrupted] the close fails with
    EINTR and [append_to_file] returns -1, although no open, write or close
    failed for a reason other than interruption. *)
Lemma C6_error_iff_hard_error_fails :
  ~ (forall data w r w',
        append_to_file data w = Done r w' ->
        (r = -1 <-> existsb hard_error (new_trace w w') = true)).
Proof.
  intros H.
  assert (Hrun : append_to_file (line "a") close_interrupted =
                 Done (-1) (final (append_to_file (line "a") close_interrupted)
                                  close_interrupted))
    by (vm_compute; reflexivity).
  destruct (H (line "a") close_interrupted (-1) _ Hrun) as [H1 _].
  specialize (H1 eq_refl). vm_compute in H1. discriminate H1.
Qed.

(** C6 (amended).  [append_to_file] returns 0 or -1.  It returns -1 exactly
    when the open failed, a write failed for a reason other than
    interruption, or the close failed (open and close for any reason, EINTR
    included).  When it returns 0 it has opened the file for appending
    (creating it if absent), made only writes, which together put the whole
    of [data] at the end of the file, and closed the descriptor it opened. *)
Theorem C6_append_to_file data w r w' :
  append_to_file data w = Done r w' ->
  (r = 0 \/ r = -1) /\
  (r = -1 <-> existsb append_error (new_trace w w') = true) /\
  (r = 0 ->
   data_file w' = Some (contents w ++ data) /\
   exists n m ws,
     new_trace w w' =
       Sys OPEN_APPEND 0 [] (Ok n) :: ws ++ [Sys CLOSE (Z.of_nat n) [] (Ok m)] /\
     forallb is_write ws = true /\
     written_bytes ws = data).
Proof.
  intros H.
  destruct (append_to_file_spec _ _ _ _ H) as [(-> & Hf & He & Ht)|(-> & He)].
  - split; [auto|]. split; [|auto].
    rewrite He. split; discriminate.
  - split; [auto|]. split; [|discriminate].
    rewrite He. split; reflexivity.
Qed.

Lemma C6_append_to_file_witness :
  let data := line "hello" in
  let w := boot [answers 5; fails EINTR; answers 3; answers 1024; answers 0] in
  let w' := final (append_to_file data w) w in
  (0 = 0 \/ 0 = -1) /\
  (0 = -1 <-> existsb append_error (new_trace w w') = true) /\
  (0 = 0 ->
   data_file w' = Some (contents w ++ data) /\
   exists n m ws,
     new_trace w w' =
       Sys OPEN_APPEND 0 [] (Ok n) :: ws ++ [Sys CLOSE (Z.of_nat n) [] (Ok m)] /\
     forallb is_write ws = true /\
     written_bytes ws = data).
Proof.
  apply (C6_append_to_file (line "hello")
           (boot [answers 5; fails EINTR; answers 3; answers 1024; answers 0])).
  vm_compute. reflexivity.
Defined.

(** C3: the code at a failing input.  In [append_fails] the open of the first
    append fails while two records are buffered.  The handler does not end
    the connection: it receives again, and then appends and answers the
    record left over from the failed chunk together with the new one. *)
Theorem C3_connection_goes_on_after_failure :
  let w := append_fails in
  let w' := final (handle_client 7 append_fails) append_fails in
  handle_client 7 w = Done tt w' /\
  existsb failure (new_trace w w') = true /\
  existsb is_recv (since_failure (new_trace w w')) = true /\
  received (new_trace w w') = line "a" ++ line "b" ++ line "c" /\
  contents w' = line "b" ++ line "c" /\
  sent (new_trace w w') = line "b" ++ line "b" ++ line "c".
Proof. vm_compute. repeat split; reflexivity. Qed.

(** C4: the code at a failing input.  In [echo_fails] the first round of the
    receive loop ends with a whole record in the packet buffer, although no
    received byte is left unterminated; the loop then goes round again. *)
Theorem C4_buffer_after_failed_round :
  let w := echo_fails in
  let w1 := final (handle_body 7 [] echo_fails) echo_fails in
  handle_body 7 [] w = Done (Continue (line "b")) w1 /\
  received (new_trace w w1) = line "a" ++ line "b" /\
  trailing (received (new_trace w w1)) = [] /\
  line "b" <> trailing (received (new_trace w w1)).
Proof. vm_compute. repeat split; try reflexivity. discriminate. Qed.

(** The invariant of the packet buffer on the rounds on which nothing fails:
    if the buffer holds the bytes received after the last delimiter, it does
    so again after the round. *)
Lemma buffer_invariant client_fd rx w buf' w1 :
  handle_body client_fd (trailing rx) w = Done (Continue buf') w1 ->
  existsb failure (new_trace w w1) = false ->
  buf' = trailing (rx ++ received (new_trace w w1)).
Proof.
  intros H Hclean.
  destruct (handle_body_spec _ _ _ _ _ H Hclean (trailing_no_delimiter rx))
    as (_ & _ & ->).
  symmetry. apply trailing_app.
Qed.

(** C5, as stated, does not hold.  For [send]: in [send_interrupted] SIGTERM
    sets the flag while [send] is blocked, the call fails with EINTR, and the
    send loop goes round again instead of being left.  For [read]: in
    [read_interrupted] the read of the file fails with EINTR while the flag is
    clear; it is not made again, the failure is logged and
    [send_file_contents] returns -1. *)
Lemma C5_interrupted_send_unwinds_fails :
  ~ (forall client_fd fd buf sent_total w ev rest k w',
        oracle w = ev :: rest ->
        answer ev = Err EINTR ->
        send_body client_fd fd buf sent_total w = Done k w' ->
        exit_requested w' <> 0 ->
        exists r, k = Break r) /\
  (let w' := final (send_file_contents 7 read_interrupted) read_interrupted in
   send_file_contents 7 read_interrupted = Done (-1) w' /\
   exit_requested w' = 0 /\
   trace w' = [Sys OPEN_RDONLY 0 [] (Ok 5); Sys READ 5 [] (Err EINTR);
               Log LOG_ERR "read(%s) failed: %s"; Sys CLOSE 5 [] (Ok 0)]).
Proof.
  split.
  - intros H.
    assert (Hrun : send_body 7 5 (line "a") 0 send_interrupted =
                   Done (Continue 0%nat)
                        (final (send_body 7 5 (line "a") 0 send_interrupted)
                               send_interrupted))
      by (vm_compute; reflexivity).
    destruct (H 7 5 (line "a") 0%nat send_interrupted
                (interrupts SIGTERM) [answers 2] (Continue 0%nat) _
                eq_refl eq_refl Hrun) as [r Hr].
    + vm_compute. discriminate.
    + discriminate Hr.
  - vm_compute. repeat split; reflexivity.
Qed.

(** C5 (amended).  When a blocking call fails with EINTR:
    - in the accept loop and in the receive loop the round ends without
      anything being logged; the loop goes round again (and calls again) if
      the flag is still clear when the call returns and is left if it is set;
    - in the send loop and in the write loop the call is made again with the
      same position, whatever the flag.
    In none of the four is an interruption logged or treated as a failure. *)
Theorem C5_interrupted_calls w ev rest :
  oracle w = ev :: rest ->
  answer ev = Err EINTR ->
  let x := latch (signals ev) (exit_requested w) in
  (forall server_fd,
      exit_requested w = 0 ->
      accept_body server_fd tt w =
      Done (if x =? 0 then Continue tt else Break tt)
           (after w ev EINTR (data_file w)
                  [Sys ACCEPT server_fd [] (Err EINTR)])) /\
  (forall client_fd packet_buf,
      exit_requested w = 0 ->
      handle_body client_fd packet_buf w =
      Done (if x =? 0 then Continue packet_buf else Break packet_buf)
           (after w ev EINTR (data_file w)
                  [Sys RECV client_fd [] (Err EINTR)])) /\
  (forall client_fd fd buf sent_total,
      (sent_total < length buf)%nat ->
      send_body client_fd fd buf sent_total w =
      Done (Continue sent_total)
           (after w ev EINTR (data_file w)
                  [Sys SEND client_fd [] (Err EINTR)])) /\
  (forall fd data written,
      (written < length data)%nat ->
      write_body fd data written w =
      Done (Continue written)
           (after w ev EINTR (data_file w) [Sys WRITE fd [] (Err EINTR)])).
Proof.
  intros Ho Ha x. destruct w as [xr e f t o]. simpl in Ho. subst o.
  destruct ev as [sigs ans pay]. simpl in Ha. subst ans. simpl in x.
  repeat split.
  - intros server_fd Hx. simpl in Hx. subst xr.
    unfold accept_body, bind, get_exit_requested, get_errno, sys, failed,
      record, set_errno, ret, next_event, after.
    simpl. rewrite deliver_eq. simpl. fold x.
    destruct (x =? 0); reflexivity.
  - intros client_fd packet_buf Hx. simpl in Hx. subst xr.
    unfold handle_body, bind, get_exit_requested, get_errno, recv, failed,
      record, set_errno, ret, next_event, after.
    simpl. rewrite deliver_eq. simpl. fold x.
    destruct (x =? 0); reflexivity.
  - intros client_fd fd buf sent_total Hlt.
    apply Nat.ltb_lt in Hlt.
    unfold send_body, bind, get_errno, send, failed,
      record, set_errno, ret, next_event, after.
    rewrite Hlt. simpl. rewrite deliver_eq. reflexivity.
  - intros fd data written Hlt.
    apply Nat.ltb_lt in Hlt.
    unfold write_body, bind, get_errno, write, failed,
      record, set_errno, ret, next_event, after.
    rewrite Hlt. simpl. rewrite deliver_eq. reflexivity.
Qed.

Lemma C5_interrupted_calls_witness :
  let w := send_interrupted in
  let ev := interrupts SIGTERM in
  (oracle w = [ev; answers 2] /\ answer ev = Err EINTR) /\
  accept_body 3 tt w =
    Done (Break tt) (after w ev EINTR (data_file w) [Sys ACCEPT 3 [] (Err EINTR)]) /\
  handle_body 7 [] w =
    Done (Break []) (after w ev EINTR (data_file w) [Sys RECV 7 [] (Err EINTR)]) /\
  send_body 7 5 (line "a") 0 w =
    Done (Continue 0%nat)
         (after w ev EINTR (data_file w) [Sys SEND 7 [] (Err EINTR)]) /\
  write_body 5 (line "a") 0 w =
    Done (Continue 0%nat)
         (after w ev EINTR (data_file w) [Sys WRITE 5 [] (Err EINTR)]).
Proof.
  intros w ev. split; [split; reflexivity|].
  destruct (C5_interrupted_calls w ev [answers 2] eq_refl eq_refl)
    as (Ha & Hr & Hs & Hw).
  split; [exact (Ha 3 eq_refl)|].
  split; [exact (Hr 7 [] eq_refl)|].
  split; [apply (Hs 7 5 (line "a") 0%nat) | apply (Hw 5 (line "a") 0%nat)];
    vm_compute; lia.
Defined.

(** C9.  In any round of the receive loop, whatever the packet buffer holds:
    when [recv] delivers a chunk and the realloc that should make room for it
    fails, the loop is left at once.  The failure is logged and the buffer is
    freed; the chunk and the buffered bytes go nowhere: nothing is opened,
    written or sent, the file is as it was, and [handle_client] is left with
    an empty buffer to free. *)
Theorem C9_realloc_failure client_fd packet_buf w ev1 ev2 rest n e chunk :
  exit_requested w = 0 ->
  oracle w = ev1 :: ev2 :: rest ->
  answer ev1 = Ok n ->
  chunk = firstn (Nat.min n BUF_SIZE) (payload ev1) ->
  chunk <> [] ->
  answer ev2 = Err e ->
  exists w',
    while (handle_body client_fd) packet_buf w = Done [] w' /\
    new_trace w w' =
      [Sys RECV client_fd chunk (Ok (length chunk));
       Sys REALLOC (Z.of_nat (length packet_buf + length chunk)) [] (Err e);
       Log LOG_ERR "realloc() failed while growing packet buffer";
       Free packet_buf] /\
    data_file w' = data_file w /\
    oracle w' = rest.
Proof.
  intros Hx Ho Ha1 Hchunk Hne Ha2.
  destruct w as [xr er f t o]. simpl in Hx, Ho. subst xr o.
  destruct ev1 as [sigs1 ans1 pay1], ev2 as [sigs2 ans2 pay2].
  simpl in Ha1, Ha2, Hchunk. subst ans1 ans2.
  eexists. split; [|split; [|split]].
  - assert (Hpos : (Z.of_nat (length chunk) <? 0) = false /\
                   (Z.of_nat (length chunk) =? 0) = false).
    { split; [apply of_nat_ltb_0|].
      apply Z.eqb_neq. destruct chunk; [congruence|simpl; lia]. }
    destruct Hpos as [Hlt Hz].
    unfold while. simpl length. cbn [loop].
    unfold handle_body, recv, realloc, syslog, free, next_event, record,
      get_exit_requested, ret, bind.
    simpl. rewrite deliver_eq. simpl. rewrite <- Hchunk, Hlt, Hz.
    simpl. rewrite deliver_eq. simpl. reflexivity.
  - unfold new_trace. simpl. rewrite <- !app_assoc. simpl.
    rewrite skipn_length_app, Nat2Z.id. reflexivity.
  - reflexivity.
  - reflexivity.
Qed.

Lemma C9_realloc_failure_witness :
  let w := realloc_fails in
  exists w',
    while (handle_body 7) (bytes "a") w = Done [] w' /\
    new_trace w w' =
      [Sys RECV 7 (line "b" ++ bytes "c") (Ok 3);
       Sys REALLOC 4 [] (Err ENOMEM);
       Log LOG_ERR "realloc() failed while growing packet buffer";
       Free (bytes "a")] /\
    data_file w' = data_file w /\
    oracle w' = [].
Proof.
  apply (C9_realloc_failure 7 (bytes "a") realloc_fails
           (delivers (line "b" ++ bytes "c")) (fails ENOMEM) [] 3 ENOMEM
           (line "b" ++ bytes "c"));
    try reflexivity.
  vm_compute. discriminate.
Defined.

Lemma main_parts w r w' :
  main w = Done r w' ->
  exists w0 w1 res,
    serve w0 = Done res w1 /\
    cleanup (fst res) (snd res) w1 = Done r w' /\
    extends w0 w1 /\ extends w1 w' /\
    new_trace w w' = OpenLog :: new_trace w0 w1 ++ new_trace w1 w'.
Proof.
  intros H. unfold main in H. bind_inv H. apply record_new in Hc as [E0 N0].
  bind_inv H. destruct a0 as [ret_code server_fd].
  pose proof (sound_done _ _ _ _ sound_serve Hc) as E1.
  pose proof (sound_done _ _ _ _ (sound_cleanup _ _) H) as E2.
  exists w0, w1, (ret_code, server_fd).
  repeat (split; [assumption|]).
  rewrite (new_trace_trans _ _ _ E0 (extends_trans _ _ _ E1 E2)), N0.
  rewrite (new_trace_trans _ _ _ E1 E2). reflexivity.
Qed.

Lemma extends_flag_kept w w' :
  extends w w' -> exit_requested w <> 0 -> exit_requested w' <> 0.
Proof.
  intros (_ & _ & Hx & _) Hne. rewrite Hx.
  destruct (latch_cases (flat_map signals (used_events w w')) (exit_requested w))
    as [-> | ->]; [exact Hne|discriminate].
Qed.

Lemma remove_entries_not_listen rr :
  existsb is_listen_ok (remove_entries rr ++ [CloseLog]) = false.
Proof.
  destruct rr as [n|e]; simpl; [reflexivity|].
  destruct (e =? ENOENT); reflexivity.
Qed.

(** C7.  When [main] returns after the setup succeeded (after [listen]
    returned 0, so that the accept loop ran and was left), the flag is set,
    the exit code is 0, and the last things the process did are: close the
    socket that [socket] returned, call [remove] on the data file, logging an
    error only if it failed with an errno other than ENOENT, and close the
    log.  The file is absent afterwards unless [remove] itself failed.  When
    [main] returns without [listen] having succeeded, the exit code is -1. *)
Theorem C7_orderly_shutdown w r w' :
  main w = Done r w' ->
  (existsb is_listen_ok (new_trace w w') = true ->
   r = 0 /\
   exit_requested w' <> 0 /\
   exists t n rc rr,
     In (Sys SOCKET 0 [] (Ok n)) t /\
     new_trace w w' =
       t ++ close_entries (Z.of_nat n) rc ++ remove_entries rr ++ [CloseLog] /\
     (data_file w' = None \/ exists e, rr = Err e) /\
     (rr = Err ENOENT -> remove_entries rr = [Sys REMOVE 0 [] (Err ENOENT)])) /\
  (existsb is_listen_ok (new_trace w w') = false -> r = -1).
Proof.
  intros H.
  destruct (main_parts _ _ _ H) as (w0 & w1 & res & Hs & Hc & E1 & E2 & N).
  destruct (cleanup_spec _ _ _ _ _ Hc)
    as (-> & tc & rr & Nc & Hnone & Hsome & Hfile & _).
  rewrite N, Nc.
  destruct (serve_spec _ _ _ Hs) as [(Hr & Hx & Hl & n & Hfd & Hin)|(Hr & Hno)].
  - split.
    + intros _. split; [exact Hr|].
      split; [apply (extends_flag_kept _ _ E2 Hx)|].
      destruct (Hsome ltac:(rewrite Hfd; lia)) as [rc ->].
      exists (OpenLog :: new_trace w0 w1), n, rc, rr.
      rewrite Hfd. split; [right; exact Hin|].
      split; [|split; [exact Hfile|intros ->; reflexivity]].
      simpl. rewrite <- ?app_assoc. reflexivity.
    + intros Hl'. exfalso. cbn [existsb is_listen_ok orb] in Hl'.
      rewrite existsb_app, Hl in Hl'. discriminate Hl'.
  - split; [|intros _; exact Hr].
    intros Hl. exfalso. cbn [existsb is_listen_ok orb] in Hl.
    rewrite !existsb_app, Hno in Hl.
    rewrite <- existsb_app, remove_entries_not_listen, orb_false_r in Hl.
    cbn [orb] in Hl.
    destruct (Z.eq_dec (snd res) (-1)) as [Heq|Hne].
    + rewrite (Hnone Heq) in Hl. discriminate Hl.
    + destruct (Hsome Hne) as [rc ->]. destruct rc; discriminate Hl.
Qed.

Lemma C7_orderly_shutdown_witness :
  let w := one_client in
  let w' := final (main one_client) one_client in
  main w = Done 0 w' /\
  existsb is_listen_ok (new_trace w w') = true /\
  0 = 0 /\
  exit_requested w' <> 0 /\
  exists t n rc rr,
    In (Sys SOCKET 0 [] (Ok n)) t /\
    new_trace w w' =
      t ++ close_entries (Z.of_nat n) rc ++ remove_entries rr ++ [CloseLog] /\
    (data_file w' = None \/ exists e, rr = Err e) /\
    (rr = Err ENOENT -> remove_entries rr = [Sys REMOVE 0 [] (Err ENOENT)]).
Proof.
  intros w w'.
  assert (Hrun : main w = Done 0 w') by (vm_compute; reflexivity).
  assert (Hl : existsb is_listen_ok (new_trace w w') = true)
    by (vm_compute; reflexivity).
  split; [exact Hrun|]. split; [exact Hl|].
  destruct (C7_orderly_shutdown w 0 w' Hrun) as [Hok _].
  exact (Hok Hl).
Defined.

(** C10.  On every path on which [main] returns, a failed setup included, the
    last things the process did are a call of [remove] on the data file and
    the closing of the log; between the two an error is logged only if
    [remove] failed with an errno other than ENOENT.  The file is absent
    afterwards unless [remove] itself failed. *)
Theorem C10_removal_on_every_exit w r w' :
  main w = Done r w' ->
  exists t rr,
    new_trace w w' = t ++ remove_entries rr ++ [CloseLog] /\
    (data_file w' = None \/ exists e, rr = Err e) /\
    remove_entries (Err ENOENT) = [Sys REMOVE 0 [] (Err ENOENT)] /\
    forall n, remove_entries (Ok n) = [Sys REMOVE 0 [] (Ok n)].
Proof.
  intros H.
  destruct (main_parts _ _ _ H) as (w0 & w1 & res & Hs & Hc & E1 & E2 & N).
  destruct (cleanup_spec _ _ _ _ _ Hc)
    as (_ & tc & rr & Nc & _ & _ & Hfile & _).
  exists (OpenLog :: new_trace w0 w1 ++ tc), rr.
  split; [|split; [exact Hfile|split; reflexivity]].
  rewrite N, Nc. simpl. rewrite <- ?app_assoc. reflexivity.
Qed.

Lemma C10_removal_on_every_exit_witness :
  let w := setup_fails in
  let w' := final (main setup_fails) setup_fails in
  main w = Done (-1) w' /\
  exists t rr,
    new_trace w w' = t ++ remove_entries rr ++ [CloseLog] /\
    (data_file w' = None \/ exists e, rr = Err e) /\
    remove_entries (Err ENOENT) = [Sys REMOVE 0 [] (Err ENOENT)] /\
    forall n, remove_entries (Ok n) = [Sys REMOVE 0 [] (Ok n)].
Proof.
  split; [vm_compute; reflexivity|].
  apply (C10_removal_on_every_exit setup_fails (-1)
           (final (main setup_fails) setup_fails)).
  vm_compute. reflexivity.
Defined.



(** * Further properties *)

(** ** The data file follows the history *)

Lemma replay_app a b f : replay (a ++ b) f = replay b (replay a f).
Proof. apply fold_left_app. Qed.

Lemma replay_one e f : replay [e] f = file_step f e.
Proof. reflexivity. Qed.

Lemma preserves_ret I {A} (a : A) : preserves I (ret a).
Proof. intros w b w' HI H. apply ret_done in H as [_ ->]. exact HI. Qed.

Lemma preserves_bind I {A B} (m : M A) (f : A -> M B) :
  preserves I m -> (forall a, preserves I (f a)) -> preserves I (bind m f).
Proof.
  intros Hm Hf w b w' HI H. apply bind_done in H as (a & w1 & H1 & H2).
  exact (Hf a _ _ _ (Hm _ _ _ HI H1) H2).
Qed.

Lemma preserves_loop I {S R} (body : S -> M (ctl S R)) :
  (forall s, preserves I (body s)) ->
  forall fuel s, preserves I (loop fuel body s).
Proof.
  intros Hb. induction fuel as [|fuel IH]; intros s w r w' HI H; [discriminate|].
  simpl in H. apply bind_done in H as (c & w1 & H1 & H2).
  pose proof (Hb s _ _ _ HI H1) as HI1. destruct c as [s'|r0].
  - exact (IH s' _ _ _ HI1 H2).
  - apply ret_done in H2 as [_ ->]. exact HI1.
Qed.

Lemma preserves_while I {S R} (body : S -> M (ctl S R)) s :
  (forall s, preserves I (body s)) -> preserves I (while body s).
Proof. intros Hb w r w' HI H. exact (preserves_loop I body Hb _ s w r w' HI H). Qed.

Lemma follows_refl w : follows w w.
Proof. exists []. split; [symmetry; apply app_nil_r|reflexivity]. Qed.

Lemma follows_new w0 w :
  follows w0 w ->
  trace w = trace w0 ++ new_trace w0 w /\
  data_file w = replay (new_trace w0 w) (data_file w0).
Proof.
  intros (new & Ht & Hf). unfold new_trace. rewrite Ht, skipn_length_app. auto.
Qed.

(** A call that returns in [after w ev e f new] keeps the file on the history
    when [f] is what [new] makes of the file. *)
Lemma follows_after w0 w ev e f new :
  follows w0 w -> f = replay new (data_file w) ->
  follows w0 (after w ev e f new).
Proof.
  intros (old & Ht & Hf) ->. exists (old ++ new). unfold after. simpl.
  rewrite Ht, replay_app, <- Hf, app_assoc. auto.
Qed.

Lemma follows_record w0 e :
  (forall f, file_step f e = f) -> preserves (follows w0) (record e).
Proof.
  intros He w u w' (old & Ht & Hf) H. apply record_done in H. subst w'.
  exists (old ++ [e]). simpl. rewrite Ht, replay_app, <- Hf, app_assoc.
  simpl. rewrite He. auto.
Qed.

Lemma follows_sys w0 c arg :
  (forall f r, file_step f (Sys c arg [] r) = f) ->
  preserves (follows w0) (sys c arg).
Proof.
  intros Hc w r w' HI H. apply sys_done in H as (ev & _ & H).
  destruct (answer ev); destruct H as [_ ->];
    (apply follows_after; [exact HI|rewrite replay_one, Hc; reflexivity]).
Qed.

Lemma follows_open_append w0 : preserves (follows w0) open_append.
Proof.
  intros w r w' HI H. apply open_append_done in H as (ev & _ & H).
  destruct (answer ev); destruct H as [_ ->];
    (apply follows_after; [exact HI|reflexivity]).
Qed.

Lemma follows_open_rdonly w0 : preserves (follows w0) open_rdonly.
Proof.
  intros w r w' HI H. apply open_rdonly_done in H as (ev & _ & H).
  destruct (answer ev); [destruct (data_file w) eqn:Hf|];
    destruct H as [_ ->];
    (apply follows_after; [exact HI|simpl; auto]).
Qed.

Lemma follows_write w0 fd buf : preserves (follows w0) (write fd buf).
Proof.
  intros w r w' HI H. apply write_done in H as (ev & _ & H).
  destruct (answer ev); destruct H as [_ ->];
    (apply follows_after; [exact HI|reflexivity]).
Qed.

Lemma follows_read w0 fd off count : preserves (follows w0) (read fd off count).
Proof.
  intros w [r buf] w' HI H. apply read_done in H as (ev & _ & H).
  destruct (answer ev); destruct H as (_ & _ & ->);
    (apply follows_after; [exact HI|reflexivity]).
Qed.

Lemma follows_send w0 fd buf : preserves (follows w0) (send fd buf).
Proof.
  intros w r w' HI H. apply send_done in H as (ev & _ & H).
  destruct (answer ev); destruct H as [_ ->];
    (apply follows_after; [exact HI|reflexivity]).
Qed.

Lemma follows_recv w0 fd : preserves (follows w0) (recv fd).
Proof.
  intros w [r buf] w' HI H. apply recv_done in H as (ev & _ & H).
  destruct (answer ev); destruct H as (_ & _ & ->);
    (apply follows_after; [exact HI|reflexivity]).
Qed.

Lemma follows_realloc w0 c size :
  (forall f r, file_step f (Sys c (Z.of_nat size) [] r) = f) ->
  preserves (follows w0) (realloc c size).
Proof.
  intros Hc w r w' HI H. apply realloc_done in H as (ev & _ & -> & _).
  apply follows_after; [exact HI|]. rewrite replay_one, Hc. reflexivity.
Qed.

Lemma follows_remove w0 : preserves (follows w0) remove.
Proof.
  intros w r w' HI H. apply remove_done in H as (ev & _ & H).
  destruct (answer ev); [destruct (data_file w) eqn:Hf|];
    destruct H as [_ ->];
    (apply follows_after; [exact HI|simpl; auto]).
Qed.

Lemma follows_get {A} (g : world -> A) w0 :
  preserves (follows w0) (fun w => Done (g w) w).
Proof. intros w a w' HI H. inversion H. subst. exact HI. Qed.

Ltac follows_step :=
  match goal with
  | |- preserves _ (bind _ _) => apply preserves_bind
  | |- preserves _ (ret _) => apply preserves_ret
  | |- preserves _ get_exit_requested => apply (follows_get exit_requested)
  | |- preserves _ get_errno => apply (follows_get errno)
  | |- preserves _ (syslog _ _) => apply follows_record; reflexivity
  | |- preserves _ (free _) => apply follows_record; reflexivity
  | |- preserves _ openlog => apply follows_record; reflexivity
  | |- preserves _ closelog => apply follows_record; reflexivity
  | |- preserves _ (sys _ _) => apply follows_sys; reflexivity
  | |- preserves _ (close _) => apply follows_sys; reflexivity
  | |- preserves _ open_append => apply follows_open_append
  | |- preserves _ open_rdonly => apply follows_open_rdonly
  | |- preserves _ (write _ _) => apply follows_write
  | |- preserves _ (read _ _ _) => apply follows_read
  | |- preserves _ (send _ _) => apply follows_send
  | |- preserves _ (recv _) => apply follows_recv
  | |- preserves _ (realloc _ _) => apply follows_realloc; reflexivity
  | |- preserves _ remove => apply follows_remove
  | |- preserves _ (while _ _) => apply preserves_while
  | |- preserves _ (if ?b then _ else _) => destruct b
  | |- preserves _ (match ?x with _ => _ end) => destruct x
  | |- forall _, _ => intro
  end.

Ltac follows_tac := repeat follows_step.

Lemma follows_append_to_file w0 data :
  preserves (follows w0) (append_to_file data).
Proof. unfold append_to_file. follows_tac. unfold write_body. follows_tac. Qed.

Lemma follows_send_file_contents w0 client_fd :
  preserves (follows w0) (send_file_contents client_fd).
Proof.
  unfold send_file_contents. follows_tac. unfold read_body. follows_tac.
  unfold send_body. follows_tac.
Qed.

Lemma follows_scan w0 client_fd packet_buf n :
  forall i start, preserves (follows w0) (scan client_fd packet_buf n i start).
Proof.
  induction n as [|n IH]; intros i start; simpl; follows_tac;
    auto using follows_append_to_file, follows_send_file_contents.
Qed.

Lemma follows_handle_client w0 client_fd :
  preserves (follows w0) (handle_client client_fd).
Proof.
  unfold handle_client. follows_tac. unfold handle_body. follows_tac.
  apply follows_scan.
Qed.

Lemma follows_accept_loop w0 server_fd :
  preserves (follows w0) (while (accept_body server_fd) tt).
Proof.
  follows_tac. unfold accept_body. follows_tac. apply follows_handle_client.
Qed.

Lemma follows_main w0 : preserves (follows w0) main.
Proof.
  unfold main. follows_tac.
  - unfold serve. follows_tac. unfold accept_body. follows_tac.
    apply follows_handle_client.
  - unfold cleanup. follows_tac.
Qed.

(** ** The scan of the packet buffer stays inside the buffer *)

Lemma scan_range client_fd packet_buf n :
  forall i start w start' w',
    (start <= i)%nat ->
    scan client_fd packet_buf n i start w = Done start' w' ->
    (start' = start \/
     ((start < start')%nat /\ nth (start' - 1) packet_buf x00 = NL)) /\
    (start' <= i + n)%nat.
Proof.
  induction n as [|n IH]; intros i start w start' w' Hle H; simpl in H.
  - ret_inv H. split; [left; reflexivity|lia].
  - destruct (Byte.eqb (nth i packet_buf x00) NL) eqn:Hnl.
    + apply Byte.byte_dec_bl in Hnl.
      assert (Hend : (start < i + 1)%nat /\
                     nth (i + 1 - 1) packet_buf x00 = NL).
      { split; [lia|]. replace (i + 1 - 1)%nat with i by lia. exact Hnl. }
      bind_inv H. destruct (negb (a =? 0)).
      { ret_inv H. split; [right; exact Hend|lia]. }
      bind_inv H. destruct (negb (a0 =? 0)).
      { ret_inv H. split; [right; exact Hend|lia]. }
      apply IH in H; [|lia]. destruct H as [[-> | [Hlt Hn]] Hb].
      * split; [right; exact Hend|lia].
      * split; [right; split; [lia|exact Hn]|lia].
    + apply IH in H; [|lia]. destruct H as [H Hb]. split; [exact H|lia].
Qed.

(** X1.  The scan of [handle_client] never moves [start] backwards or past the
    end of the buffer, and it moves it only to the byte after a delimiter:
    the guard [start <= packet_size] of the compaction always holds and the
    [memmove] reads inside the buffer. *)
Theorem scan_stays_in_buffer client_fd packet_buf start w w' :
  scan client_fd packet_buf (length packet_buf) 0 0 w = Done start w' ->
  (start <= length packet_buf)%nat /\
  ((0 <? start)%nat && (start <=? length packet_buf)%nat = (0 <? start)%nat) /\
  (start = 0%nat \/ nth (start - 1) packet_buf x00 = NL).
Proof.
  intros H. apply scan_range in H; [|lia]. destruct H as [H Hb].
  simpl in Hb. split; [exact Hb|]. split.
  - apply Nat.leb_le in Hb. rewrite Hb. apply andb_true_r.
  - destruct H as [->|[_ H]]; auto.
Qed.

Lemma scan_stays_in_buffer_witness :
  let buf := line "a" ++ bytes "b" in
  let w' := final (scan 7 buf 3 0 0 packet_and_a_half) packet_and_a_half in
  (2 <= length buf)%nat /\
  ((0 <? 2)%nat && (2 <=? length buf)%nat = (0 <? 2)%nat) /\
  (2%nat = 0%nat \/ nth (2 - 1) buf x00 = NL).
Proof.
  apply (scan_stays_in_buffer 7 (line "a" ++ bytes "b") 2 packet_and_a_half
           (final (scan 7 (line "a" ++ bytes "b") 3 0 0 packet_and_a_half)
                  packet_and_a_half)).
  vm_compute. reflexivity.
Defined.

(** ** What each call adds to the history *)

Lemma chain w w1 w2 t1 t2 :
  extends w w1 -> new_trace w w1 = t1 ->
  extends w1 w2 -> new_trace w1 w2 = t2 ->
  extends w w2 /\ new_trace w w2 = t1 ++ t2.
Proof.
  intros E1 N1 E2 N2. split; [exact (extends_trans _ _ _ E1 E2)|].
  rewrite (new_trace_trans _ _ _ E1 E2), N1, N2. reflexivity.
Qed.

Lemma open_append_cases w r w1 :
  open_append w = Done r w1 ->
  extends w w1 /\
  exists o,
    new_trace w w1 = [Sys OPEN_APPEND 0 [] o] /\
    match o with
    | Ok n => r = Z.of_nat n /\ data_file w1 = Some (contents w)
    | Err e => r = -1 /\ errno w1 = e /\ data_file w1 = data_file w
    end.
Proof.
  intros H. apply open_append_done in H as (ev & Hhd & H).
  destruct (answer ev) as [n|e]; destruct H as [-> ->].
  - destruct (after_modified w ev (errno w) (Some (contents w))
                [Sys OPEN_APPEND 0 [] (Ok n)] Hhd eq_refl) as (E & N & _).
    split; [exact E|]. exists (Ok n). auto.
  - destruct (after_same w ev e [Sys OPEN_APPEND 0 [] (Err e)] Hhd)
      as (E & N & _).
    split; [exact E|]. exists (Err e). auto.
Qed.

Lemma open_rdonly_cases w r w1 :
  open_rdonly w = Done r w1 ->
  extends w w1 /\ data_file w1 = data_file w /\
  exists o,
    new_trace w w1 = [Sys OPEN_RDONLY 0 [] o] /\
    match o with
    | Ok n => r = Z.of_nat n /\ data_file w <> None
    | Err e => r = -1 /\ errno w1 = e
    end.
Proof.
  intros H. apply open_rdonly_done in H as (ev & Hhd & H).
  destruct (answer ev) as [n|e]; [destruct (data_file w) eqn:Hf|];
    destruct H as [-> ->].
  - destruct (after_same w ev (errno w) [Sys OPEN_RDONLY 0 [] (Ok n)] Hhd)
      as (E & N & _).
    rewrite Hf in *. split; [exact E|]. split; [reflexivity|].
    exists (Ok n). split; [exact N|]. split; [reflexivity|discriminate].
  - destruct (after_same w ev ENOENT [Sys OPEN_RDONLY 0 [] (Err ENOENT)] Hhd)
      as (E & N & _).
    rewrite Hf in *. split; [exact E|]. split; [reflexivity|].
    exists (Err ENOENT). auto.
  - destruct (after_same w ev e [Sys OPEN_RDONLY 0 [] (Err e)] Hhd)
      as (E & N & _).
    split; [exact E|]. split; [reflexivity|]. exists (Err e). auto.
Qed.

Lemma write_cases fd buf w r w1 :
  write fd buf w = Done r w1 ->
  extends w w1 /\
  exists d o,
    new_trace w w1 = [Sys WRITE fd d o] /\
    match o with
    | Ok n => (exists k, d = firstn k buf) /\ n = length d /\
              r = Z.of_nat n /\ data_file w1 = Some (contents w ++ d)
    | Err e => d = [] /\ r = -1 /\ errno w1 = e /\ data_file w1 = data_file w
    end.
Proof.
  intros H. apply write_done in H as (ev & Hhd & H).
  destruct (answer ev) as [n|e]; destruct H as [-> ->].
  - destruct (after_modified w ev (errno w)
                (Some (contents w ++ firstn n buf))
                [Sys WRITE fd (firstn n buf) (Ok (length (firstn n buf)))]
                Hhd eq_refl) as (E & N & _).
    split; [exact E|]. exists (firstn n buf), (Ok (length (firstn n buf))).
    split; [exact N|]. split; [exists n; reflexivity|auto].
  - destruct (after_same w ev e [Sys WRITE fd [] (Err e)] Hhd) as (E & N & _).
    split; [exact E|]. exists [], (Err e). auto.
Qed.

Lemma read_cases fd off count w r buf w1 :
  read fd off count w = Done (r, buf) w1 ->
  extends w w1 /\ data_file w1 = data_file w /\
  exists o,
    new_trace w w1 = [Sys READ fd buf o] /\
    match o with
    | Ok n => (exists k, buf = firstn (Nat.min (Nat.max k 1) count)
                                      (skipn off (contents w))) /\
              n = length buf /\ r = Z.of_nat n
    | Err e => buf = [] /\ r = -1 /\ errno w1 = e
    end.
Proof.
  intros H. apply read_done in H as (ev & Hhd & H).
  destruct (answer ev) as [n|e]; destruct H as (Hb & -> & ->).
  - destruct (after_same w ev (errno w) [Sys READ fd buf (Ok (length buf))] Hhd)
      as (E & N & _).
    split; [exact E|]. split; [reflexivity|]. exists (Ok (length buf)).
    split; [exact N|]. split; [exists n; exact Hb|auto].
  - subst buf.
    destruct (after_same w ev e [Sys READ fd [] (Err e)] Hhd) as (E & N & _).
    split; [exact E|]. split; [reflexivity|]. exists (Err e). auto.
Qed.

Lemma send_cases fd buf w r w1 :
  send fd buf w = Done r w1 ->
  extends w w1 /\ data_file w1 = data_file w /\
  exists d o,
    new_trace w w1 = [Sys SEND fd d o] /\
    match o with
    | Ok n => (exists k, d = firstn k buf) /\ n = length d /\ r = Z.of_nat n
    | Err e => d = [] /\ r = -1 /\ errno w1 = e
    end.
Proof.
  intros H. apply send_done in H as (ev & Hhd & H).
  destruct (answer ev) as [n|e]; destruct H as [-> ->].
  - destruct (after_same w ev (errno w)
                [Sys SEND fd (firstn n buf) (Ok (length (firstn n buf)))] Hhd)
      as (E & N & _).
    split; [exact E|]. split; [reflexivity|].
    exists (firstn n buf), (Ok (length (firstn n buf))).
    split; [exact N|]. split; [exists n; reflexivity|auto].
  - destruct (after_same w ev e [Sys SEND fd [] (Err e)] Hhd) as (E & N & _).
    split; [exact E|]. split; [reflexivity|]. exists [], (Err e). auto.
Qed.

Lemma recv_cases fd w r buf w1 :
  recv fd w = Done (r, buf) w1 ->
  extends w w1 /\ data_file w1 = data_file w /\
  exists o,
    new_trace w w1 = [Sys RECV fd buf o] /\
    match o with
    | Ok n => (length buf <= BUF_SIZE)%nat /\ n = length buf /\ r = Z.of_nat n
    | Err e => buf = [] /\ r = -1 /\ errno w1 = e
    end.
Proof.
  intros H. apply recv_done in H as (ev & Hhd & H).
  destruct (answer ev) as [n|e]; destruct H as (Hb & -> & ->).
  - destruct (after_same w ev (errno w) [Sys RECV fd buf (Ok (length buf))] Hhd)
      as (E & N & _).
    split; [exact E|]. split; [reflexivity|]. exists (Ok (length buf)).
    split; [exact N|]. split; [|auto].
    subst buf. rewrite length_firstn. lia.
  - subst buf.
    destruct (after_same w ev e [Sys RECV fd [] (Err e)] Hhd) as (E & N & _).
    split; [exact E|]. split; [reflexivity|]. exists (Err e). auto.
Qed.

Lemma realloc_cases c size w r w1 :
  realloc c size w = Done r w1 ->
  extends w w1 /\ data_file w1 = data_file w /\
  exists o,
    new_trace w w1 = [Sys c (Z.of_nat size) [] o] /\
    r = match o with Ok _ => true | Err _ => false end.
Proof.
  intros H. apply realloc_done in H as (ev & Hhd & -> & ->).
  destruct (after_same w ev (errno w)
              [Sys c (Z.of_nat size) [] (answer ev)] Hhd) as (E & N & _).
  split; [exact E|]. split; [reflexivity|]. exists (answer ev). auto.
Qed.

Lemma remove_cases w r w1 :
  remove w = Done r w1 ->
  extends w w1 /\
  exists o,
    new_trace w w1 = [Sys REMOVE 0 [] o] /\
    match o with
    | Ok _ => r = 0 /\ data_file w1 = None
    | Err e => r = -1 /\ errno w1 = e /\ data_file w1 = data_file w
    end.
Proof.
  intros H. apply remove_done in H as (ev & Hhd & H).
  destruct (answer ev) as [n|e]; [destruct (data_file w) eqn:Hf|];
    destruct H as [-> ->].
  - destruct (after_modified w ev (errno w) None [Sys REMOVE 0 [] (Ok 0)]
                Hhd eq_refl) as (E & N & _).
    split; [exact E|]. exists (Ok 0%nat). auto.
  - destruct (after_modified w ev ENOENT None [Sys REMOVE 0 [] (Err ENOENT)]
                Hhd eq_refl) as (E & N & _).
    split; [exact E|]. exists (Err ENOENT). auto.
  - destruct (after_modified w ev e (data_file w) [Sys REMOVE 0 [] (Err e)]
                Hhd eq_refl) as (E & N & _).
    split; [exact E|]. exists (Err e). auto.
Qed.

Lemma get_errno_done w e w' : get_errno w = Done e w' -> e = errno w /\ w' = w.
Proof. unfold get_errno. intros H. inversion H. auto. Qed.

Lemma get_exit_requested_done w x w' :
  get_exit_requested w = Done x w' -> x = exit_requested w /\ w' = w.
Proof. unfold get_exit_requested. intros H. inversion H. auto. Qed.

(** The error path that logs, closes the data file and returns. *)
Lemma log_close_tail {A} msg fd (v : A) w a w' :
  (syslog LOG_ERR msg ;; _ <- close fd ;; ret v) w = Done a w' ->
  a = v /\ extends w w' /\ data_file w' = data_file w /\
  exists o, new_trace w w' = [Log LOG_ERR msg; Sys CLOSE fd [] o].
Proof.
  intros H. bind_inv H. apply record_new in Hc as [E1 N1].
  pose proof (extends_file _ _ E1) as F1. rewrite N1 in F1.
  specialize (F1 eq_refl).
  bind_inv H. apply sys_cases in Hc as (E2 & F2 & o & N2 & _).
  apply ret_done in H as [-> ->].
  destruct (chain _ _ _ _ _ E1 N1 E2 N2) as [E N].
  split; [reflexivity|]. split; [exact E|]. split; [congruence|].
  exists o. exact N.
Qed.

(** The error path that logs and returns. *)
Lemma log_tail {A} prio msg (v : A) w a w' :
  (syslog prio msg ;; ret v) w = Done a w' ->
  a = v /\ extends w w' /\ data_file w' = data_file w /\
  errno w' = errno w /\ new_trace w w' = [Log prio msg].
Proof.
  intros H. bind_inv H. pose proof (record_done _ _ _ _ Hc) as Hw.
  apply record_new in Hc as [E1 N1].
  apply ret_done in H as [-> ->]. subst w0. simpl. auto.
Qed.

(** ** The file only grows while clients are served *)

Lemma file_step_grows f e :
  removes e = false ->
  file_bytes (file_step f e) = file_bytes f ++ written_bytes [e] /\
  (f <> None -> file_step f e <> None).
Proof.
  destruct e as [[] arg d [n|x]| | | |]; destruct f; simpl; intros Hr;
    rewrite ?app_nil_r; try discriminate; split; auto; discriminate.
Qed.

Lemma replay_grows t :
  forall f,
    existsb removes t = false ->
    file_bytes (replay t f) = file_bytes f ++ written_bytes t /\
    (f <> None -> replay t f <> None).
Proof.
  induction t as [|e t IH]; intros f Hr.
  - simpl. rewrite app_nil_r. auto.
  - simpl in Hr. apply orb_false_iff in Hr as [He Ht].
    destruct (file_step_grows f e He) as [Hb Hs].
    destruct (IH (file_step f e) Ht) as [Hb' Hs'].
    change (replay (e :: t) f) with (replay t (file_step f e)).
    split; [|auto].
    rewrite Hb', Hb. change (e :: t) with ([e] ++ t).
    unfold written_bytes. rewrite flat_map_app, app_assoc. reflexivity.
Qed.

Lemma follows_grows w w' :
  follows w w' ->
  existsb removes (new_trace w w') = false ->
  contents w' = contents w ++ written_bytes (new_trace w w') /\
  (data_file w <> None -> data_file w' <> None).
Proof.
  intros Hf Hr. apply follows_new in Hf as [_ Hf].
  unfold contents. rewrite Hf. apply (replay_grows _ _ Hr).
Qed.

Lemma client_call_keeps t :
  forallb client_call t = true -> existsb removes t = false.
Proof.
  induction t as [|e t IH]; simpl; [reflexivity|].
  intros H. apply andb_true_iff in H as [He Ht]. rewrite (IH Ht).
  destruct e as [[] ? ? []| | | |]; simpl in *; auto; discriminate.
Qed.

Lemma append_call_client t :
  forallb append_call t = true -> forallb client_call t = true.
Proof.
  intros H. rewrite forallb_forall in *. intros e He. specialize (H e He).
  destruct e as [[] ? ? ?| | | |]; simpl in *; auto; discriminate.
Qed.

(** ** The histories of append_to_file *)

Lemma firstn_length_firstn {A} n (l : list A) :
  firstn (length (firstn n l)) l = firstn n l.
Proof.
  revert n. induction l as [|x l IH]; intros [|n]; simpl; auto.
  f_equal. apply IH.
Qed.

Lemma firstn_add_skipn {A} a b (l : list A) :
  firstn a l ++ firstn b (skipn a l) = firstn (a + b) l.
Proof.
  revert l. induction a as [|a IH]; intros l; simpl; [reflexivity|].
  destruct l as [|x l]; simpl.
  - rewrite firstn_nil. reflexivity.
  - f_equal. apply IH.
Qed.

Lemma firstn_skipn_join {A} i j k (l : list A) :
  (i <= j <= k)%nat ->
  firstn (j - i) (skipn i l) ++ firstn (k - j) (skipn j l) =
  firstn (k - i) (skipn i l).
Proof.
  intros H. replace (skipn j l) with (skipn (j - i) (skipn i l)).
  - rewrite firstn_add_skipn. f_equal. lia.
  - rewrite skipn_skipn. f_equal. lia.
Qed.

Lemma write_body_trace fd data written w k w1 :
  write_body fd data written w = Done k w1 ->
  extends w w1 /\
  match k with
  | Continue s' =>
      (written < length data)%nat /\ (written <= s' <= length data)%nat /\
      exists e1,
        new_trace w w1 = [e1] /\ write_retry fd e1 = true /\
        written_bytes [e1] = firstn (s' - written) (skipn written data)
  | Break r =>
      (r = 0 /\ (length data <= written)%nat /\ new_trace w w1 = []) \/
      (r = -1 /\ (written < length data)%nat /\
       exists e o,
         e <> EINTR /\
         new_trace w w1 =
           [Sys WRITE fd [] (Err e); Log LOG_ERR "write(%s) failed: %s";
            Sys CLOSE fd [] o])
  end.
Proof.
  intros H. unfold write_body in H.
  destruct (written <? length data)%nat eqn:Hlt.
  - apply Nat.ltb_lt in Hlt. bind_inv H.
    apply write_cases in Hc as (E1 & d & o & N1 & Ho).
    destruct o as [n|e].
    + destruct Ho as ((k0 & Hd) & Hn & -> & _).
      rewrite of_nat_ltb_0 in H. apply ret_done in H as [-> ->].
      split; [exact E1|]. split; [exact Hlt|]. rewrite Nat2Z.id.
      assert (Hlen : (n <= length data - written)%nat).
      { subst n d. rewrite length_firstn, length_skipn. lia. }
      split; [lia|]. exists (Sys WRITE fd d (Ok n)).
      split; [exact N1|]. split; [apply Z.eqb_refl|].
      simpl. rewrite app_nil_r.
      replace (written + n - written)%nat with n by lia.
      subst n d. symmetry. apply firstn_length_firstn.
    + destruct Ho as (-> & -> & He & _).
      change (-1 <? 0) with true in H. cbv iota in H.
      bind_inv H. apply get_errno_done in Hc as [-> ->]. rewrite He in H.
      destruct (e =? EINTR) eqn:Hi.
      * apply ret_done in H as [-> ->].
        split; [exact E1|]. split; [exact Hlt|]. split; [lia|].
        exists (Sys WRITE fd [] (Err e)). split; [exact N1|].
        split; [simpl; rewrite Z.eqb_refl, Hi; reflexivity|].
        rewrite Nat.sub_diag. reflexivity.
      * apply log_close_tail in H as (-> & E2 & _ & o & N2).
        destruct (chain _ _ _ _ _ E1 N1 E2 N2) as [E N].
        split; [exact E|]. right. split; [reflexivity|]. split; [exact Hlt|].
        exists e, o. split; [|exact N].
        intros ->. discriminate.
  - apply Nat.ltb_ge in Hlt. apply ret_done in H as [-> ->].
    split; [apply extends_refl|]. left.
    split; [reflexivity|]. split; [exact Hlt|apply new_trace_refl].
Qed.

Lemma write_loop_trace fd data fuel :
  forall written w r w',
    loop fuel (write_body fd data) written w = Done r w' ->
    (written <= length data)%nat ->
    extends w w' /\
    exists ws k,
      forallb (write_retry fd) ws = true /\
      (written <= k <= length data)%nat /\
      written_bytes ws = firstn (k - written) (skipn written data) /\
      ((r = 0 /\ k = length data /\ new_trace w w' = ws) \/
       (r = -1 /\ (k < length data)%nat /\
        exists e o,
          e <> EINTR /\
          new_trace w w' =
            ws ++ [Sys WRITE fd [] (Err e); Log LOG_ERR "write(%s) failed: %s";
                   Sys CLOSE fd [] o])).
Proof.
  induction fuel as [|fuel IH]; intros written w r w' H Hle; [discriminate|].
  simpl in H. bind_inv H. apply write_body_trace in Hc as (E1 & Hk).
  destruct a as [s'|r0].
  - destruct Hk as (Hlt & Hs & e1 & N1 & R1 & B1).
    apply IH in H as (E2 & ws & k & Hws & Hk & Hb & Hr); [|lia].
    destruct (chain _ _ _ _ _ E1 N1 E2 eq_refl) as [E N].
    split; [exact E|]. exists (e1 :: ws), k.
    split; [simpl; rewrite R1, Hws; reflexivity|]. split; [lia|]. split.
    + change (e1 :: ws) with ([e1] ++ ws).
      unfold written_bytes in *. rewrite flat_map_app, B1, Hb.
      apply firstn_skipn_join. lia.
    + rewrite N. destruct Hr as [(-> & -> & ->)|(-> & Hlt' & e & o & He & ->)].
      * left. auto.
      * right. split; [reflexivity|]. split; [exact Hlt'|].
        exists e, o. auto.
  - apply ret_done in H as [-> ->]. split; [exact E1|].
    exists [], written. split; [reflexivity|]. split; [lia|].
    split; [rewrite Nat.sub_diag; reflexivity|].
    destruct Hk as [(-> & Hge & N)|(-> & Hlt & e & o & He & N)].
    + left. split; [reflexivity|]. split; [lia|exact N].
    + right. split; [reflexivity|]. split; [exact Hlt|]. exists e, o. auto.
Qed.

Lemma append_to_file_shape data w r w' :
  append_to_file data w = Done r w' ->
  append_trace data r (new_trace w w').
Proof.
  intros H. unfold append_to_file in H. bind_inv H.
  apply open_append_cases in Hc as (E1 & o & N1 & Ho).
  destruct o as [n|e].
  - destruct Ho as [-> _]. rewrite of_nat_eqb_m1 in H.
    bind_inv H. unfold while in Hc.
    apply write_loop_trace in Hc; [|lia].
    destruct Hc as (E2 & ws & k & Hws & Hk & Hb & Hr).
    rewrite Nat.sub_0_r in Hb. simpl in Hb.
    destruct Hr as [(-> & -> & N2)|(-> & Hlt & e & o & He & N2)].
    + rewrite firstn_all in Hb.
      change (0 =? -1) with false in H. cbv iota in H.
      destruct (chain _ _ _ _ _ E1 N1 E2 N2) as [E12 N12].
      bind_inv H. apply sys_cases in Hc as (E3 & _ & o & N3 & Ho).
      destruct (chain _ _ _ _ _ E12 N12 E3 N3) as [E13 N13].
      destruct Ho as [(m & -> & ->)|(e & -> & -> & _)].
      * rewrite of_nat_eqb_m1 in H. apply ret_done in H as [-> ->].
        rewrite N13. simpl. apply append_done; assumption.
      * change (-1 =? -1) with true in H. cbv iota in H.
        apply log_tail in H as (-> & E4 & _ & _ & N4).
        destruct (chain _ _ _ _ _ E13 N13 E4 N4) as [_ N].
        rewrite N. simpl. rewrite <- app_assoc. simpl.
        apply append_close_failed; assumption.
    + change (-1 =? -1) with true in H. cbv iota in H.
      apply ret_done in H as [-> ->].
      destruct (chain _ _ _ _ _ E1 N1 E2 N2) as [_ N].
      rewrite N. simpl. apply (append_write_failed data n ws k); assumption.
  - destruct Ho as (-> & _).
    change (-1 =? -1) with true in H. cbv iota in H.
    apply log_tail in H as (-> & E2 & _ & _ & N2).
    destruct (chain _ _ _ _ _ E1 N1 E2 N2) as [_ N].
    rewrite N. apply append_open_failed.
Qed.

Lemma append_trace_prefix data r t :
  append_trace data r t -> exists k, written_bytes t = firstn k data.
Proof.
  intros [e|n ws k e o Hws Hb Hk He|n ws e Hws Hb|n ws m Hws Hb];
    simpl; unfold written_bytes in *; rewrite ?flat_map_app; simpl;
    rewrite ?app_nil_r.
  - exists 0%nat. reflexivity.
  - exists k. exact Hb.
  - exists (length data). rewrite firstn_all. exact Hb.
  - exists (length data). rewrite firstn_all. exact Hb.
Qed.

(** X2.  Every history of [append_to_file]: a failed open is logged and
    nothing else is called; after a successful open there follow writes on the
    descriptor that was returned, then either a failed write (not an
    interruption) with its log line and one close, or one close, logged when
    it fails.  The bytes written are always a prefix of the record, the whole
    record unless a write failed, and the file holds what it held before
    followed by the bytes written: a failed write can leave a torn record at
    the end of the file, a failed close leaves the whole record although -1
    is returned. *)
Theorem append_to_file_histories data w r w' :
  append_to_file data w = Done r w' ->
  append_trace data r (new_trace w w') /\
  contents w' = contents w ++ written_bytes (new_trace w w') /\
  exists k, written_bytes (new_trace w w') = firstn k data.
Proof.
  intros H.
  pose proof (follows_append_to_file w data w r w' (follows_refl w) H) as Hf.
  destruct (sound_with_done _ _ _ _ _ (sound_append_to_file data) H) as [_ Hc].
  apply append_call_client, client_call_keeps in Hc.
  destruct (follows_grows _ _ Hf Hc) as [Hg _].
  pose proof (append_to_file_shape _ _ _ _ H) as Ht.
  split; [exact Ht|]. split; [exact Hg|].
  exact (append_trace_prefix _ _ _ Ht).
Qed.

Lemma append_to_file_histories_witness :
  let data := line "hello" in
  let w := torn_write in
  let w' := final (append_to_file data w) w in
  append_trace data (-1) (new_trace w w') /\
  contents w' = line "old" ++ bytes "he" /\
  exists k, written_bytes (new_trace w w') = firstn k data.
Proof.
  apply (append_to_file_histories (line "hello") torn_write (-1)
           (final (append_to_file (line "hello") torn_write) torn_write)).
  vm_compute. reflexivity.
Defined.

(** ** The histories of send_file_contents *)

Lemma send_body_trace client_fd fd buf sent_total w k w1 :
  send_body client_fd fd buf sent_total w = Done k w1 ->
  extends w w1 /\ data_file w1 = data_file w /\
  match k with
  | Continue s' =>
      (sent_total < length buf)%nat /\ (sent_total <= s' <= length buf)%nat /\
      exists e1,
        new_trace w w1 = [e1] /\ echo_retry client_fd fd e1 = true /\
        sent [e1] = firstn (s' - sent_total) (skipn sent_total buf)
  | Break r =>
      (r = 0 /\ (length buf <= sent_total)%nat /\ new_trace w w1 = []) \/
      (r = -1 /\ (sent_total < length buf)%nat /\
       exists e o,
         e <> EINTR /\
         new_trace w w1 =
           [Sys SEND client_fd [] (Err e); Log LOG_ERR "send() failed: %s";
            Sys CLOSE fd [] o])
  end.
Proof.
  intros H. unfold send_body in H.
  destruct (sent_total <? length buf)%nat eqn:Hlt.
  - apply Nat.ltb_lt in Hlt. bind_inv H.
    apply send_cases in Hc as (E1 & F1 & d & o & N1 & Ho).
    destruct o as [n|e].
    + destruct Ho as ((k0 & Hd) & Hn & ->).
      rewrite of_nat_ltb_0 in H. apply ret_done in H as [-> ->].
      split; [exact E1|]. split; [exact F1|]. split; [exact Hlt|].
      rewrite Nat2Z.id.
      assert (Hlen : (n <= length buf - sent_total)%nat).
      { subst n d. rewrite length_firstn, length_skipn. lia. }
      split; [lia|]. exists (Sys SEND client_fd d (Ok n)).
      split; [exact N1|]. split; [apply Z.eqb_refl|].
      simpl. rewrite app_nil_r.
      replace (sent_total + n - sent_total)%nat with n by lia.
      subst n d. symmetry. apply firstn_length_firstn.
    + destruct Ho as (-> & -> & He).
      change (-1 <? 0) with true in H. cbv iota in H.
      bind_inv H. apply get_errno_done in Hc as [-> ->]. rewrite He in H.
      destruct (e =? EINTR) eqn:Hi.
      * apply ret_done in H as [-> ->].
        split; [exact E1|]. split; [exact F1|]. split; [exact Hlt|].
        split; [lia|].
        exists (Sys SEND client_fd [] (Err e)). split; [exact N1|].
        split; [simpl; rewrite Z.eqb_refl, Hi; reflexivity|].
        rewrite Nat.sub_diag. reflexivity.
      * apply log_close_tail in H as (-> & E2 & F2 & o & N2).
        destruct (chain _ _ _ _ _ E1 N1 E2 N2) as [E N].
        split; [exact E|]. split; [congruence|].
        right. split; [reflexivity|]. split; [exact Hlt|].
        exists e, o. split; [|exact N].
        intros ->. discriminate.
  - apply Nat.ltb_ge in Hlt. apply ret_done in H as [-> ->].
    split; [apply extends_refl|]. split; [reflexivity|]. left.
    split; [reflexivity|]. split; [exact Hlt|apply new_trace_refl].
Qed.

Lemma send_loop_trace client_fd fd buf fuel :
  forall sent_total w r w',
    loop fuel (send_body client_fd fd buf) sent_total w = Done r w' ->
    (sent_total <= length buf)%nat ->
    extends w w' /\ data_file w' = data_file w /\
    exists t k,
      forallb (echo_retry client_fd fd) t = true /\
      (sent_total <= k <= length buf)%nat /\
      sent t = firstn (k - sent_total) (skipn sent_total buf) /\
      ((r = 0 /\ k = length buf /\ new_trace w w' = t) \/
       (r = -1 /\
        exists e o,
          e <> EINTR /\
          new_trace w w' =
            t ++ [Sys SEND client_fd [] (Err e); Log LOG_ERR "send() failed: %s";
                  Sys CLOSE fd [] o])).
Proof.
  induction fuel as [|fuel IH]; intros sent_total w r w' H Hle; [discriminate|].
  simpl in H. bind_inv H. apply send_body_trace in Hc as (E1 & F1 & Hk).
  destruct a as [s'|r0].
  - destruct Hk as (Hlt & Hs & e1 & N1 & R1 & B1).
    apply IH in H as (E2 & F2 & t & k & Ht & Hk & Hb & Hr); [|lia].
    destruct (chain _ _ _ _ _ E1 N1 E2 eq_refl) as [E N].
    split; [exact E|]. split; [congruence|]. exists (e1 :: t), k.
    split; [simpl; rewrite R1, Ht; reflexivity|]. split; [lia|]. split.
    + change (e1 :: t) with ([e1] ++ t).
      unfold sent in *. rewrite flat_map_app, B1, Hb.
      apply firstn_skipn_join. lia.
    + rewrite N. destruct Hr as [(-> & -> & ->)|(-> & e & o & He & ->)].
      * left. auto.
      * right. split; [reflexivity|]. exists e, o. auto.
  - apply ret_done in H as [-> ->]. split; [exact E1|]. split; [exact F1|].
    exists [], sent_total. split; [reflexivity|]. split; [lia|].
    split; [rewrite Nat.sub_diag; reflexivity|].
    destruct Hk as [(-> & Hge & N)|(-> & Hlt & e & o & He & N)].
    + left. split; [reflexivity|]. split; [lia|exact N].
    + right. split; [reflexivity|]. exists e, o. auto.
Qed.

Lemma read_body_trace client_fd fd off w k w1 :
  read_body client_fd fd off w = Done k w1 ->
  extends w w1 /\ data_file w1 = data_file w /\
  match k with
  | Continue off' =>
      (off <= off')%nat /\
      forallb (echo_retry client_fd fd) (new_trace w w1) = true /\
      sent (new_trace w w1) = firstn (off' - off) (skipn off (contents w))
  | Break (Return r) =>
      r = -1 /\
      exists t j e o,
        forallb (echo_retry client_fd fd) t = true /\
        sent t = firstn j (skipn off (contents w)) /\
        e <> EINTR /\
        new_trace w w1 =
          t ++ [Sys SEND client_fd [] (Err e); Log LOG_ERR "send() failed: %s";
                Sys CLOSE fd [] o]
  | Break (Exit bytes) =>
      (bytes = 0 /\ skipn off (contents w) = [] /\
       new_trace w w1 = [Sys READ fd [] (Ok 0)]) \/
      (bytes = -1 /\ exists e, new_trace w w1 = [Sys READ fd [] (Err e)])
  end.
Proof.
  intros H. unfold read_body in H. bind_inv H. destruct a as [bytes buf].
  apply read_cases in Hc as (E1 & F1 & o & N1 & Ho).
  destruct o as [n|e].
  - destruct Ho as ((k0 & Hb) & Hn & ->). simpl in H.
    destruct (0 <? Z.of_nat n) eqn:Hpos.
    + apply Z.ltb_lt in Hpos. bind_inv H. unfold while in Hc.
      apply send_loop_trace in Hc; [|lia].
      destruct Hc as (E2 & F2 & t & j & Ht & Hj & Hs & Hr).
      rewrite Nat.sub_0_r in Hs. simpl in Hs.
      assert (R1 : echo_retry client_fd fd (Sys READ fd buf (Ok n)) = true).
      { simpl. rewrite Z.eqb_refl. simpl. apply Nat.ltb_lt. lia. }
      destruct Hr as [(-> & -> & N2)|(-> & e & o & He & N2)].
      * change (0 =? -1) with false in H. cbv iota in H.
        apply ret_done in H as [-> ->].
        destruct (chain _ _ _ _ _ E1 N1 E2 N2) as [E N].
        split; [exact E|]. split; [congruence|]. split; [lia|].
        rewrite N. split; [cbn [app forallb]; rewrite R1, Ht; reflexivity|].
        change (sent ([Sys READ fd buf (Ok n)] ++ t)) with (sent t).
        rewrite Hs, firstn_all.
        replace (off + length buf - off)%nat with (length buf) by lia.
        rewrite Hb at 2. rewrite Hb at 1. symmetry. apply firstn_length_firstn.
      * change (-1 =? -1) with true in H. cbv iota in H.
        apply ret_done in H as [-> ->].
        destruct (chain _ _ _ _ _ E1 N1 E2 N2) as [E N].
        split; [exact E|]. split; [congruence|]. split; [reflexivity|].
        exists (Sys READ fd buf (Ok n) :: t),
               (Nat.min j (Nat.min (Nat.max k0 1) BUF_SIZE)), e, o.
        split; [cbn [app forallb]; rewrite R1, Ht; reflexivity|]. split.
        -- change (sent (Sys READ fd buf (Ok n) :: t)) with (sent t).
           rewrite Hs. rewrite Hb at 1. apply firstn_firstn.
        -- split; [exact He|exact N].
    + apply Z.ltb_ge in Hpos. apply ret_done in H as [-> ->].
      split; [exact E1|]. split; [exact F1|]. left.
      assert (Hz : length buf = 0%nat) by lia.
      apply length_zero_iff_nil in Hz. rewrite Hz in *. subst n.
      split; [reflexivity|]. split; [|exact N1].
      symmetry in Hb. apply firstn_nil_inv in Hb; [exact Hb|].
      change BUF_SIZE with 1024%nat. lia.
  - destruct Ho as (-> & -> & _). simpl in H.
    apply ret_done in H as [-> ->].
    split; [exact E1|]. split; [exact F1|]. right.
    split; [reflexivity|]. exists e. exact N1.
Qed.

Lemma read_loop_trace client_fd fd fuel :
  forall off w l w',
    loop fuel (read_body client_fd fd) off w = Done l w' ->
    extends w w' /\ data_file w' = data_file w /\
    exists t j,
      forallb (echo_retry client_fd fd) t = true /\
      sent t = firstn j (skipn off (contents w)) /\
      match l with
      | Return r =>
          r = -1 /\
          exists e o,
            e <> EINTR /\
            new_trace w w' =
              t ++ [Sys SEND client_fd [] (Err e);
                    Log LOG_ERR "send() failed: %s"; Sys CLOSE fd [] o]
      | Exit bytes =>
          (bytes = 0 /\ sent t = skipn off (contents w) /\
           new_trace w w' = t ++ [Sys READ fd [] (Ok 0)]) \/
          (bytes = -1 /\
           exists e, new_trace w w' = t ++ [Sys READ fd [] (Err e)])
      end.
Proof.
  induction fuel as [|fuel IH]; intros off w l w' H; [discriminate|].
  simpl in H. bind_inv H. apply read_body_trace in Hc as (E1 & F1 & Hk).
  destruct a as [off'|[r|bytes]].
  - destruct Hk as (Hle & Ht1 & Hs1).
    apply IH in H as (E2 & F2 & t & j & Ht & Hs & Hl).
    destruct (chain _ _ _ _ _ E1 eq_refl E2 eq_refl) as [E N].
    assert (Hcon : contents w0 = contents w)
      by (unfold contents; rewrite F1; reflexivity).
    rewrite Hcon in *.
    assert (Hsk : skipn off' (contents w) =
                  skipn (off' - off) (skipn off (contents w))).
    { rewrite skipn_skipn. f_equal. lia. }
    split; [exact E|]. split; [congruence|].
    exists (new_trace w w0 ++ t), (off' - off + j)%nat.
    split; [rewrite forallb_app, Ht1, Ht; reflexivity|].
    assert (Hsent : sent (new_trace w w0 ++ t) = sent (new_trace w w0) ++ sent t)
      by (unfold sent; apply flat_map_app).
    split.
    + rewrite Hsent, Hs1, Hs, Hsk. apply firstn_add_skipn.
    + rewrite N. destruct l as [r|bytes].
      * destruct Hl as (-> & e & o & He & ->). split; [reflexivity|].
        exists e, o. split; [exact He|apply app_assoc].
      * destruct Hl as [(-> & Hall & ->)|(-> & e & ->)].
        -- left. split; [reflexivity|]. split; [|apply app_assoc].
           rewrite Hsent, Hs1, Hall, Hsk. apply firstn_skipn.
        -- right. split; [reflexivity|]. exists e. apply app_assoc.
  - apply ret_done in H as [-> ->]. split; [exact E1|]. split; [exact F1|].
    destruct Hk as (-> & t & j & e & o & Ht & Hs & He & N).
    exists t, j. split; [exact Ht|]. split; [exact Hs|].
    split; [reflexivity|]. exists e, o. auto.
  - apply ret_done in H as [-> ->]. split; [exact E1|]. split; [exact F1|].
    exists [], 0%nat. split; [reflexivity|]. split; [reflexivity|].
    destruct Hk as [(-> & Hnil & N)|(-> & e & N)].
    + left. split; [reflexivity|]. split; [symmetry; exact Hnil|exact N].
    + right. split; [reflexivity|]. exists e. exact N.
Qed.

Lemma send_file_contents_shape client_fd w r w' :
  send_file_contents client_fd w = Done r w' ->
  echo_trace client_fd (contents w) r (new_trace w w').
Proof.
  intros H. unfold send_file_contents in H. bind_inv H.
  apply open_rdonly_cases in Hc as (E1 & F1 & o & N1 & Ho).
  assert (Hcon : contents w0 = contents w)
    by (unfold contents; rewrite F1; reflexivity).
  destruct o as [n|e].
  - destruct Ho as [-> _]. rewrite of_nat_eqb_m1 in H.
    bind_inv H. unfold while in Hc.
    apply read_loop_trace in Hc
      as (E2 & F2 & t & j & Hret & Hs & Hl).
    rewrite Hcon in *. simpl in Hs.
    destruct a as [r0|bytes].
    + destruct Hl as (-> & e & o & He & N2).
      apply ret_done in H as [-> ->].
      destruct (chain _ _ _ _ _ E1 N1 E2 N2) as [_ N].
      rewrite N. simpl. apply (echo_send_failed _ _ n t j); assumption.
    + destruct Hl as [(-> & Hall & N2)|(-> & e & N2)].
      * simpl in Hall.
        destruct (chain _ _ _ _ _ E1 N1 E2 N2) as [E12 N12].
        change (0 <? 0) with false in H. cbv iota in H.
        bind_inv H. apply sys_cases in Hc as (E3 & _ & o & N3 & Ho).
        destruct (chain _ _ _ _ _ E12 N12 E3 N3) as [E13 N13].
        destruct Ho as [(m & -> & ->)|(e & -> & -> & _)].
        -- rewrite of_nat_eqb_m1 in H. apply ret_done in H as [-> ->].
           rewrite N13. simpl. rewrite <- app_assoc. simpl.
           apply echo_done; assumption.
        -- change (-1 =? -1) with true in H. cbv iota in H.
           apply log_tail in H as (-> & E4 & _ & _ & N4).
           destruct (chain _ _ _ _ _ E13 N13 E4 N4) as [_ N].
           rewrite N. simpl. rewrite <- !app_assoc. simpl.
           apply echo_close_failed; assumption.
      * change (-1 <? 0) with true in H. cbv iota in H.
        apply log_close_tail in H as (-> & E3 & _ & o & N3).
        destruct (chain _ _ _ _ _ E1 N1 E2 N2) as [E12 N12].
        destruct (chain _ _ _ _ _ E12 N12 E3 N3) as [_ N].
        rewrite N. simpl. rewrite <- app_assoc. simpl.
        apply (echo_read_failed _ _ n t j); assumption.
  - destruct Ho as (-> & _).
    change (-1 =? -1) with true in H. cbv iota in H.
    apply log_tail in H as (-> & E2 & _ & _ & N2).
    destruct (chain _ _ _ _ _ E1 N1 E2 N2) as [_ N].
    rewrite N. apply echo_open_failed.
Qed.

Lemma echo_trace_prefix client_fd c r t :
  echo_trace client_fd c r t -> exists k, sent t = firstn k c.
Proof.
  intros [e|n t0 k e o Ht Hs He|n t0 k e o Ht Hs|n t0 e Ht Hs|n t0 m Ht Hs];
    simpl; unfold sent in *; rewrite ?flat_map_app; simpl;
    rewrite ?app_nil_r.
  - exists 0%nat. reflexivity.
  - exists k. exact Hs.
  - exists k. exact Hs.
  - exists (length c). rewrite firstn_all. exact Hs.
  - exists (length c). rewrite firstn_all. exact Hs.
Qed.

(** X3.  Every history of [send_file_contents]: a failed open is logged and
    nothing else is called; after a successful open there follow reads on the
    descriptor that was returned, each followed by sends on the client socket,
    until a send fails (not by interruption), a read fails, or a read returns
    0; the first two are logged and the file is closed once, the last is
    followed by one close, logged when it fails.  The file is never changed.
    The bytes sent are always a prefix of the file, in order and without
    repetition; they are the whole file when the end of the file was reached,
    also when -1 is returned because the close failed. *)
Theorem send_file_contents_histories client_fd w r w' :
  send_file_contents client_fd w = Done r w' ->
  echo_trace client_fd (contents w) r (new_trace w w') /\
  data_file w' = data_file w /\
  exists k, sent (new_trace w w') = firstn k (contents w).
Proof.
  intros H.
  pose proof (send_file_contents_spec _ _ _ _ H) as [Hfile _].
  pose proof (send_file_contents_shape _ _ _ _ H) as Ht.
  split; [exact Ht|]. split; [exact Hfile|].
  exact (echo_trace_prefix _ _ _ _ Ht).
Qed.

Lemma send_file_contents_histories_witness :
  let w := send_fails_midway in
  let w' := final (send_file_contents 7 w) w in
  echo_trace 7 (line "hello") (-1) (new_trace w w') /\
  data_file w' = data_file w /\
  exists k, sent (new_trace w w') = firstn k (line "hello").
Proof.
  apply (send_file_contents_histories 7 send_fails_midway (-1)
           (final (send_file_contents 7 send_fails_midway) send_fails_midway)).
  vm_compute. reflexivity.
Defined.

(** X4.  Without a data file [send_file_contents] sends nothing: the open
    fails, the failure is logged, and -1 is returned without a read, a send
    or a close. *)
Theorem send_file_contents_without_file client_fd w r w' :
  data_file w = None ->
  send_file_contents client_fd w = Done r w' ->
  r = -1 /\
  data_file w' = None /\
  exists e,
    new_trace w w' =
      [Sys OPEN_RDONLY 0 [] (Err e);
       Log LOG_ERR "open(%s) for read failed: %s"].
Proof.
  intros Hnone H.
  destruct (send_file_contents_spec _ _ _ _ H) as [Hfile _].
  split; [|split; [congruence|]];
    unfold send_file_contents in H; bind_inv H;
    apply open_rdonly_cases in Hc as (E1 & F1 & o & N1 & Ho);
    (destruct o as [n|e]; [destruct Ho as [_ Ho]; contradiction|]);
    destruct Ho as (-> & _);
    change (-1 =? -1) with true in H; cbv iota in H;
    apply log_tail in H as (-> & E2 & _ & _ & N2).
  - reflexivity.
  - destruct (chain _ _ _ _ _ E1 N1 E2 N2) as [_ N]. exists e. exact N.
Qed.

Lemma send_file_contents_without_file_witness :
  let w' := final (send_file_contents 7 no_file) no_file in
  -1 = -1 /\
  data_file w' = None /\
  exists e,
    new_trace no_file w' =
      [Sys OPEN_RDONLY 0 [] (Err e);
       Log LOG_ERR "open(%s) for read failed: %s"].
Proof.
  apply (send_file_contents_without_file 7 no_file (-1)
           (final (send_file_contents 7 no_file) no_file)).
  - reflexivity.
  - vm_compute. reflexivity.
Defined.

(** ** The file only grows until the cleanup *)

Lemma keeps_file_removes t :
  forallb keeps_file t = true -> existsb removes t = false.
Proof.
  induction t as [|e t IH]; simpl; [reflexivity|].
  intros H. apply andb_true_iff in H as [He Ht]. rewrite (IH Ht).
  unfold keeps_file in He. apply negb_true_iff in He. rewrite He. reflexivity.
Qed.

Lemma sound_serve_keeps : sound_with keeps_file serve.
Proof.
  unfold serve. sound_tac.
  apply sound_while; [|intro; apply consuming_accept_body].
  intros []. unfold accept_body. sound_tac. weaken_from sound_handle_client.
Qed.

Lemma follows_serve w0 : preserves (follows w0) serve.
Proof.
  unfold serve. follows_tac. unfold accept_body. follows_tac.
  apply follows_handle_client.
Qed.

Lemma handle_client_grows client_fd w u w' :
  handle_client client_fd w = Done u w' ->
  contents w' = contents w ++ written_bytes (new_trace w w') /\
  (data_file w <> None -> data_file w' <> None).
Proof.
  intros H. apply follows_grows.
  - exact (follows_handle_client w client_fd w u w' (follows_refl w) H).
  - apply client_call_keeps.
    apply (sound_with_done _ _ _ _ _ (sound_handle_client client_fd) H).
Qed.

(** X5.  Whatever fails, a connection and the whole service up to the label
    [cleanup] only ever add to the data file: at the end the file holds what
    it held at the start followed by the bytes of the successful writes, in
    the order of the writes.  Nothing is removed, truncated or overwritten,
    and a file that exists stays. *)
Theorem file_only_grows :
  (forall client_fd w u w',
      handle_client client_fd w = Done u w' ->
      contents w' = contents w ++ written_bytes (new_trace w w') /\
      (data_file w <> None -> data_file w' <> None)) /\
  (forall w res w1,
      serve w = Done res w1 ->
      contents w1 = contents w ++ written_bytes (new_trace w w1) /\
      (data_file w <> None -> data_file w1 <> None)).
Proof.
  split; [exact handle_client_grows|].
  intros w res w1 H. apply follows_grows.
  - exact (follows_serve w w res w1 (follows_refl w) H).
  - apply keeps_file_removes.
    apply (sound_with_done _ _ _ _ _ sound_serve_keeps H).
Qed.

Lemma file_only_grows_witness :
  let w' := final (handle_client 7 append_fails) append_fails in
  let w1 := final (serve two_clients) two_clients in
  (contents w' =
     contents append_fails ++ written_bytes (new_trace append_fails w') /\
   contents w' = line "b" ++ line "c") /\
  (contents w1 =
     contents two_clients ++ written_bytes (new_trace two_clients w1) /\
   contents w1 = line "a" ++ line "b").
Proof.
  destruct file_only_grows as [Hclient Hserve].
  split.
  - split; [|vm_compute; reflexivity].
    apply (Hclient 7 append_fails tt
             (final (handle_client 7 append_fails) append_fails)).
    vm_compute. reflexivity.
  - split; [|vm_compute; reflexivity].
    apply (Hserve two_clients (0, 3)
             (final (serve two_clients) two_clients)).
    vm_compute. reflexivity.
Defined.

(** ** The rounds of the receive loop *)

Lemma handle_body_round client_fd buf w k w1 :
  handle_body client_fd buf w = Done k w1 -> round client_fd buf w w1 k.
Proof.
  intros H. unfold handle_body in H. bind_inv H.
  apply get_exit_requested_done in Hc as [-> ->].
  destruct (exit_requested w =? 0) eqn:Hx.
  - bind_inv H. destruct a as [bytes chunk].
    apply recv_cases in Hc as (E1 & _ & o & N1 & Ho).
    destruct o as [n|e].
    + destruct Ho as (_ & -> & ->). rewrite of_nat_ltb_0 in H.
      destruct (Z.of_nat (length chunk) =? 0) eqn:Hz.
      * apply ret_done in H as [-> ->].
        apply Z.eqb_eq in Hz. assert (Hl : length chunk = 0%nat) by lia.
        apply length_zero_iff_nil in Hl. subst chunk.
        apply round_peer_closed. exact N1.
      * assert (Hne : chunk <> []).
        { intros ->. discriminate Hz. }
        rewrite Nat2Z.id in H. rewrite <- length_app in H.
        bind_inv H. rewrite length_app in Hc.
        apply realloc_cases in Hc as (E2 & _ & o & N2 & ->).
        destruct (chain _ _ _ _ _ E1 N1 E2 N2) as [E12 N12].
        destruct o as [m|e]; simpl negb in H; cbv iota in H.
        -- bind_inv H. rename a into start.
           pose proof (scan_range _ _ _ _ _ _ _ _ (Nat.le_refl 0) Hc)
             as [_ Hb].
           simpl in Hb.
           destruct (sound_with_done _ _ _ _ _ (sound_scan _ _ _ _ _) Hc)
             as [E3 _].
           destruct (0 <? start)%nat eqn:Hpos; simpl andb in H.
           ++ apply Nat.ltb_lt in Hpos.
              apply Nat.leb_le in Hb as Hb'. rewrite Hb' in H.
              bind_inv H.
              apply realloc_cases in Hc0 as (E4 & _ & o & N4 & _).
              apply ret_done in H as [-> ->].
              rewrite firstn_all2 by (rewrite length_skipn; lia).
              apply (round_compacted _ _ _ _ chunk m w2 w3 start o);
                auto; lia.
           ++ apply Nat.ltb_ge in Hpos. assert (start = 0%nat) by lia.
              subst start. apply ret_done in H as [-> ->].
              apply (round_scanned _ _ _ _ chunk m w2); auto.
        -- bind_inv H. apply record_new in Hc as [E3 N3].
           destruct (chain _ _ _ _ _ E12 N12 E3 N3) as [E13 N13].
           bind_inv H. apply record_new in Hc as [E4 N4].
           destruct (chain _ _ _ _ _ E13 N13 E4 N4) as [E14 N14].
           apply ret_done in H as [-> ->].
           apply (round_out_of_memory _ _ _ _ chunk e); auto.
    + destruct Ho as (-> & -> & He).
      change (-1 <? 0) with true in H. cbv iota in H.
      bind_inv H. apply get_errno_done in Hc as [-> ->].
      bind_inv H. apply get_exit_requested_done in Hc as [-> ->].
      rewrite He in H.
      destruct (e =? EINTR) eqn:Hi; simpl in H.
      * apply Z.eqb_eq in Hi. rewrite Hi in N1.
        destruct (exit_requested w0 =? 0) eqn:Hx0; simpl in H;
          apply ret_done in H as [-> ->].
        -- apply round_interrupted_retry; [exact N1|].
           apply Z.eqb_eq. exact Hx0.
        -- apply round_interrupted_stop; [exact N1|].
           intros Hz. rewrite Hz in Hx0. discriminate.
      * bind_inv H. apply record_new in Hc as [E2 N2].
        destruct (chain _ _ _ _ _ E1 N1 E2 N2) as [E12 N12].
        apply ret_done in H as [-> ->].
        apply (round_recv_failed _ _ _ _ e); [|exact N12].
        intros ->. discriminate.
  - apply ret_done in H as [-> ->]. apply round_guard; [|reflexivity].
    intros Hz. rewrite Hz in Hx. discriminate.
Qed.

(** ** How a connection ends *)

Lemma handle_body_break client_fd buf w r w1 :
  handle_body client_fd buf w = Done (Break r) w1 ->
  connection_end client_fd (exit_requested w1) (new_trace w w1 ++ [Free r]).
Proof.
  intros H. unfold handle_body in H. bind_inv H.
  apply get_exit_requested_done in Hc as [-> ->].
  destruct (exit_requested w =? 0) eqn:Hx.
  - bind_inv H. destruct a as [bytes recv_buf].
    apply recv_cases in Hc as (E1 & _ & o & N1 & Ho).
    destruct o as [n|e].
    + destruct Ho as (_ & Hn & ->). rewrite of_nat_ltb_0 in H.
      destruct (Z.of_nat n =? 0) eqn:Hz.
      * apply ret_done in H as [E ->]. injection E as ->.
        apply Z.eqb_eq in Hz. assert (Hl : length recv_buf = 0%nat) by lia.
        apply length_zero_iff_nil in Hl. subst recv_buf. simpl in Hn. subst n.
        rewrite N1. apply end_peer_closed.
      * bind_inv H. apply realloc_cases in Hc as (E2 & _ & o & N2 & ->).
        destruct (chain _ _ _ _ _ E1 N1 E2 N2) as [E12 N12].
        destruct o as [m|e]; simpl in H.
        -- bind_inv H.
           destruct ((0 <? a)%nat && (a <=? length buf + Z.to_nat (Z.of_nat n))%nat).
           ++ bind_inv H. apply ret_done in H as [E _]. discriminate E.
           ++ apply ret_done in H as [E _]. discriminate E.
        -- bind_inv H. pose proof (record_done _ _ _ _ Hc) as Hw3.
           apply record_new in Hc as [E3 N3].
           destruct (chain _ _ _ _ _ E12 N12 E3 N3) as [E13 N13].
           bind_inv H. pose proof (record_done _ _ _ _ Hc) as Hw4.
           apply record_new in Hc as [E4 N4].
           destruct (chain _ _ _ _ _ E13 N13 E4 N4) as [E14 N14].
           apply ret_done in H as [E ->]. injection E as ->.
           rewrite N14. simpl. apply end_out_of_memory.
    + destruct Ho as (-> & -> & He).
      change (-1 <? 0) with true in H. cbv iota in H.
      bind_inv H. apply get_errno_done in Hc as [-> ->].
      bind_inv H. apply get_exit_requested_done in Hc as [-> ->].
      rewrite He in H.
      destruct (e =? EINTR) eqn:Hi; simpl in H.
      * apply Z.eqb_eq in Hi. subst e.
        destruct (exit_requested w0 =? 0) eqn:Hx0; simpl in H.
        -- apply ret_done in H as [E _]. discriminate E.
        -- apply ret_done in H as [E ->]. injection E as ->.
           rewrite N1, Hi. apply end_interrupted.
           intros Hz. rewrite Hz in Hx0. discriminate.
      * bind_inv H. apply record_new in Hc as [E2 N2].
        destruct (chain _ _ _ _ _ E1 N1 E2 N2) as [E12 N12].
        apply ret_done in H as [E ->]. injection E as ->.
        rewrite N12. simpl. apply end_recv_failed.
        intros ->. discriminate.
  - apply ret_done in H as [E ->]. injection E as ->.
    rewrite new_trace_refl. apply end_shutdown.
    intros Hz. rewrite Hz in Hx. discriminate.
Qed.

Lemma sound_scan_packets client_fd packet_buf n :
  forall i start, sound_with packet_call (scan client_fd packet_buf n i start).
Proof.
  induction n as [|n IH]; intros i start; simpl; sound_tac; try apply IH.
  - weaken_from sound_append_to_file.
  - weaken_from sound_send_file_contents.
Qed.

Lemma packet_call_no_free t :
  forallb packet_call t = true -> existsb is_free t = false.
Proof.
  induction t as [|e t IH]; [reflexivity|]. simpl. intros H.
  apply andb_true_iff in H as [He Ht]. rewrite (IH Ht).
  destruct e as [[] ? ? ?| | | |]; try discriminate He; reflexivity.
Qed.

Lemma round_continue_no_free client_fd buf w w1 buf' :
  round client_fd buf w w1 (Continue buf') ->
  existsb is_free (new_trace w w1) = false.
Proof.
  intros H. inversion H
    as [| |N Hx Hk| | | |chunk m w2 Hne E2 N2 Hs Hk
       |chunk m w2 w3 start o Hne E2 N2 Hs Hst E4 N4 Hk]; subst.
  - rewrite N. reflexivity.
  - destruct (sound_with_done _ _ _ _ _ (sound_scan_packets _ _ _ _ _) Hs)
      as [E3 F3].
    destruct (chain _ _ _ _ _ E2 N2 E3 eq_refl) as [_ N].
    rewrite N, existsb_app, (packet_call_no_free _ F3). reflexivity.
  - destruct (sound_with_done _ _ _ _ _ (sound_scan_packets _ _ _ _ _) Hs)
      as [E3 F3].
    destruct (chain _ _ _ _ _ E2 N2 E3 eq_refl) as [E23 N23].
    destruct (chain _ _ _ _ _ E23 N23 E4 N4) as [_ N].
    rewrite N, !existsb_app, (packet_call_no_free _ F3). reflexivity.
Qed.

Lemma handle_loop_end client_fd fuel :
  forall buf w r w',
    loop fuel (handle_body client_fd) buf w = Done r w' ->
    exists t tail,
      new_trace w w' ++ [Free r] = t ++ tail /\
      existsb is_free t = false /\
      connection_end client_fd (exit_requested w') tail.
Proof.
  induction fuel as [|fuel IH]; intros buf w r w' H; [discriminate|].
  simpl in H. bind_inv H. destruct a as [buf'|r0].
  - destruct (sound_with_done _ _ _ _ _ (sound_handle_body client_fd buf) Hc)
      as [E1 _].
    destruct (handle_loop_spec _ _ _ _ _ _ H) as [E2 _].
    apply handle_body_round, round_continue_no_free in Hc.
    apply IH in H as (t & tail & Ht & Hfree & Hend).
    exists (new_trace w w0 ++ t), tail. split; [|split; [|exact Hend]].
    + rewrite (new_trace_trans _ _ _ E1 E2), <- !app_assoc, Ht. reflexivity.
    + rewrite existsb_app, Hc, Hfree. reflexivity.
  - apply ret_done in H as [-> ->].
    exists [], (new_trace w w0 ++ [Free r0]). split; [reflexivity|].
    split; [reflexivity|]. apply (handle_body_break _ _ _ _ _ Hc).
Qed.

(** X6.  What ends a connection.  When [handle_client] returns, its last calls
    are a [recv] that returned 0 (the peer closed), a [recv] that failed and
    was logged, or a growing [realloc] that failed, was logged and was
    followed by the release of the buffer; or else the shutdown flag is set
    and the loop was left at its guard or after an interrupted [recv].  A
    failed append or a failed answer is not among them: while the flag is
    clear, no failure of [append_to_file] or [send_file_contents] closes the
    connection.  [free] is called at the end of every path and nowhere
    before: once on the packet buffer, and after a failed [realloc] once more
    on the pointer that was reset. *)
Theorem connection_ends client_fd w u w' :
  handle_client client_fd w = Done u w' ->
  exists t tail,
    new_trace w w' = t ++ tail /\
    existsb is_free t = false /\
    connection_end client_fd (exit_requested w') tail.
Proof.
  intros H. unfold handle_client in H. bind_inv H. unfold while in Hc.
  destruct (handle_loop_spec _ _ _ _ _ _ Hc) as [E1 _].
  apply handle_loop_end in Hc as (t & tail & Ht & Hfree & Hend).
  pose proof (record_done _ _ _ _ H) as Hw.
  apply record_new in H as [E2 N2].
  destruct (chain _ _ _ _ _ E1 eq_refl E2 N2) as [_ N].
  exists t, tail. split; [rewrite N; exact Ht|].
  split; [exact Hfree|]. subst w'. exact Hend.
Qed.

Lemma connection_ends_witness :
  let w := append_fails in
  let w' := final (handle_client 7 append_fails) append_fails in
  exit_requested w' = 0 /\
  existsb append_error (new_trace w w') = true /\
  exists t tail,
    new_trace w w' = t ++ tail /\
    existsb is_free t = false /\
    connection_end 7 (exit_requested w') tail.
Proof.
  split; [vm_compute; reflexivity|]. split; [vm_compute; reflexivity|].
  apply (connection_ends 7 append_fails tt
           (final (handle_client 7 append_fails) append_fails)).
  vm_compute. reflexivity.
Defined.

(** ** Records on a connection on which anything may fail *)

Lemma appends_app a b : appends (a ++ b) = (appends a + appends b)%nat.
Proof. unfold appends. rewrite filter_app, length_app. reflexivity. Qed.

Lemma write_retry_appends fd ws :
  forallb (write_retry fd) ws = true -> appends ws = 0%nat.
Proof.
  induction ws as [|e ws IH]; [reflexivity|]. simpl. intros H.
  apply andb_true_iff in H as [He Hws].
  change (e :: ws) with ([e] ++ ws). rewrite appends_app, (IH Hws).
  destruct e as [[] ? ? ?| | | |]; try discriminate He; reflexivity.
Qed.

Lemma append_trace_appends data r t : append_trace data r t -> appends t = 1%nat.
Proof.
  intros [e|n ws k e o Hws _ _ _|n ws e Hws _|n ws m Hws _];
    try reflexivity;
    change (Sys OPEN_APPEND 0 [] (Ok n) :: ?l)
      with ([Sys OPEN_APPEND 0 [] (Ok n)] ++ l);
    rewrite !appends_app, (write_retry_appends _ _ Hws); reflexivity.
Qed.

Lemma append_trace_whole data t : append_trace data 0 t -> written_bytes t = data.
Proof.
  intros H. inversion H as [| | |n ws m Hws Hb]. subst.
  change (Sys OPEN_APPEND 0 [] (Ok n) :: ?l)
    with ([Sys OPEN_APPEND 0 [] (Ok n)] ++ l).
  rewrite !written_bytes_app. simpl. apply app_nil_r.
Qed.

Lemma echo_call_appends t : forallb echo_call t = true -> appends t = 0%nat.
Proof.
  induction t as [|e t IH]; [reflexivity|]. simpl. intros H.
  apply andb_true_iff in H as [He Ht].
  change (e :: t) with ([e] ++ t). rewrite appends_app, (IH Ht).
  destruct e as [[] ? ? ?| | | |]; try discriminate He; reflexivity.
Qed.

Lemma prefix_of_whole l : prefix_of l l.
Proof. exists (length l). symmetry. apply firstn_all. Qed.

Lemma split_at_delimiter cur rest more :
  fst (split cur ((NL :: rest) ++ more)) =
  (cur ++ [NL]) :: records (rest ++ more).
Proof.
  unfold records. simpl. destruct (split [] (rest ++ more)). reflexivity.
Qed.

Lemma scan_all_runs client_fd :
  forall rest pre cur buf i start w start' w',
    buf = pre ++ cur ++ rest ->
    i = (length pre + length cur)%nat ->
    start = length pre ->
    no_delimiter cur ->
    scan client_fd buf (length rest) i start w = Done start' w' ->
    exists ps recs buf',
      Forall2 prefix_of ps recs /\
      written_bytes (new_trace w w') = concat ps /\
      appends (new_trace w w') = length ps /\
      received (new_trace w w') = [] /\
      (existsb append_error (new_trace w w') = false -> ps = recs) /\
      (forall more,
          fst (split cur (rest ++ more)) = recs ++ records (buf' ++ more)) /\
      ((start' = start /\ buf' = cur ++ rest) \/
       ((start < start' <= length buf)%nat /\ skipn start' buf = buf')).
Proof.
  induction rest as [|b rest IH];
    intros pre cur buf i start w start' w' Hbuf Hi Hstart Hcur H.
  - simpl in H. apply ret_done in H as [-> ->]. rewrite new_trace_refl.
    exists [], [], cur. split; [constructor|].
    split; [reflexivity|]. split; [reflexivity|]. split; [reflexivity|].
    split; [reflexivity|]. split.
    + intros more. simpl. unfold records.
      rewrite (split_no_delimiter [] cur more Hcur). reflexivity.
    + left. rewrite app_nil_r. auto.
  - simpl length in H. simpl scan in H. subst buf i start.
    rewrite nth_middle_app in H.
    destruct (Byte.eqb b NL) eqn:Hb.
    + apply Byte.byte_dec_bl in Hb. subst b.
      rewrite packet_at in H. bind_inv H.
      destruct (sound_with_done _ _ _ _ _ (sound_append_to_file _) Hc)
        as [E1 F1].
      destruct (append_call_quiet _ F1) as (R1 & _ & _).
      pose proof (append_to_file_shape _ _ _ _ Hc) as T1.
      destruct (append_trace_prefix _ _ _ T1) as [k W1].
      pose proof (append_trace_appends _ _ _ T1) as A1.
      assert (Hbuf : pre ++ cur ++ NL :: rest = (pre ++ cur ++ [NL]) ++ [] ++ rest)
        by (simpl; rewrite <- !app_assoc; reflexivity).
      assert (Hstart : (length pre + length cur + 1 =
                        length (pre ++ cur ++ [NL]))%nat)
        by (rewrite !length_app; simpl; lia).
      assert (Hpos : skipn (length pre + length cur + 1)
                           (pre ++ cur ++ NL :: rest) = rest).
      { rewrite Hstart, Hbuf. apply skipn_length_app. }
      assert (Hlen : (length pre < length pre + length cur + 1 <=
                      length (pre ++ cur ++ NL :: rest))%nat)
        by (rewrite !length_app; simpl; lia).
      destruct (negb (a =? 0)) eqn:Ha.
      * apply ret_done in H as [-> ->].
        exists [written_bytes (new_trace w w0)], [cur ++ [NL]], rest.
        split; [constructor; [exists k; exact W1|constructor]|].
        split; [simpl; rewrite app_nil_r; reflexivity|].
        split; [exact A1|]. split; [exact R1|]. split.
        { intros Hclean. exfalso.
          destruct (append_to_file_spec _ _ _ _ Hc) as [(-> & _)|(_ & Hbad)];
            [discriminate Ha|congruence]. }
        split; [apply split_at_delimiter|]. right. auto.
      * apply negb_false_iff, Z.eqb_eq in Ha. subst a.
        pose proof (append_trace_whole _ _ T1) as Wh.
        bind_inv H.
        destruct (sound_with_done _ _ _ _ _ (sound_send_file_contents _) Hc0)
          as [E2 F2].
        destruct (echo_call_quiet _ F2) as (R2 & W2 & _).
        pose proof (echo_call_appends _ F2) as A2.
        destruct (chain _ _ _ _ _ E1 eq_refl E2 eq_refl) as [E12 N12].
        destruct (negb (a =? 0)) eqn:Ha.
        -- apply ret_done in H as [-> ->].
           exists [cur ++ [NL]], [cur ++ [NL]], rest.
           split; [constructor; [apply prefix_of_whole|constructor]|].
           rewrite N12, written_bytes_app, appends_app, received_app.
           rewrite W2, A2, A1, Wh, R1, R2, app_nil_r.
           split; [simpl; rewrite app_nil_r; reflexivity|].
           split; [reflexivity|]. split; [reflexivity|].
           split; [reflexivity|].
           split; [apply split_at_delimiter|]. right. auto.
        -- destruct (sound_with_done _ _ _ _ _ (sound_scan _ _ _ _ _) H)
             as [E3 _].
           assert (Hi : (length pre + length cur + 1 =
                         length (pre ++ cur ++ [NL]) + length (@nil byte))%nat)
             by (rewrite !length_app; simpl; lia).
           destruct (IH _ _ _ _ _ _ _ _ Hbuf Hi Hstart eq_refl H)
             as (ps & recs & buf' & HF & HW & HA & HR & HC & HS & HP).
           destruct (chain _ _ _ _ _ E12 N12 E3 eq_refl) as [_ N].
           exists ((cur ++ [NL]) :: ps), ((cur ++ [NL]) :: recs), buf'.
           split; [constructor; [apply prefix_of_whole|exact HF]|].
           rewrite N, !written_bytes_app, !appends_app, !received_app.
           rewrite W2, A2, A1, Wh, R1, R2, HW, HA, HR, app_nil_r.
           split; [reflexivity|]. split; [reflexivity|].
           split; [reflexivity|]. split.
           { intros Hclean. rewrite !existsb_app in Hclean.
             apply orb_false_elim in Hclean as [_ Hclean].
             rewrite (HC Hclean). reflexivity. }
           split.
           { intros more. rewrite split_at_delimiter. simpl. f_equal.
             apply (HS more). }
           right. destruct HP as [[-> ->]|[Hlt Hsk]].
           ++ split; [lia|]. rewrite Hbuf, Hstart.
              apply (skipn_length_app (pre ++ cur ++ [NL])).
           ++ split; [lia|exact Hsk].
    + assert (Hcur' : no_delimiter (cur ++ [b])).
      { unfold no_delimiter in *. rewrite forallb_app, Hcur. simpl.
        rewrite Hb. reflexivity. }
      assert (Hbuf : pre ++ cur ++ b :: rest = pre ++ (cur ++ [b]) ++ rest)
        by (rewrite <- !app_assoc; reflexivity).
      assert (Hi : (length pre + length cur + 1 =
                    length pre + length (cur ++ [b]))%nat)
        by (rewrite length_app; simpl; lia).
      destruct (IH _ _ _ _ _ _ _ _ Hbuf Hi eq_refl Hcur' H)
        as (ps & recs & buf' & HF & HW & HA & HR & HC & HS & HP).
      exists ps, recs, buf'.
      split; [exact HF|]. split; [exact HW|]. split; [exact HA|].
      split; [exact HR|]. split; [exact HC|]. split.
      * intros more. simpl. rewrite Hb. apply (HS more).
      * destruct HP as [[-> ->]|HP]; [left|right; exact HP].
        split; [reflexivity|]. rewrite <- app_assoc. reflexivity.
Qed.

Lemma round_all_runs client_fd buf w w1 k :
  round client_fd buf w w1 k ->
  exists ps recs,
    Forall2 prefix_of ps recs /\
    written_bytes (new_trace w w1) = concat ps /\
    appends (new_trace w w1) = length ps /\
    (existsb append_error (new_trace w w1) = false -> ps = recs) /\
    match k with
    | Continue buf' =>
        forall more,
          records (buf ++ received (new_trace w w1) ++ more) =
          recs ++ records (buf' ++ more)
    | Break _ => ps = []
    end.
Proof.
  intros [Hx ->|N Hx|N Hx|e He N|N|chunk e Hne N|chunk m w2 Hne E2 N2 Hs
         |chunk m w2 w3 start o Hne E2 N2 Hs Hst E4 N4].
  1-6: exists [], []; rewrite ?new_trace_refl, ?N;
       (split; [constructor|]); simpl; auto.
  - destruct (sound_with_done _ _ _ _ _ (sound_scan _ _ _ _ _) Hs) as [E3 _].
    destruct (scan_all_runs client_fd (buf ++ chunk) [] [] (buf ++ chunk)
                0 0 w2 0 w1 eq_refl eq_refl eq_refl eq_refl Hs)
      as (ps & recs & buf' & HF & HW & HA & HR & HC & HS & HP).
    destruct (chain _ _ _ _ _ E2 N2 E3 eq_refl) as [_ N].
    exists ps, recs. split; [exact HF|].
    rewrite N, written_bytes_app, appends_app, received_app, existsb_app.
    rewrite HW, HA, HR. simpl. rewrite !app_nil_r.
    split; [reflexivity|]. split; [reflexivity|]. split; [exact HC|].
    intros more. destruct HP as [[_ ->]|[Hlt _]]; [|lia].
    specialize (HS more). simpl in HS. rewrite <- HS.
    unfold records. rewrite <- app_assoc. reflexivity.
  - destruct (sound_with_done _ _ _ _ _ (sound_scan _ _ _ _ _) Hs) as [E3 _].
    destruct (scan_all_runs client_fd (buf ++ chunk) [] [] (buf ++ chunk)
                0 0 w2 start w3 eq_refl eq_refl eq_refl eq_refl Hs)
      as (ps & recs & buf' & HF & HW & HA & HR & HC & HS & HP).
    destruct (chain _ _ _ _ _ E2 N2 E3 eq_refl) as [E23 N23].
    destruct (chain _ _ _ _ _ E23 N23 E4 N4) as [_ N].
    exists ps, recs. split; [exact HF|].
    rewrite N, !written_bytes_app, !appends_app, !received_app, !existsb_app.
    rewrite HW, HA, HR. simpl. rewrite !app_nil_r, ?Nat.add_0_r, ?orb_false_r.
    split; [reflexivity|]. split; [reflexivity|]. split; [exact HC|].
    intros more. destruct HP as [[-> _]|[_ ->]]; [lia|].
    specialize (HS more). simpl in HS. rewrite <- HS.
    unfold records. rewrite <- app_assoc. reflexivity.
Qed.

Lemma handle_loop_all_runs client_fd fuel :
  forall buf w r w',
    loop fuel (handle_body client_fd) buf w = Done r w' ->
    extends w w' /\
    exists ps handled pending,
      records (buf ++ received (new_trace w w')) = handled ++ pending /\
      Forall2 prefix_of ps handled /\
      written_bytes (new_trace w w') = concat ps /\
      appends (new_trace w w') = length ps /\
      (existsb append_error (new_trace w w') = false -> ps = handled).
Proof.
  induction fuel as [|fuel IH]; intros buf w r w' H; [discriminate|].
  simpl in H. bind_inv H.
  destruct (sound_with_done _ _ _ _ _ (sound_handle_body client_fd buf) Hc)
    as [E1 _].
  apply handle_body_round, round_all_runs in Hc
    as (ps1 & recs1 & HF1 & HW1 & HA1 & HC1 & Hk).
  destruct a as [buf'|r0].
  - apply IH in H as (E2 & ps2 & h2 & p2 & HR2 & HF2 & HW2 & HA2 & HC2).
    destruct (chain _ _ _ _ _ E1 eq_refl E2 eq_refl) as [E N].
    split; [exact E|]. exists (ps1 ++ ps2), (recs1 ++ h2), p2.
    rewrite N, received_app, written_bytes_app, appends_app, existsb_app.
    rewrite Hk, HR2, HW1, HW2, HA1, HA2.
    split; [apply app_assoc|]. split; [apply Forall2_app; assumption|].
    split; [symmetry; apply concat_app|].
    split; [symmetry; apply length_app|].
    intros Hclean. apply orb_false_elim in Hclean as [C1 C2].
    rewrite (HC1 C1), (HC2 C2). reflexivity.
  - apply ret_done in H as [-> ->]. subst ps1. inversion HF1. subst recs1.
    split; [exact E1|].
    exists [], [], (records (buf ++ received (new_trace w w0))).
    split; [reflexivity|]. split; [constructor|]. auto.
Qed.

(** X7.  The records of a connection on which anything may fail.  The
    delimiter-terminated records received on the connection are handled in
    the order of receipt, each at most once: [append_to_file] is called once
    for each record of an initial part of them, and the records after that
    part are never handled.  The file ends up with what it held before
    followed, for each handled record, by a prefix of that record (nothing
    when the open failed, a torn record when a write failed); when no append
    fails each handled record is stored whole. *)
Theorem records_are_handled_in_order client_fd w u w' :
  handle_client client_fd w = Done u w' ->
  exists ps handled pending,
    records (received (new_trace w w')) = handled ++ pending /\
    Forall2 prefix_of ps handled /\
    appends (new_trace w w') = length handled /\
    written_bytes (new_trace w w') = concat ps /\
    contents w' = contents w ++ concat ps /\
    (existsb append_error (new_trace w w') = false -> ps = handled).
Proof.
  intros H. destruct (handle_client_grows _ _ _ _ H) as [Hg _].
  unfold handle_client in H. bind_inv H. unfold while in Hc.
  apply handle_loop_all_runs in Hc
    as (E1 & ps & handled & pending & HR & HF & HW & HA & HC).
  apply record_new in H as [E2 N2].
  destruct (chain _ _ _ _ _ E1 eq_refl E2 N2) as [_ N].
  exists ps, handled, pending.
  rewrite Hg, N, received_app, written_bytes_app, appends_app, existsb_app.
  simpl. rewrite !app_nil_r, Nat.add_0_r, orb_false_r, HW, HA.
  simpl in HR. split; [exact HR|]. split; [exact HF|].
  split; [apply (Forall2_length HF)|]. auto.
Qed.

Lemma records_are_handled_in_order_witness :
  let w := echo_fails in
  let w' := final (handle_client 7 echo_fails) echo_fails in
  (records (received (new_trace w w')) = [line "a"; line "b"] /\
   contents w' = line "a") /\
  exists ps handled pending,
    records (received (new_trace w w')) = handled ++ pending /\
    Forall2 prefix_of ps handled /\
    appends (new_trace w w') = length handled /\
    written_bytes (new_trace w w') = concat ps /\
    contents w' = contents w ++ concat ps /\
    (existsb append_error (new_trace w w') = false -> ps = handled).
Proof.
  split; [split; vm_compute; reflexivity|].
  apply (records_are_handled_in_order 7 echo_fails tt
           (final (handle_client 7 echo_fails) echo_fails)).
  vm_compute. reflexivity.
Defined.

(** ** Bytes without a delimiter *)

Lemma nth_no_delimiter buf :
  no_delimiter buf -> forall i, Byte.eqb (nth i buf x00) NL = false.
Proof.
  unfold no_delimiter. induction buf as [|b buf IH]; intros H i.
  - destruct i; reflexivity.
  - simpl in H. apply andb_true_iff in H as [Hb Hbuf]. destruct i; simpl.
    + apply negb_true_iff. exact Hb.
    + apply IH. exact Hbuf.
Qed.

Lemma scan_no_delimiter client_fd buf :
  no_delimiter buf ->
  forall n i start, scan client_fd buf n i start = ret start.
Proof.
  intros Hbuf. induction n as [|n IH]; intros i start; simpl; [reflexivity|].
  rewrite (nth_no_delimiter buf Hbuf). apply IH.
Qed.

Lemma no_delimiter_app a b :
  no_delimiter (a ++ b) <-> no_delimiter a /\ no_delimiter b.
Proof. unfold no_delimiter. rewrite forallb_app. apply andb_true_iff. Qed.

Lemma quiet_call_nothing t :
  forallb quiet_call t = true ->
  existsb modifies_file t = false /\ sent t = [] /\
  written_bytes t = [] /\ appends t = 0%nat.
Proof.
  induction t as [|e t IH]; [auto|]. simpl. intros H.
  apply andb_true_iff in H as [He Ht].
  destruct (IH Ht) as (Hm & Hs & Hw & Ha).
  change (e :: t) with ([e] ++ t). rewrite appends_app, Ha.
  unfold sent, written_bytes in *. simpl. rewrite Hm, Hs, Hw.
  destruct e as [[] ? ? ?| | | |]; try discriminate He; auto.
Qed.

Lemma round_quiet client_fd buf w w1 k :
  round client_fd buf w w1 k ->
  no_delimiter buf ->
  no_delimiter (received (new_trace w w1)) ->
  forallb quiet_call (new_trace w w1) = true /\
  no_delimiter (match k with Continue b => b | Break b => b end).
Proof.
  intros [Hx ->|N Hx|N Hx|e He N|N|chunk e Hne N|chunk m w2 Hne E2 N2 Hs
         |chunk m w2 w3 start o Hne E2 N2 Hs Hst E4 N4] Hbuf Hrx.
  1-6: rewrite ?new_trace_refl, ?N;
       (split; [reflexivity|first [exact Hbuf|reflexivity]]).
  - destruct (sound_with_done _ _ _ _ _ (sound_scan _ _ _ _ _) Hs) as [E3 _].
    destruct (chain _ _ _ _ _ E2 N2 E3 eq_refl) as [_ N].
    rewrite N, received_app in Hrx. simpl in Hrx.
    rewrite app_nil_r in Hrx. apply no_delimiter_app in Hrx as [Hchunk _].
    assert (Hall : no_delimiter (buf ++ chunk))
      by (apply no_delimiter_app; auto).
    rewrite (scan_no_delimiter _ _ Hall) in Hs.
    apply ret_done in Hs as [_ ->].
    rewrite N, new_trace_refl. simpl. auto.
  - destruct (sound_with_done _ _ _ _ _ (sound_scan _ _ _ _ _) Hs) as [E3 _].
    destruct (chain _ _ _ _ _ E2 N2 E3 eq_refl) as [E23 N23].
    destruct (chain _ _ _ _ _ E23 N23 E4 N4) as [_ N].
    rewrite N, !received_app in Hrx. simpl in Hrx.
    rewrite app_nil_r in Hrx. apply no_delimiter_app in Hrx as [Hrx _].
    apply no_delimiter_app in Hrx as [Hchunk _].
    assert (Hall : no_delimiter (buf ++ chunk))
      by (apply no_delimiter_app; auto).
    rewrite (scan_no_delimiter _ _ Hall) in Hs.
    apply ret_done in Hs as [-> _]. lia.
Qed.

Lemma handle_loop_quiet client_fd fuel :
  forall buf w r w',
    loop fuel (handle_body client_fd) buf w = Done r w' ->
    no_delimiter buf ->
    no_delimiter (received (new_trace w w')) ->
    extends w w' /\ forallb quiet_call (new_trace w w') = true.
Proof.
  induction fuel as [|fuel IH]; intros buf w r w' H Hbuf Hrx; [discriminate|].
  simpl in H. bind_inv H.
  destruct (sound_with_done _ _ _ _ _ (sound_handle_body client_fd buf) Hc)
    as [E1 _].
  apply handle_body_round in Hc. destruct a as [buf'|r0].
  - destruct (handle_loop_spec _ _ _ _ _ _ H) as [E2 _].
    destruct (chain _ _ _ _ _ E1 eq_refl E2 eq_refl) as [E N].
    rewrite N, received_app in Hrx. apply no_delimiter_app in Hrx as [Hrx1 Hrx2].
    destruct (round_quiet _ _ _ _ _ Hc Hbuf Hrx1) as [Hq1 Hbuf'].
    destruct (IH _ _ _ _ H Hbuf' Hrx2) as [_ Hq2].
    split; [exact E|]. rewrite N, forallb_app, Hq1, Hq2. reflexivity.
  - apply ret_done in H as [-> ->].
    destruct (round_quiet _ _ _ _ _ Hc Hbuf Hrx) as [Hq _]. auto.
Qed.

(** X8.  Bytes that contain no delimiter are never stored or answered,
    whatever else happens on the connection: [handle_client] then calls
    nothing but [recv], the growing [realloc], [syslog] and [free]; it opens
    no file and sends nothing, and the data file, if there is one, is left as
    it was. *)
Theorem unterminated_bytes_are_dropped client_fd w u w' :
  handle_client client_fd w = Done u w' ->
  no_delimiter (received (new_trace w w')) ->
  forallb quiet_call (new_trace w w') = true /\
  data_file w' = data_file w /\
  sent (new_trace w w') = [] /\
  appends (new_trace w w') = 0%nat.
Proof.
  intros H Hrx.
  assert (Hq : extends w w' /\ forallb quiet_call (new_trace w w') = true).
  { unfold handle_client in H. bind_inv H. unfold while in Hc.
    destruct (handle_loop_spec _ _ _ _ _ _ Hc) as [E1 _].
    apply record_new in H as [E2 N2].
    destruct (chain _ _ _ _ _ E1 eq_refl E2 N2) as [E N].
    rewrite N, received_app in Hrx. apply no_delimiter_app in Hrx as [Hrx _].
    destruct (handle_loop_quiet _ _ _ _ _ _ Hc eq_refl Hrx) as [_ Hq].
    split; [exact E|]. rewrite N, forallb_app, Hq. reflexivity. }
  destruct Hq as [E Hq]. split; [exact Hq|].
  destruct (quiet_call_nothing _ Hq) as (Hm & Hs & _ & Ha).
  split; [exact (extends_file _ _ E Hm)|]. auto.
Qed.

Lemma unterminated_bytes_are_dropped_witness :
  let w := unterminated in
  let w' := final (handle_client 7 unterminated) unterminated in
  received (new_trace w w') = bytes "abc" /\
  forallb quiet_call (new_trace w w') = true /\
  data_file w' = data_file w /\
  sent (new_trace w w') = [] /\
  appends (new_trace w w') = 0%nat.
Proof.
  split; [vm_compute; reflexivity|].
  apply (unterminated_bytes_are_dropped 7 unterminated tt
           (final (handle_client 7 unterminated) unterminated)).
  - vm_compute. reflexivity.
  - vm_compute. reflexivity.
Defined.

(** ** The rounds of the accept loop and the setup *)

Lemma accept_body_round server_fd u w k w1 :
  accept_body server_fd u w = Done k w1 -> accept_round server_fd w w1 k.
Proof.
  intros H. unfold accept_body in H. bind_inv H.
  apply get_exit_requested_done in Hc as [-> ->].
  destruct (exit_requested w =? 0) eqn:Hx.
  - bind_inv H. apply sys_cases in Hc as (E1 & _ & o & N1 & Ho).
    destruct Ho as [(n & -> & ->)|(e & -> & -> & He)].
    + rewrite of_nat_eqb_m1 in H.
      bind_inv H. apply record_new in Hc as [E2 N2].
      destruct (chain _ _ _ _ _ E1 N1 E2 N2) as [E12 N12].
      bind_inv H. rename Hc into Hclient.
      repeat match goal with x : unit |- _ => destruct x end.
      bind_inv H. apply record_new in Hc as [E3 N3].
      bind_inv H. apply sys_cases in Hc as (E4 & _ & o & N4 & Ho).
      destruct (chain _ _ _ _ _ E3 N3 E4 N4) as [E34 N34].
      destruct Ho as [(m & -> & ->)|(e & -> & -> & _)].
      * rewrite of_nat_eqb_m1 in H. bind_inv H.
        apply ret_done in Hc as [_ ->]. apply ret_done in H as [-> ->].
        eapply (accept_served _ _ _ n _ _ (Ok m));
          [exact E12|exact N12|exact Hclient|exact E34|exact N34].
      * change (-1 =? -1) with true in H. cbv iota in H. bind_inv H.
        apply record_new in Hc as [E5 N5].
        destruct (chain _ _ _ _ _ E34 N34 E5 N5) as [E35 N35].
        apply ret_done in H as [-> ->].
        eapply (accept_served _ _ _ n _ _ (Err e));
          [exact E12|exact N12|exact Hclient|exact E35|exact N35].
    + change (-1 =? -1) with true in H. cbv iota in H.
      bind_inv H. apply get_errno_done in Hc as [-> ->].
      bind_inv H. apply get_exit_requested_done in Hc as [-> ->].
      rewrite He in H.
      destruct (e =? EINTR) eqn:Hi; simpl in H.
      * apply Z.eqb_eq in Hi. rewrite Hi in N1.
        destruct (exit_requested w0 =? 0) eqn:Hx0; simpl in H;
          apply ret_done in H as [-> ->].
        -- apply accept_interrupted_retry; [exact N1|].
           apply Z.eqb_eq. exact Hx0.
        -- apply accept_interrupted_stop; [exact N1|].
           intros Hz. rewrite Hz in Hx0. discriminate.
      * bind_inv H. apply record_new in Hc as [E2 N2].
        destruct (chain _ _ _ _ _ E1 N1 E2 N2) as [E12 N12].
        apply ret_done in H as [-> ->].
        apply (accept_failed _ _ _ e); [|exact N12].
        intros ->. discriminate.
  - apply ret_done in H as [-> ->]. apply accept_guard; [|reflexivity].
    intros Hz. rewrite Hz in Hx. discriminate.
Qed.

Ltac setup_fails H E1 N1 k e :=
  change (-1 =? -1) with true in H; cbv iota in H;
  let E' := fresh "E" in
  let N' := fresh "N" in
  let N := fresh "N" in
  apply log_tail in H as (-> & E' & _ & _ & N');
  destruct (chain _ _ _ _ _ E1 N1 E' N') as [_ N];
  left; exists k, e; split; [lia|]; split; [rewrite N; reflexivity|reflexivity].

Lemma serve_shape w res w1 :
  serve w = Done res w1 ->
  exists r1 r2 n r4 r5 r6,
    (exists k e,
        (k < 6)%nat /\
        new_trace w w1 =
          firstn k (setup_entries r1 r2 n r4 r5 r6) ++
          [fail_with e (nth k (setup_entries r1 r2 n r4 r5 r6) OpenLog);
           Log LOG_ERR (nth k setup_messages EmptyString)] /\
        res = (-1, if (k <=? 2)%nat then -1 else Z.of_nat n)) \/
    (exists w2 w3,
        res = (0, Z.of_nat n) /\
        extends w w2 /\
        new_trace w w2 = setup_entries r1 r2 n r4 r5 r6 /\
        while (accept_body (Z.of_nat n)) tt w2 = Done tt w3 /\
        extends w2 w3 /\
        extends w3 w1 /\
        new_trace w3 w1 = [Log LOG_INFO "Caught signal, exiting"]).
Proof.
  intros H. unfold serve in H.
  bind_inv H. apply sys_cases in Hc as (E1 & _ & o & N1 & Ho).
  destruct Ho as [(r1 & -> & ->)|(e & -> & -> & _)].
  2:{ exists 0%nat, 0%nat, 0%nat, 0%nat, 0%nat, 0%nat.
      setup_fails H E1 N1 0%nat e. }
  rewrite of_nat_eqb_m1 in H. exists r1.
  bind_inv H. apply sys_cases in Hc as (E2 & _ & o & N2 & Ho).
  destruct (chain _ _ _ _ _ E1 N1 E2 N2) as [E12 N12]. simpl in N12.
  destruct Ho as [(r2 & -> & ->)|(e & -> & -> & _)].
  2:{ exists 0%nat, 0%nat, 0%nat, 0%nat, 0%nat.
      setup_fails H E12 N12 1%nat e. }
  rewrite of_nat_eqb_m1 in H. exists r2.
  bind_inv H. apply sys_cases in Hc as (E3 & _ & o & N3 & Ho).
  destruct (chain _ _ _ _ _ E12 N12 E3 N3) as [E13 N13]. simpl in N13.
  destruct Ho as [(n & -> & ->)|(e & -> & -> & _)].
  2:{ exists 0%nat, 0%nat, 0%nat, 0%nat.
      setup_fails H E13 N13 2%nat e. }
  rewrite of_nat_eqb_m1 in H. exists n.
  bind_inv H. apply sys_cases in Hc as (E4 & _ & o & N4 & Ho).
  destruct (chain _ _ _ _ _ E13 N13 E4 N4) as [E14 N14]. simpl in N14.
  destruct Ho as [(r4 & -> & ->)|(e & -> & -> & _)].
  2:{ exists 0%nat, 0%nat, 0%nat.
      setup_fails H E14 N14 3%nat e. }
  rewrite of_nat_eqb_m1 in H. exists r4.
  bind_inv H. apply sys_cases in Hc as (E5 & _ & o & N5 & Ho).
  destruct (chain _ _ _ _ _ E14 N14 E5 N5) as [E15 N15]. simpl in N15.
  destruct Ho as [(r5 & -> & ->)|(e & -> & -> & _)].
  2:{ exists 0%nat, 0%nat.
      setup_fails H E15 N15 4%nat e. }
  rewrite of_nat_eqb_m1 in H. exists r5.
  bind_inv H. apply sys_cases in Hc as (E6 & _ & o & N6 & Ho).
  destruct (chain _ _ _ _ _ E15 N15 E6 N6) as [E16 N16]. simpl in N16.
  destruct Ho as [(r6 & -> & ->)|(e & -> & -> & _)].
  2:{ exists 0%nat.
      setup_fails H E16 N16 5%nat e. }
  rewrite of_nat_eqb_m1 in H. exists r6.
  bind_inv H. rename Hc into Hloop.
  repeat match goal with x : unit |- _ => destruct x end.
  pose proof (sound_done _ _ _ _ (sound_accept_loop (Z.of_nat n)) Hloop) as E7.
  pose proof Hloop as Hx. unfold while in Hx. apply accept_loop_exit in Hx.
  bind_inv H. apply get_exit_requested_done in Hc as [-> ->].
  apply Z.eqb_neq in Hx. rewrite Hx in H. simpl in H.
  bind_inv H. apply record_new in Hc as [E8 N8].
  apply ret_done in H as [-> ->].
  right. eexists _, _. split; [reflexivity|]. split; [exact E16|].
  split; [exact N16|]. split; [exact Hloop|]. split; [exact E7|].
  split; [exact E8|exact N8].
Qed.

Lemma sound_cleanup_calls ret_code server_fd :
  sound_with cleanup_call (cleanup ret_code server_fd).
Proof. unfold cleanup. sound_tac. Qed.

(** X9.  The setup of [main].  The six setup calls are made in a fixed order:
    [sigaction] for SIGINT and for SIGTERM, [socket], then [setsockopt],
    [bind] and [listen] on the socket that was returned.  The first one that
    fails is logged with its own message and ends the setup: no later setup
    call is made and no connection is accepted; only the calls of the
    cleanup follow, and [main] returns -1.  When all six succeed, the accept
    loop runs, the shutdown is logged, the cleanup follows, and [main]
    returns 0. *)
Theorem setup_stops_at_the_first_failure w r w' :
  main w = Done r w' ->
  exists r1 r2 n r4 r5 r6,
    (exists k e tail,
        (k < 6)%nat /\
        new_trace w w' =
          OpenLog :: firstn k (setup_entries r1 r2 n r4 r5 r6) ++
          [fail_with e (nth k (setup_entries r1 r2 n r4 r5 r6) OpenLog);
           Log LOG_ERR (nth k setup_messages EmptyString)] ++ tail /\
        forallb cleanup_call tail = true /\
        r = -1) \/
    (exists served tail,
        new_trace w w' =
          OpenLog :: setup_entries r1 r2 n r4 r5 r6 ++ served ++
          Log LOG_INFO "Caught signal, exiting" :: tail /\
        forallb cleanup_call tail = true /\
        r = 0).
Proof.
  intros H. apply main_parts in H as (w0 & w1 & res & Hs & Hc & E1 & E2 & N).
  destruct (sound_with_done _ _ _ _ _ (sound_cleanup_calls _ _) Hc) as [_ Hcl].
  apply cleanup_spec in Hc as [-> _].
  apply serve_shape in Hs as (r1 & r2 & n & r4 & r5 & r6 & Hs).
  exists r1, r2, n, r4, r5, r6.
  destruct Hs as [(k & e & Hk & Ns & ->)|(w2 & w3 & -> & E3 & N3 & _ & E4 & E5 & N5)].
  - left. exists k, e, (new_trace w1 w'). split; [exact Hk|].
    split; [|auto]. rewrite N, Ns, <- !app_assoc. reflexivity.
  - right. exists (new_trace w2 w3), (new_trace w1 w').
    split; [|auto]. rewrite N. f_equal.
    destruct (chain _ _ _ _ _ E3 N3 E4 eq_refl) as [E34 N34].
    destruct (chain _ _ _ _ _ E34 N34 E5 N5) as [_ N'].
    rewrite N', <- !app_assoc. reflexivity.
Qed.

Lemma setup_stops_at_the_first_failure_witness :
  let w' := final (main bind_fails) bind_fails in
  trace w' =
    [OpenLog; Sys SIGACTION SIGINT [] (Ok 0); Sys SIGACTION SIGTERM [] (Ok 0);
     Sys SOCKET 0 [] (Ok 3); Sys SETSOCKOPT 3 [] (Ok 0);
     Sys BIND 3 [] (Err EADDRINUSE); Log LOG_ERR "bind() failed: %s";
     Sys CLOSE 3 [] (Ok 0); Sys REMOVE 0 [] (Err ENOENT); CloseLog] /\
  exists r1 r2 n r4 r5 r6,
    (exists k e tail,
        (k < 6)%nat /\
        new_trace bind_fails w' =
          OpenLog :: firstn k (setup_entries r1 r2 n r4 r5 r6) ++
          [fail_with e (nth k (setup_entries r1 r2 n r4 r5 r6) OpenLog);
           Log LOG_ERR (nth k setup_messages EmptyString)] ++ tail /\
        forallb cleanup_call tail = true /\
        -1 = -1) \/
    (exists served tail,
        new_trace bind_fails w' =
          OpenLog :: setup_entries r1 r2 n r4 r5 r6 ++ served ++
          Log LOG_INFO "Caught signal, exiting" :: tail /\
        forallb cleanup_call tail = true /\
        -1 = 0).
Proof.
  split; [vm_compute; reflexivity|].
  apply (setup_stops_at_the_first_failure bind_fails (-1)
           (final (main bind_fails) bind_fails)).
  vm_compute. reflexivity.
Defined.

(** ** Descriptors *)

Lemma descriptors_app a b q :
  descriptors (a ++ b) q = descriptors b (descriptors a q).
Proof. apply fold_left_app. Qed.

Lemma descriptors_cons e t q :
  descriptors (e :: t) q = descriptors t (fd_step q e).
Proof. reflexivity. Qed.

Ltac fd_simpl :=
  unfold descriptors;
  repeat (progress (simpl; rewrite ?Z.eqb_refl, ?orb_true_r));
  try reflexivity.

Lemma fd_write_retry fd st ws :
  forallb (write_retry fd) ws = true ->
  descriptors ws (Some (fd :: st)) = Some (fd :: st).
Proof.
  induction ws as [|e ws IH]; [reflexivity|]. simpl forallb. intros H.
  apply andb_true_iff in H as [He Hws]. rewrite descriptors_cons.
  replace (fd_step (Some (fd :: st)) e) with (Some (fd :: st));
    [exact (IH Hws)|].
  destruct e as [[] fd' d [n|x]| | | |]; try discriminate He; simpl in *.
  - rewrite He. reflexivity.
  - apply andb_true_iff in He as [He _]. rewrite He. reflexivity.
Qed.

Lemma fd_append_trace data r t st :
  append_trace data r t -> descriptors t (Some st) = Some st.
Proof.
  intros [e|n ws k e o Hws _ _ _|n ws e Hws _|n ws m Hws _];
    try reflexivity;
    rewrite descriptors_cons, descriptors_app; simpl fd_step;
    rewrite (fd_write_retry _ _ _ Hws); fd_simpl.
Qed.

Lemma fd_echo_retry client_fd fd st t :
  on_top client_fd st = true ->
  forallb (echo_retry client_fd fd) t = true ->
  descriptors t (Some (fd :: st)) = Some (fd :: st).
Proof.
  intros Hheld. induction t as [|e t IH]; [reflexivity|]. simpl forallb.
  intros H. apply andb_true_iff in H as [He Ht]. rewrite descriptors_cons.
  replace (fd_step (Some (fd :: st)) e) with (Some (fd :: st));
    [exact (IH Ht)|].
  destruct e as [[] fd' d [n|x]| | | |]; try discriminate He;
    simpl in He; simpl fd_step.
  - apply Z.eqb_eq in He. subst fd'. rewrite Hheld. reflexivity.
  - apply andb_true_iff in He as [He _].
    apply Z.eqb_eq in He. subst fd'. rewrite Hheld. reflexivity.
  - apply andb_true_iff in He as [He _]. rewrite He. reflexivity.
Qed.

Lemma fd_echo_trace client_fd c r t st :
  on_top client_fd st = true ->
  echo_trace client_fd c r t -> descriptors t (Some st) = Some st.
Proof.
  intros Hheld
    [e|n t0 k e o Ht _ _|n t0 k e o Ht _|n t0 e Ht _|n t0 m Ht _];
    try reflexivity;
    rewrite descriptors_cons, descriptors_app; simpl fd_step;
    rewrite (fd_echo_retry _ _ _ _ Hheld Ht); unfold descriptors;
    repeat (progress (simpl; rewrite ?Z.eqb_refl, ?Hheld));
    reflexivity.
Qed.

Lemma fd_scan client_fd buf st n :
  on_top client_fd st = true ->
  forall i start w start' w',
    scan client_fd buf n i start w = Done start' w' ->
    descriptors (new_trace w w') (Some st) = Some st.
Proof.
  intros Hheld. induction n as [|n IH]; intros i start w start' w' H;
    simpl in H.
  - apply ret_done in H as [_ ->]. rewrite new_trace_refl. reflexivity.
  - destruct (Byte.eqb (nth i buf x00) NL); [|exact (IH _ _ _ _ _ H)].
    bind_inv H.
    destruct (sound_with_done _ _ _ _ _ (sound_append_to_file _) Hc)
      as [E1 _].
    pose proof (append_to_file_shape _ _ _ _ Hc) as T1.
    pose proof (fd_append_trace _ _ _ st T1) as D1.
    destruct (negb (a =? 0)).
    { apply ret_done in H as [_ ->]. exact D1. }
    bind_inv H.
    destruct (sound_with_done _ _ _ _ _ (sound_send_file_contents _) Hc0)
      as [E2 _].
    pose proof (send_file_contents_shape _ _ _ _ Hc0) as T2.
    pose proof (fd_echo_trace _ _ _ _ st Hheld T2) as D2.
    destruct (chain _ _ _ _ _ E1 eq_refl E2 eq_refl) as [E12 N12].
    destruct (negb (a0 =? 0)).
    { apply ret_done in H as [_ ->].
      rewrite N12, descriptors_app, D1. exact D2. }
    destruct (sound_with_done _ _ _ _ _ (sound_scan _ _ _ _ _) H) as [E3 _].
    destruct (chain _ _ _ _ _ E12 N12 E3 eq_refl) as [_ N].
    rewrite N, !descriptors_app, D1, D2. exact (IH _ _ _ _ _ H).
Qed.

Lemma on_top_top fd st : on_top fd (fd :: st) = true.
Proof. apply Z.eqb_refl. Qed.

Lemma fd_round client_fd buf w w1 k st :
  round client_fd buf w w1 k ->
  descriptors (new_trace w w1) (Some (client_fd :: st)) =
  Some (client_fd :: st).
Proof.
  pose proof (on_top_top client_fd st) as Hheld.
  intros [Hx ->|N Hx|N Hx|e He N|N|chunk e Hne N|chunk m w2 Hne E2 N2 Hs
         |chunk m w2 w3 start o Hne E2 N2 Hs Hst E4 N4].
  1-6: rewrite ?new_trace_refl, ?N; fd_simpl.
  - destruct (sound_with_done _ _ _ _ _ (sound_scan _ _ _ _ _) Hs) as [E3 _].
    destruct (chain _ _ _ _ _ E2 N2 E3 eq_refl) as [_ N].
    rewrite N, descriptors_app.
    match goal with
    | |- descriptors _ ?q = _ =>
        replace q with (Some (client_fd :: st)) by fd_simpl
    end.
    exact (fd_scan _ _ _ _ Hheld _ _ _ _ _ Hs).
  - destruct (sound_with_done _ _ _ _ _ (sound_scan _ _ _ _ _) Hs) as [E3 _].
    destruct (chain _ _ _ _ _ E2 N2 E3 eq_refl) as [E23 N23].
    destruct (chain _ _ _ _ _ E23 N23 E4 N4) as [_ N].
    rewrite N, !descriptors_app.
    match goal with
    | |- descriptors _ (descriptors _ ?q) = _ =>
        replace q with (Some (client_fd :: st)) by fd_simpl
    end.
    rewrite (fd_scan _ _ _ _ Hheld _ _ _ _ _ Hs). reflexivity.
Qed.

Lemma fd_handle_loop client_fd st fuel :
  forall buf w r w',
    loop fuel (handle_body client_fd) buf w = Done r w' ->
    descriptors (new_trace w w') (Some (client_fd :: st)) =
    Some (client_fd :: st).
Proof.
  induction fuel as [|fuel IH]; intros buf w r w' H; [discriminate|].
  simpl in H. bind_inv H.
  destruct (sound_with_done _ _ _ _ _ (sound_handle_body client_fd buf) Hc)
    as [E1 _].
  apply handle_body_round in Hc. pose proof (fd_round _ _ _ _ _ st Hc) as D1.
  destruct a as [buf'|r0].
  - destruct (handle_loop_spec _ _ _ _ _ _ H) as [E2 _].
    destruct (chain _ _ _ _ _ E1 eq_refl E2 eq_refl) as [_ N].
    rewrite N, descriptors_app, D1. exact (IH _ _ _ _ H).
  - apply ret_done in H as [_ ->]. exact D1.
Qed.

Lemma fd_handle_client client_fd st w u w' :
  handle_client client_fd w = Done u w' ->
  descriptors (new_trace w w') (Some (client_fd :: st)) =
  Some (client_fd :: st).
Proof.
  intros H. unfold handle_client in H. bind_inv H. unfold while in Hc.
  destruct (handle_loop_spec _ _ _ _ _ _ Hc) as [E1 _].
  apply (fd_handle_loop _ st) in Hc.
  apply record_new in H as [E2 N2].
  destruct (chain _ _ _ _ _ E1 eq_refl E2 N2) as [_ N].
  rewrite N, descriptors_app, Hc. reflexivity.
Qed.

Lemma fd_accept_round server_fd st w w1 k :
  accept_round server_fd w w1 k ->
  descriptors (new_trace w w1) (Some (server_fd :: st)) =
  Some (server_fd :: st).
Proof.
  pose proof (on_top_top server_fd st) as Hheld.
  intros [Hx ->|N Hx|N Hx|e He N|n w2 w3 o E2 N2 Hcl E4 N4].
  1-4: rewrite ?new_trace_refl, ?N; fd_simpl.
  destruct (sound_with_done _ _ _ _ _ (sound_handle_client _) Hcl) as [E3 _].
  destruct (chain _ _ _ _ _ E2 N2 E3 eq_refl) as [E23 N23].
  destruct (chain _ _ _ _ _ E23 N23 E4 N4) as [_ N].
  rewrite N, !descriptors_app.
  match goal with
  | |- descriptors _ (descriptors _ ?q) = _ =>
      replace q with (Some (Z.of_nat n :: server_fd :: st)) by fd_simpl
  end.
  rewrite (fd_handle_client _ _ _ _ _ Hcl).
  destruct o; fd_simpl.
Qed.

Lemma fd_accept_loop server_fd st fuel :
  forall u w r w',
    loop fuel (accept_body server_fd) u w = Done r w' ->
    extends w w' /\
    descriptors (new_trace w w') (Some (server_fd :: st)) =
    Some (server_fd :: st).
Proof.
  induction fuel as [|fuel IH]; intros u w r w' H; [discriminate|].
  simpl in H. bind_inv H.
  pose proof (sound_done _ _ _ _ (sound_accept_body server_fd u) Hc) as E1.
  apply accept_body_round in Hc.
  pose proof (fd_accept_round _ st _ _ _ Hc) as D1.
  destruct a as [u'|r0].
  - apply IH in H as [E2 D2].
    destruct (chain _ _ _ _ _ E1 eq_refl E2 eq_refl) as [E N].
    split; [exact E|]. rewrite N, descriptors_app, D1. exact D2.
  - apply ret_done in H as [_ ->]. auto.
Qed.

Lemma fd_remove_entries rr q :
  descriptors (remove_entries rr ++ [CloseLog]) q = q.
Proof.
  destruct q as [st|]; destruct rr as [n|e]; unfold remove_entries;
    try destruct (e =? ENOENT); reflexivity.
Qed.

Lemma fd_close_entries fd rc st :
  descriptors (close_entries fd rc) (Some (fd :: st)) = Some st.
Proof. destruct rc; fd_simpl. Qed.

Lemma fd_cleanup ret_code server_fd w r w' :
  cleanup ret_code server_fd w = Done r w' ->
  (server_fd = -1 ->
   forall q, descriptors (new_trace w w') q = q) /\
  (server_fd <> -1 ->
   forall st, descriptors (new_trace w w') (Some (server_fd :: st)) = Some st).
Proof.
  intros H. apply cleanup_spec in H as (_ & tc & rr & N & Hnone & Hsome & _).
  rewrite N. split.
  - intros Hfd q. rewrite (Hnone Hfd). apply fd_remove_entries.
  - intros Hfd st. destruct (Hsome Hfd) as [rc ->].
    rewrite descriptors_app, fd_close_entries. apply fd_remove_entries.
Qed.

(** X10.  No descriptor is leaked or misused.  Over a whole run of [main],
    and over any run of [handle_client] on the socket its caller obtained
    last: every descriptor obtained from [socket], [accept] or [open] is
    closed exactly once, the one obtained last first; every call is made on
    the descriptor obtained last ([send] on the client socket, obtained just
    before the data file that is open meanwhile), never on one that was not
    obtained or was already closed.  So [accept] is called only while nothing
    but the listening socket is held: connections are served one at a time,
    and the data file is never open across two calls of [recv].  When
    [handle_client] returns its caller holds what it held before; when [main]
    returns nothing is held.  This holds on every error path. *)
Theorem descriptors_are_released :
  (forall client_fd st w u w',
      handle_client client_fd w = Done u w' ->
      descriptors (new_trace w w') (Some (client_fd :: st)) =
      Some (client_fd :: st)) /\
  (forall w r w',
      main w = Done r w' ->
      descriptors (new_trace w w') (Some []) = Some []).
Proof.
  split; [exact fd_handle_client|].
  intros w r w' H.
  apply main_parts in H as (w0 & w1 & res & Hs & Hc & E1 & E2 & N).
  apply fd_cleanup in Hc as [Hnone Hsome].
  apply serve_shape in Hs as (r1 & r2 & n & r4 & r5 & r6 & Hs).
  rewrite N, descriptors_cons, descriptors_app. simpl fd_step.
  assert (Hn : Z.of_nat n <> -1) by lia.
  destruct Hs as [(k & e & Hk & Ns & ->)
                 |(w2 & w3 & -> & E3 & N3 & Hloop & E4 & E5 & N5)].
  - rewrite Ns. simpl snd in *.
    destruct k as [|[|[|[|[|[|k]]]]]]; try lia; simpl Nat.leb in *;
      cbv iota in *.
    1-3: rewrite (Hnone eq_refl); reflexivity.
    1-3: replace (descriptors _ (Some []))
           with (Some [Z.of_nat n]) by fd_simpl;
         apply (Hsome Hn).
  - simpl snd in *. unfold while in Hloop.
    apply (fd_accept_loop _ []) in Hloop as [_ Dloop].
    destruct (chain _ _ _ _ _ E3 N3 E4 eq_refl) as [E34 N34].
    destruct (chain _ _ _ _ _ E34 N34 E5 N5) as [_ N'].
    rewrite N', !descriptors_app.
    replace (descriptors (setup_entries r1 r2 n r4 r5 r6) (Some []))
      with (Some [Z.of_nat n]) by fd_simpl.
    rewrite Dloop. apply (Hsome Hn).
Qed.

Lemma descriptors_are_released_witness :
  let w1 := final (handle_client 7 append_fails) append_fails in
  let w2 := final (main two_clients) two_clients in
  descriptors (new_trace append_fails w1) (Some [7; 3]) = Some [7; 3] /\
  descriptors (new_trace two_clients w2) (Some []) = Some [].
Proof.
  destruct descriptors_are_released as [Hclient Hmain].
  split.
  - apply (Hclient 7 [3] append_fails tt
             (final (handle_client 7 append_fails) append_fails)).
    vm_compute. reflexivity.
  - apply (Hmain two_clients 0 (final (main two_clients) two_clients)).
    vm_compute. reflexivity.
Defined.
(** ** Error lines *)

Lemma error_lines_app a b q :
  error_lines (a ++ b) q = error_lines b (error_lines a q).
Proof. apply fold_left_app. Qed.

Lemma error_lines_cons e t q :
  error_lines (e :: t) q = error_lines t (log_step q e).
Proof. reflexivity. Qed.

Lemma neq_eqb_false e x : e <> x -> (e =? x) = false.
Proof. apply Z.eqb_neq. Qed.

Ltac log_simpl :=
  unfold error_lines;
  repeat (progress (simpl;
                    repeat match goal with
                           | H : (?e =? ?x) = _ |- _ => rewrite H
                           end));
  try reflexivity.

Lemma log_write_retry fd ws held :
  forallb (write_retry fd) ws = true ->
  error_lines ws (Settled held) = Settled held.
Proof.
  induction ws as [|e ws IH]; intros H; [reflexivity|].
  simpl in H. apply andb_true_iff in H as [He Hws].
  rewrite error_lines_cons.
  replace (log_step (Settled held) e) with (Settled held); [exact (IH Hws)|].
  destruct e as [[] fd' d [n|x]| | | |]; try discriminate He; simpl in He.
  - reflexivity.
  - apply andb_true_iff in He as [_ He]. log_simpl.
Qed.

Lemma log_append_trace data r t held :
  append_trace data r t -> error_lines t (Settled held) = Settled held.
Proof.
  intros [e|n ws k e o Hws _ _ He|n ws e Hws _|n ws m Hws _].
  - reflexivity.
  - apply neq_eqb_false in He.
    rewrite error_lines_cons, error_lines_app. simpl log_step.
    rewrite (log_write_retry _ _ _ Hws). log_simpl.
  - rewrite error_lines_cons, error_lines_app. simpl log_step.
    rewrite (log_write_retry _ _ _ Hws). reflexivity.
  - rewrite error_lines_cons, error_lines_app. simpl log_step.
    rewrite (log_write_retry _ _ _ Hws). reflexivity.
Qed.

Lemma log_echo_retry client_fd fd t held :
  forallb (echo_retry client_fd fd) t = true ->
  error_lines t (Settled held) = Settled held.
Proof.
  induction t as [|e t IH]; intros H; [reflexivity|].
  simpl in H. apply andb_true_iff in H as [He Ht].
  rewrite error_lines_cons.
  replace (log_step (Settled held) e) with (Settled held); [exact (IH Ht)|].
  destruct e as [[] fd' d [n|x]| | | |]; try discriminate He; simpl in He.
  - reflexivity.
  - apply andb_true_iff in He as [_ He]. log_simpl.
  - reflexivity.
Qed.

Lemma log_echo_trace client_fd c r t held :
  echo_trace client_fd c r t -> error_lines t (Settled held) = Settled held.
Proof.
  intros [e|n t0 k e o Ht _ He|n t0 k e o Ht _|n t0 e Ht _|n t0 m Ht _].
  - reflexivity.
  - apply neq_eqb_false in He.
    rewrite error_lines_cons, error_lines_app. simpl log_step.
    rewrite (log_echo_retry _ _ _ _ Ht). log_simpl.
  - rewrite error_lines_cons, error_lines_app. simpl log_step.
    rewrite (log_echo_retry _ _ _ _ Ht). reflexivity.
  - rewrite error_lines_cons, error_lines_app. simpl log_step.
    rewrite (log_echo_retry _ _ _ _ Ht). reflexivity.
  - rewrite error_lines_cons, error_lines_app. simpl log_step.
    rewrite (log_echo_retry _ _ _ _ Ht). reflexivity.
Qed.

Lemma log_scan client_fd buf held n :
  forall i start w start' w',
    scan client_fd buf n i start w = Done start' w' ->
    error_lines (new_trace w w') (Settled held) = Settled held.
Proof.
  induction n as [|n IH]; intros i start w start' w' H; simpl in H.
  - apply ret_done in H as [_ ->]. rewrite new_trace_refl. reflexivity.
  - destruct (Byte.eqb (nth i buf x00) NL); [|exact (IH _ _ _ _ _ H)].
    bind_inv H.
    destruct (sound_with_done _ _ _ _ _ (sound_append_to_file _) Hc)
      as [E1 _].
    pose proof (append_to_file_shape _ _ _ _ Hc) as T1.
    pose proof (log_append_trace _ _ _ held T1) as D1.
    destruct (negb (a =? 0)).
    { apply ret_done in H as [_ ->]. exact D1. }
    bind_inv H.
    destruct (sound_with_done _ _ _ _ _ (sound_send_file_contents _) Hc0)
      as [E2 _].
    pose proof (send_file_contents_shape _ _ _ _ Hc0) as T2.
    pose proof (log_echo_trace _ _ _ _ held T2) as D2.
    destruct (chain _ _ _ _ _ E1 eq_refl E2 eq_refl) as [E12 N12].
    destruct (negb (a0 =? 0)).
    { apply ret_done in H as [_ ->].
      rewrite N12, error_lines_app, D1. exact D2. }
    destruct (sound_with_done _ _ _ _ _ (sound_scan _ _ _ _ _) H) as [E3 _].
    destruct (chain _ _ _ _ _ E12 N12 E3 eq_refl) as [_ N].
    rewrite N, !error_lines_app, D1, D2. exact (IH _ _ _ _ _ H).
Qed.

Lemma log_round client_fd buf w w1 k held :
  round client_fd buf w w1 k ->
  error_lines (new_trace w w1) (Settled held) = Settled held.
Proof.
  intros
    [Hx ->|N Hx|N Hx|e He N|N|chunk e Hne N|chunk m w2 Hne E2 N2 Hs
    |chunk m w2 w3 start o Hne E2 N2 Hs Hst E4 N4].
  - rewrite new_trace_refl. reflexivity.
  - rewrite N. reflexivity.
  - rewrite N. reflexivity.
  - apply neq_eqb_false in He. rewrite N. log_simpl.
  - rewrite N. reflexivity.
  - rewrite N. reflexivity.
  - destruct (sound_with_done _ _ _ _ _ (sound_scan _ _ _ _ _) Hs) as [E3 _].
    destruct (chain _ _ _ _ _ E2 N2 E3 eq_refl) as [_ N].
    rewrite N, error_lines_app.
    change (error_lines [_; _] (Settled held)) with (Settled held).
    apply (log_scan _ _ _ _ _ _ _ _ _ Hs).
  - destruct (sound_with_done _ _ _ _ _ (sound_scan _ _ _ _ _) Hs) as [E3 _].
    destruct (chain _ _ _ _ _ E2 N2 E3 eq_refl) as [E23 N23].
    destruct (chain _ _ _ _ _ E23 N23 E4 N4) as [_ N].
    rewrite N, !error_lines_app.
    change (error_lines [_; _] (Settled held)) with (Settled held).
    rewrite (log_scan _ _ _ _ _ _ _ _ _ Hs). destruct o; reflexivity.
Qed.

Lemma log_handle_loop client_fd held fuel :
  forall buf w r w',
    loop fuel (handle_body client_fd) buf w = Done r w' ->
    error_lines (new_trace w w') (Settled held) = Settled held.
Proof.
  induction fuel as [|fuel IH]; intros buf w r w' H; [discriminate|].
  simpl in H. bind_inv H.
  destruct (sound_with_done _ _ _ _ _ (sound_handle_body client_fd buf) Hc)
    as [E1 _].
  apply handle_body_round in Hc. pose proof (log_round _ _ _ _ _ held Hc) as D1.
  destruct a as [buf'|r0].
  - destruct (handle_loop_spec _ _ _ _ _ _ H) as [E2 _].
    destruct (chain _ _ _ _ _ E1 eq_refl E2 eq_refl) as [_ N].
    rewrite N, error_lines_app, D1. exact (IH _ _ _ _ H).
  - apply ret_done in H as [_ ->]. exact D1.
Qed.

Lemma log_handle_client client_fd held w u w' :
  handle_client client_fd w = Done u w' ->
  error_lines (new_trace w w') (Settled held) = Settled held.
Proof.
  intros H. unfold handle_client in H. bind_inv H. unfold while in Hc.
  destruct (handle_loop_spec _ _ _ _ _ _ Hc) as [E1 _].
  apply (log_handle_loop _ held) in Hc.
  apply record_new in H as [E2 N2].
  destruct (chain _ _ _ _ _ E1 eq_refl E2 N2) as [_ N].
  rewrite N, error_lines_app, Hc. reflexivity.
Qed.

Lemma log_accept_round server_fd w w1 k held :
  accept_round server_fd w w1 k ->
  error_lines (new_trace w w1) (Settled held) = Settled held.
Proof.
  intros [Hx ->|N Hx|N Hx|e He N|n w2 w3 o E2 N2 Hcl E4 N4].
  - rewrite new_trace_refl. reflexivity.
  - rewrite N. reflexivity.
  - rewrite N. reflexivity.
  - apply neq_eqb_false in He. rewrite N. log_simpl.
  - destruct (sound_with_done _ _ _ _ _ (sound_handle_client _) Hcl) as [E3 _].
    destruct (chain _ _ _ _ _ E2 N2 E3 eq_refl) as [E23 N23].
    destruct (chain _ _ _ _ _ E23 N23 E4 N4) as [_ N].
    rewrite N, !error_lines_app.
    change (error_lines [_; _] (Settled held))
      with (Settled (Connection :: held)).
    rewrite (log_handle_client _ _ _ _ _ Hcl).
    destruct o; reflexivity.
Qed.

Lemma log_accept_loop server_fd held fuel :
  forall u w r w',
    loop fuel (accept_body server_fd) u w = Done r w' ->
    extends w w' /\
    error_lines (new_trace w w') (Settled held) = Settled held.
Proof.
  induction fuel as [|fuel IH]; intros u w r w' H; [discriminate|].
  simpl in H. bind_inv H.
  pose proof (sound_done _ _ _ _ (sound_accept_body server_fd u) Hc) as E1.
  apply accept_body_round in Hc.
  pose proof (log_accept_round _ _ _ _ held Hc) as D1.
  destruct a as [u'|r0].
  - apply IH in H as [E2 D2].
    destruct (chain _ _ _ _ _ E1 eq_refl E2 eq_refl) as [E N].
    split; [exact E|]. rewrite N, error_lines_app, D1. exact D2.
  - apply ret_done in H as [_ ->]. auto.
Qed.

Lemma log_remove_entries rr held :
  error_lines (remove_entries rr ++ [CloseLog]) (Settled held) = Settled held.
Proof.
  destruct rr as [n|e]; unfold remove_entries.
  - reflexivity.
  - destruct (e =? ENOENT) eqn:He; log_simpl.
Qed.

Lemma log_cleanup ret_code server_fd w r w' :
  cleanup ret_code server_fd w = Done r w' ->
  (server_fd = -1 ->
   forall held,
     error_lines (new_trace w w') (Settled held) = Settled held) /\
  (server_fd <> -1 ->
   forall held,
     error_lines (new_trace w w') (Settled (Listening :: held)) =
     Settled held).
Proof.
  intros H. apply cleanup_spec in H as (_ & tc & rr & N & Hnone & Hsome & _).
  rewrite N. split.
  - intros Hfd held. rewrite (Hnone Hfd). apply log_remove_entries.
  - intros Hfd held. destruct (Hsome Hfd) as [rc ->].
    rewrite error_lines_app.
    replace (error_lines (close_entries server_fd rc)
               (Settled (Listening :: held)))
      with (Settled held) by (destruct rc; reflexivity).
    apply log_remove_entries.
Qed.

(** X11.  Failures and error lines correspond, message by message.  Over a
    whole run of [main], and over any run of [handle_client]: every [LOG_ERR]
    line directly follows a failed call and is the line of that call, so
    [errno] is still that of the failure when the line is formatted; every
    failed call is directly followed by its own error line, except an
    [accept], [recv], [send] or [write] that was interrupted, a [remove] that
    found no file, and the shrinking [realloc].  A [close] that fails on a
    regular path is followed by the line of what was closed (the data file,
    the client socket, the listening socket).  After the error line of a
    failed [write], [send] or [read] the next call is the [close] of the data
    file, and the failure of that [close] alone is not reported.  No other
    failure goes unreported and no error line is spurious.  What is obtained
    from [socket], [accept] and [open] has been closed again by the end. *)
Theorem failures_and_error_lines :
  (forall client_fd held w u w',
      handle_client client_fd w = Done u w' ->
      error_lines (new_trace w w') (Settled held) = Settled held) /\
  (forall w r w',
      main w = Done r w' ->
      error_lines (new_trace w w') (Settled []) = Settled []).
Proof.
  split; [exact log_handle_client|].
  intros w r w' H.
  apply main_parts in H as (w0 & w1 & res & Hs & Hc & E1 & E2 & N).
  apply log_cleanup in Hc as [Hnone Hsome].
  apply serve_shape in Hs as (r1 & r2 & n & r4 & r5 & r6 & Hs).
  rewrite N, error_lines_cons, error_lines_app. simpl log_step.
  assert (Hn : Z.of_nat n <> -1) by lia.
  destruct Hs as [(k & e & Hk & Ns & ->)
                 |(w2 & w3 & -> & E3 & N3 & Hloop & E4 & E5 & N5)].
  - rewrite Ns. simpl snd in *.
    destruct k as [|[|[|[|[|[|k]]]]]]; try lia; simpl Nat.leb in *;
      cbv iota in *.
    1-3: match goal with
         | |- error_lines _ ?q = _ =>
             replace q with (Settled []) by reflexivity
         end; apply (Hnone eq_refl).
    1-3: match goal with
         | |- error_lines _ ?q = _ =>
             replace q with (Settled [Listening]) by reflexivity
         end; apply (Hsome Hn).
  - simpl snd in *. unfold while in Hloop.
    apply (log_accept_loop _ [Listening]) in Hloop as [_ Dloop].
    destruct (chain _ _ _ _ _ E3 N3 E4 eq_refl) as [E34 N34].
    destruct (chain _ _ _ _ _ E34 N34 E5 N5) as [_ N'].
    rewrite N', !error_lines_app.
    change (error_lines (setup_entries r1 r2 n r4 r5 r6) (Settled []))
      with (Settled [Listening]).
    rewrite Dloop. apply (Hsome Hn).
Qed.

Lemma failures_and_error_lines_witness :
  let w1 := final (handle_client 7 append_fails) append_fails in
  let w2 := final (main bind_fails) bind_fails in
  error_lines (new_trace append_fails w1) (Settled [Connection; Listening]) =
    Settled [Connection; Listening] /\
  error_lines (new_trace bind_fails w2) (Settled []) = Settled [].
Proof.
  destruct failures_and_error_lines as [Hclient Hmain].
  split.
  - apply (Hclient 7 [Connection; Listening] append_fails tt
             (final (handle_client 7 append_fails) append_fails)).
    vm_compute. reflexivity.
  - apply (Hmain bind_fails (-1) (final (main bind_fails) bind_fails)).
    vm_compute. reflexivity.
Defined.

(** ** The buffer between rounds *)

Lemma last_firstn {A} (d : A) :
  forall s l, (0 < s <= length l)%nat -> last (firstn s l) d = nth (s - 1) l d.
Proof.
  induction s as [|s IH]; intros l H; [lia|].
  destruct l as [|x l]; [simpl in H; lia|].
  destruct s as [|s].
  - reflexivity.
  - simpl in H. change (firstn (S (S s)) (x :: l)) with (x :: firstn (S s) l).
    replace (S (S s) - 1)%nat with (S (S s - 1)) by lia.
    change (nth (S (S s - 1)) (x :: l) d) with (nth (S s - 1) l d).
    rewrite <- IH by lia.
    destruct l as [|y l]; [simpl in H; lia|]. reflexivity.
Qed.

(** X12.  The packet buffer between two rounds of the receive loop, whatever
    failed in the round: the buffer after the round is the buffer before it
    followed by the bytes received in the round, with a front part removed
    that is either empty or ends with a delimiter.  Bytes are never
    reordered or repeated in the buffer, and it is only ever cut just after
    a delimiter; after a failed round complete records can stay in it. *)
Theorem buffer_is_cut_after_a_delimiter client_fd buf w buf' w1 :
  handle_body client_fd buf w = Done (Continue buf') w1 ->
  exists consumed,
    buf ++ received (new_trace w w1) = consumed ++ buf' /\
    (consumed = [] \/ last consumed x00 = NL).
Proof.
  intros H. apply handle_body_round in H. inversion H
    as [| |N Hx Hk| | | |chunk m w2 Hne E2 N2 Hs Hk
       |chunk m w2 w3 start o Hne E2 N2 Hs Hst E4 N4 Hk]; subst.
  - exists []. rewrite N. simpl. rewrite app_nil_r. auto.
  - destruct (sound_with_done _ _ _ _ _ (sound_scan _ _ _ _ _) Hs) as [E3 _].
    destruct (scan_all_runs client_fd (buf ++ chunk) [] [] (buf ++ chunk)
                0 0 w2 0 w1 eq_refl eq_refl eq_refl eq_refl Hs)
      as (_ & _ & _ & _ & _ & _ & HR & _).
    destruct (chain _ _ _ _ _ E2 N2 E3 eq_refl) as [_ N].
    exists []. rewrite N, received_app, HR. simpl. rewrite !app_nil_r. auto.
  - destruct (sound_with_done _ _ _ _ _ (sound_scan _ _ _ _ _) Hs) as [E3 _].
    destruct (scan_all_runs client_fd (buf ++ chunk) [] [] (buf ++ chunk)
                0 0 w2 start w3 eq_refl eq_refl eq_refl eq_refl Hs)
      as (_ & _ & _ & _ & _ & _ & HR & _).
    destruct (scan_range _ _ _ _ _ _ _ _ (Nat.le_refl 0) Hs) as [Hcut _].
    destruct (chain _ _ _ _ _ E2 N2 E3 eq_refl) as [E23 N23].
    destruct (chain _ _ _ _ _ E23 N23 E4 N4) as [_ N].
    exists (firstn start (buf ++ chunk)).
    rewrite N, !received_app, HR. simpl. rewrite !app_nil_r.
    split; [symmetry; apply firstn_skipn|]. right.
    rewrite last_firstn by lia.
    destruct Hcut as [->|[_ Hnl]]; [lia|exact Hnl].
Qed.

Lemma buffer_is_cut_after_a_delimiter_witness :
  let w := echo_fails in
  let w1 := final (handle_body 7 [] echo_fails) echo_fails in
  exists consumed,
    [] ++ received (new_trace w w1) = consumed ++ line "b" /\
    (consumed = [] \/ last consumed x00 = NL).
Proof.
  apply (buffer_is_cut_after_a_delimiter 7 [] echo_fails (line "b")
           (final (handle_body 7 [] echo_fails) echo_fails)).
  vm_compute. reflexivity.
Defined.
(** ** send_file_contents returns *)

Lemma bind_run {A B} (m : M A) (f : A -> M B) w a w1 :
  m w = Done a w1 -> bind m f w = f a w1.
Proof. unfold bind. intros ->. reflexivity. Qed.

Lemma sys_runs c arg w ev rest n :
  oracle w = ev :: rest -> answer ev = Ok n ->
  exists w1,
    sys c arg w = Done (Z.of_nat n) w1 /\
    oracle w1 = rest /\ data_file w1 = data_file w.
Proof.
  intros Ho Ha. destruct w as [x e f t o]. simpl in Ho. subst o.
  unfold sys, bind, next_event. simpl. rewrite deliver_eq. simpl.
  rewrite Ha. eexists. split; [reflexivity|]. auto.
Qed.

Lemma open_rdonly_runs w ev rest n c :
  oracle w = ev :: rest -> answer ev = Ok n -> data_file w = Some c ->
  exists w1,
    open_rdonly w = Done (Z.of_nat n) w1 /\
    oracle w1 = rest /\ data_file w1 = Some c.
Proof.
  intros Ho Ha Hf. destruct w as [x e f t o]. simpl in Ho, Hf. subst o f.
  unfold open_rdonly, bind, next_event, get_file. simpl.
  rewrite deliver_eq. simpl. rewrite Ha.
  eexists. split; [reflexivity|]. auto.
Qed.

Lemma read_runs fd off count w ev rest n :
  oracle w = ev :: rest -> answer ev = Ok n ->
  exists w1,
    read fd off count w =
      Done (Z.of_nat (length (firstn (Nat.min (Nat.max n 1) count)
                                     (skipn off (contents w)))),
            firstn (Nat.min (Nat.max n 1) count) (skipn off (contents w))) w1 /\
    oracle w1 = rest /\ data_file w1 = data_file w.
Proof.
  intros Ho Ha. destruct w as [x e f t o]. simpl in Ho. subst o.
  unfold read, bind, next_event, get_file. cbn -[firstn skipn Nat.min Nat.max].
  rewrite deliver_eq. cbn -[firstn skipn Nat.min Nat.max]. rewrite Ha.
  eexists. split; [reflexivity|]. auto.
Qed.

Lemma send_runs fd buf w ev rest n :
  oracle w = ev :: rest -> answer ev = Ok n ->
  exists w1,
    send fd buf w = Done (Z.of_nat (length (firstn n buf))) w1 /\
    oracle w1 = rest /\ data_file w1 = data_file w.
Proof.
  intros Ho Ha. destruct w as [x e f t o]. simpl in Ho. subst o.
  unfold send, bind, next_event. cbn -[firstn skipn].
  rewrite deliver_eq. cbn -[firstn skipn]. rewrite Ha.
  eexists. split; [reflexivity|]. auto.
Qed.

Lemma send_fails_runs fd buf w ev rest e :
  oracle w = ev :: rest -> answer ev = Err e ->
  exists w1,
    send fd buf w = Done (-1) w1 /\
    oracle w1 = rest /\ data_file w1 = data_file w /\ errno w1 = e.
Proof.
  intros Ho Ha. destruct w as [x e0 f t o]. simpl in Ho. subst o.
  unfold send, failed, bind, next_event, record, set_errno, ret.
  cbn -[firstn skipn]. rewrite deliver_eq. cbn -[firstn skipn]. rewrite Ha.
  eexists. split; [reflexivity|]. auto.
Qed.

Lemma passes_length rem evs rest :
  passes rem evs = Some rest -> (length rest <= length evs)%nat.
Proof.
  revert rem. induction evs as [|ev evs IH]; intros rem H.
  - destruct rem; [|discriminate H]. injection H as <-. lia.
  - destruct rem as [|rem]; [injection H as <-; lia|].
    simpl in H. destruct (answer ev) as [n|e].
    + apply IH in H. simpl. lia.
    + destruct (e =? EINTR); [|discriminate H]. apply IH in H. simpl. lia.
Qed.

(** The send loop comes to its end on answers that pass the chunk. *)
Lemma send_loop_passes client_fd fd buf :
  forall evs sent_total w fuel rest,
    oracle w = evs ->
    passes (length buf - sent_total) evs = Some rest ->
    (length evs < fuel)%nat ->
    exists w',
      loop fuel (send_body client_fd fd buf) sent_total w = Done 0 w' /\
      oracle w' = rest /\ data_file w' = data_file w.
Proof.
  assert (Hend : forall sent_total w fuel,
             (length buf - sent_total = 0)%nat -> (0 < fuel)%nat ->
             loop fuel (send_body client_fd fd buf) sent_total w = Done 0 w).
  { intros sent_total w fuel Hr Hf. destruct fuel as [|fuel]; [lia|].
    simpl. unfold bind, send_body.
    replace (sent_total <? length buf)%nat with false
      by (symmetry; apply Nat.ltb_ge; lia).
    reflexivity. }
  induction evs as [|ev evs IH]; intros sent_total w fuel rest Ho Hp Hfuel.
  - destruct (length buf - sent_total)%nat eqn:Hr; [|discriminate Hp].
    injection Hp as <-. exists w. rewrite Hend by lia. auto.
  - destruct (length buf - sent_total)%nat as [|r] eqn:Hr.
    { injection Hp as <-. exists w. rewrite Hend by lia. auto. }
    assert (Hlt : (sent_total <? length buf)%nat = true)
      by (apply Nat.ltb_lt; lia).
    destruct fuel as [|fuel]; [lia|]. simpl in Hfuel, Hp.
    destruct (answer ev) as [n|e] eqn:Ha.
    + destruct (send_runs client_fd (skipn sent_total buf) w ev evs n Ho Ha)
        as (w1 & Hsend & Ho1 & Hf1).
      set (put := firstn n (skipn sent_total buf)) in *.
      assert (Hput : length put = Nat.min n (S r)).
      { unfold put. rewrite length_firstn, length_skipn, Hr. reflexivity. }
      assert (Hbody : send_body client_fd fd buf sent_total w =
                      Done (Continue (sent_total + length put)%nat) w1).
      { unfold send_body. rewrite Hlt, (bind_run _ _ _ _ _ Hsend).
        rewrite of_nat_ltb_0, Nat2Z.id. reflexivity. }
      destruct (IH (sent_total + length put)%nat w1 fuel rest Ho1)
        as (w' & Hl & Hr' & Hf'); [|lia|].
      { replace (length buf - (sent_total + length put))%nat
          with (S r - n)%nat by lia.
        exact Hp. }
      exists w'. cbn [loop]. rewrite (bind_run _ _ _ _ _ Hbody).
      split; [exact Hl|]. split; [exact Hr'|congruence].
    + destruct (e =? EINTR) eqn:He; [|discriminate Hp].
      destruct (send_fails_runs client_fd (skipn sent_total buf) w ev evs e
                  Ho Ha) as (w1 & Hsend & Ho1 & Hf1 & He1).
      assert (Hbody : send_body client_fd fd buf sent_total w =
                      Done (Continue sent_total) w1).
      { unfold send_body. rewrite Hlt, (bind_run _ _ _ _ _ Hsend).
        change (-1 <? 0) with true. cbv iota.
        unfold bind at 1, get_errno. rewrite He1, He. reflexivity. }
      destruct (IH sent_total w1 fuel rest Ho1)
        as (w' & Hl & Hr' & Hf'); [rewrite Hr; exact Hp|lia|].
      exists w'. cbn [loop]. rewrite (bind_run _ _ _ _ _ Hbody).
      split; [exact Hl|]. split; [exact Hr'|congruence].
Qed.

(** The read loop reaches the end of the file on answers that feed it. *)
Lemma read_loop_feeds client_fd fd c :
  forall rounds off w fuel evs rest,
    oracle w = evs ->
    data_file w = Some c ->
    feeds rounds (length c - off) evs = Some rest ->
    (length evs < fuel)%nat ->
    exists w',
      loop fuel (read_body client_fd fd) off w = Done (Exit 0) w' /\
      oracle w' = rest /\ data_file w' = Some c.
Proof.
  induction rounds as [|rounds IH]; intros off w fuel evs rest Ho Hfile Hp Hfuel;
    [discriminate Hp|].
  destruct evs as [|ev evs]; [discriminate Hp|].
  cbn [feeds] in Hp.
  destruct (answer ev) as [n|e] eqn:Ha; [|discriminate Hp].
  destruct fuel as [|fuel]; [lia|]. simpl in Hfuel.
  destruct (read_runs fd off BUF_SIZE w ev evs n Ho Ha)
    as (w1 & Hread & Ho1 & Hf1).
  rewrite (contents_some _ _ Hfile) in Hread.
  set (got := firstn (Nat.min (Nat.max n 1) BUF_SIZE) (skipn off c)) in *.
  assert (Hgot : length got =
                 Nat.min (Nat.min (Nat.max n 1) BUF_SIZE) (length c - off)).
  { unfold got. rewrite length_firstn, length_skipn. reflexivity. }
  rewrite <- Hgot in Hp.
  destruct (length got) as [|k] eqn:Hk.
  - injection Hp as <-.
    apply length_zero_iff_nil in Hk. rewrite Hk in Hread.
    assert (Hbody : read_body client_fd fd off w = Done (Break (Exit 0)) w1).
    { unfold read_body. rewrite (bind_run _ _ _ _ _ Hread). reflexivity. }
    exists w1. cbn [loop]. rewrite (bind_run _ _ _ _ _ Hbody).
    split; [reflexivity|]. split; [exact Ho1|congruence].
  - destruct (passes (S k) evs) as [evs2|] eqn:Hpass; [|discriminate Hp].
    pose proof (passes_length _ _ _ Hpass) as Hle.
    destruct (send_loop_passes client_fd fd got evs 0 w1
                (S (length (oracle w1))) evs2 Ho1)
      as (w2 & Hsend & Ho2 & Hf2).
    { rewrite Nat.sub_0_r, Hk. exact Hpass. }
    { rewrite Ho1. lia. }
    assert (Hbody : read_body client_fd fd off w =
                    Done (Continue (off + length got)%nat) w2).
    { assert (Hwhile : while (send_body client_fd fd got) 0%nat w1 = Done 0 w2)
        by exact Hsend.
      unfold read_body. rewrite (bind_run _ _ _ _ _ Hread).
      cbv beta iota zeta.
      replace (0 <? Z.of_nat (S k)) with true
        by (symmetry; apply Z.ltb_lt; lia).
      rewrite (bind_run _ _ _ _ _ Hwhile). reflexivity. }
    destruct (IH (off + length got)%nat w2 fuel evs2 rest Ho2)
      as (w' & Hl & Hr' & Hf'); [congruence| |lia|].
    { replace (length c - (off + length got))%nat
        with (length c - off - S k)%nat by lia.
      exact Hp. }
    exists w'. cbn [loop]. rewrite (bind_run _ _ _ _ _ Hbody).
    split; [exact Hl|]. split; [exact Hr'|exact Hf'].
Qed.

Lemma send_file_contents_runs client_fd w c rest :
  data_file w = Some c ->
  echo_answers c (oracle w) = Some rest ->
  exists w',
    send_file_contents client_fd w = Done 0 w' /\ oracle w' = rest.
Proof.
  intros Hfile Hp. unfold echo_answers in Hp.
  destruct (oracle w) as [|ev evs] eqn:Ho; [discriminate Hp|].
  destruct (answer ev) as [n|e] eqn:Ha; [|discriminate Hp].
  destruct (feeds (S (length c)) (length c) evs) as [[|cl rest']|] eqn:Hfeed;
    try discriminate Hp.
  destruct (answer cl) as [m|e] eqn:Hcl; [|discriminate Hp].
  injection Hp as <-.
  destruct (open_rdonly_runs w ev evs n c Ho Ha Hfile)
    as (w1 & Hopen & Ho1 & Hf1).
  destruct (read_loop_feeds client_fd (Z.of_nat n) c (S (length c)) 0 w1
              (S (length (oracle w1))) evs (cl :: rest') Ho1 Hf1)
    as (w2 & Hloop & Ho2 & Hf2).
  { rewrite Nat.sub_0_r. exact Hfeed. }
  { rewrite Ho1. lia. }
  destruct (sys_runs CLOSE (Z.of_nat n) w2 cl rest' m Ho2 Hcl)
    as (w3 & Hclose & Ho3 & _).
  assert (Hwhile : while (read_body client_fd (Z.of_nat n)) 0%nat w1
                   = Done (Exit 0) w2) by exact Hloop.
  exists w3. split; [|exact Ho3].
  unfold send_file_contents.
  rewrite (bind_run _ _ _ _ _ Hopen), of_nat_eqb_m1.
  rewrite (bind_run _ _ _ _ _ Hwhile).
  change (0 <? 0) with false. cbv iota.
  unfold close. rewrite (bind_run _ _ _ _ _ Hclose), of_nat_eqb_m1.
  reflexivity.
Qed.

(** Conversely, a run that returns 0 was given such answers. *)

Lemma hd_oracle w ev :
  hd_error (oracle w) = Some ev -> oracle w = ev :: tl (oracle w).
Proof. destruct (oracle w); simpl; intros H; [discriminate|congruence]. Qed.

Lemma passes_0 evs : passes 0 evs = Some evs.
Proof. destruct evs; reflexivity. Qed.

Lemma send_loop_passed client_fd fd buf fuel :
  forall sent_total w w',
    loop fuel (send_body client_fd fd buf) sent_total w = Done 0 w' ->
    passes (length buf - sent_total) (oracle w) = Some (oracle w').
Proof.
  induction fuel as [|fuel IH]; intros sent_total w w' H; [discriminate|].
  simpl in H. bind_inv H. unfold send_body in Hc.
  destruct (sent_total <? length buf)%nat eqn:Hlt.
  - apply Nat.ltb_lt in Hlt. bind_inv Hc.
    apply send_done in Hc0 as (ev & Hhd & Hs).
    rewrite (hd_oracle _ _ Hhd).
    destruct (length buf - sent_total)%nat as [|r] eqn:Hr; [lia|].
    cbn [passes]. destruct (answer ev) as [n|e].
    + destruct Hs as [-> ->]. rewrite of_nat_ltb_0 in Hc. ret_inv Hc.
      apply IH in H. rewrite Nat2Z.id in H. simpl oracle in H.
      rewrite <- H. f_equal.
      rewrite length_firstn, length_skipn. lia.
    + destruct Hs as [-> ->]. change (-1 <? 0) with true in Hc.
      cbv iota in Hc. unfold bind at 1, get_errno in Hc. simpl in Hc.
      destruct (e =? EINTR).
      * ret_inv Hc. apply IH in H. rewrite Hr in H. exact H.
      * bind_inv Hc. bind_inv Hc. ret_inv Hc.
        apply ret_done in H as [Hbad _]. discriminate Hbad.
  - apply Nat.ltb_ge in Hlt. ret_inv Hc. apply ret_done in H as [_ ->].
    replace (length buf - sent_total)%nat with 0%nat by lia.
    apply passes_0.
Qed.

Lemma read_loop_fed client_fd fd c fuel :
  forall off w w' rounds,
    loop fuel (read_body client_fd fd) off w = Done (Exit 0) w' ->
    data_file w = Some c ->
    (length c - off < rounds)%nat ->
    feeds rounds (length c - off) (oracle w) = Some (oracle w').
Proof.
  induction fuel as [|fuel IH]; intros off w w' rounds H Hfile Hrounds;
    [discriminate|].
  simpl in H. bind_inv H. unfold read_body in Hc. bind_inv Hc.
  destruct a0 as [bytes buf].
  apply read_done in Hc0 as (ev & Hhd & Hr).
  rewrite (hd_oracle _ _ Hhd).
  destruct rounds as [|rounds]; [lia|]. cbn [feeds].
  destruct (answer ev) as [n|e].
  - destruct Hr as (Hbuf & -> & ->).
    rewrite (contents_some _ _ Hfile) in Hbuf.
    assert (Hlen : length buf =
                   Nat.min (Nat.min (Nat.max n 1) BUF_SIZE) (length c - off)).
    { rewrite Hbuf, length_firstn, length_skipn. reflexivity. }
    rewrite <- Hlen. cbv beta iota zeta in Hc.
    destruct (length buf) as [|k] eqn:Hk.
    + change (0 <? Z.of_nat 0) with false in Hc. cbv iota in Hc.
      ret_inv Hc. apply ret_done in H as [_ ->]. reflexivity.
    + replace (0 <? Z.of_nat (S k)) with true in Hc
        by (symmetry; apply Z.ltb_lt; lia).
      cbv iota in Hc. bind_inv Hc. unfold while in Hc0.
      destruct (send_loop_spec _ _ _ _ _ _ _ _ Hc0) as (E2 & F2 & Hs).
      destruct Hs as [(-> & _)|(-> & _)].
      * change (0 =? -1) with false in Hc. cbv iota in Hc. ret_inv Hc.
        apply send_loop_passed in Hc0.
        rewrite Nat.sub_0_r, Hk in Hc0. simpl oracle in Hc0.
        rewrite Hc0.
        assert (Hfile2 : data_file w1 = Some c).
        { rewrite <- Hfile. apply (echo_keeps_file _ _ E2 F2). }
        specialize (IH _ _ _ rounds H Hfile2 ltac:(lia)).
        rewrite <- IH. f_equal. lia.
      * change (-1 =? -1) with true in Hc. cbv iota in Hc. ret_inv Hc.
        apply ret_done in H as [Hbad _]. discriminate Hbad.
  - destruct Hr as (-> & -> & ->). cbv beta iota zeta in Hc.
    change (0 <? -1) with false in Hc. cbv iota in Hc. ret_inv Hc.
    apply ret_done in H as [Hbad _]. discriminate Hbad.
Qed.

Lemma send_file_contents_was_let client_fd w c w' :
  data_file w = Some c ->
  send_file_contents client_fd w = Done 0 w' ->
  echo_answers c (oracle w) = Some (oracle w').
Proof.
  intros Hfile H. unfold send_file_contents in H. bind_inv H.
  apply open_rdonly_done in Hc as (ev & Hhd & Ho).
  unfold echo_answers. rewrite (hd_oracle _ _ Hhd).
  rewrite Hfile in Ho.
  destruct (answer ev) as [n|e].
  2:{ destruct Ho as [-> ->]. change (-1 =? -1) with true in H. cbv iota in H.
      bind_inv H. apply ret_done in H as [Hbad _]. discriminate Hbad. }
  destruct Ho as [-> ->]. rewrite of_nat_eqb_m1 in H.
  bind_inv H. unfold while in Hc.
  pose proof (read_loop_spec _ _ _ _ _ _ _ Hc) as (_ & _ & Hl).
  destruct a as [r|bytes].
  { destruct Hl as [-> _]. apply ret_done in H as [Hbad _]. discriminate Hbad. }
  destruct Hl as [(-> & _)|(Hneg & _)].
  2:{ replace (bytes <? 0) with true in H
        by (symmetry; apply Z.ltb_lt; exact Hneg).
      bind_inv H. bind_inv H. apply ret_done in H as [Hbad _].
      discriminate Hbad. }
  apply (read_loop_fed _ _ c) with (rounds := S (length c)) in Hc;
    [|reflexivity|lia].
  rewrite Nat.sub_0_r in Hc. simpl oracle in Hc. rewrite Hc.
  change (0 <? 0) with false in H. cbv iota in H.
  bind_inv H. apply sys_done in Hc0 as (ev2 & Hhd2 & Hcl).
  rewrite (hd_oracle _ _ Hhd2).
  destruct (answer ev2) as [m|e2]; destruct Hcl as [-> ->].
  - rewrite of_nat_eqb_m1 in H. apply ret_done in H as [_ ->]. reflexivity.
  - change (-1 =? -1) with true in H. cbv iota in H.
    bind_inv H. apply ret_done in H as [Hbad _]. discriminate Hbad.
Qed.

(** X13.  [send_file_contents] returns.  The answers of the environment let
    every call succeed when the open and the close return, every read
    returns, and every send takes some bytes of the chunk or none, or is
    interrupted, until the chunk has gone.  On a data file that exists,
    [send_file_contents] returns 0 exactly when it is given such answers, and
    it uses exactly those: it is neither blocked nor stopped by the loop
    bound of the model, however short the sends are.  The bytes sent are then
    the whole file, and the file is as it was. *)
Theorem send_file_contents_returns client_fd w c rest :
  data_file w = Some c ->
  (echo_answers c (oracle w) = Some rest <->
   exists w', send_file_contents client_fd w = Done 0 w' /\ oracle w' = rest) /\
  (forall w',
      send_file_contents client_fd w = Done 0 w' ->
      sent (new_trace w w') = c /\ data_file w' = Some c).
Proof.
  intros Hfile. split; [split|].
  - apply (send_file_contents_runs client_fd w c rest Hfile).
  - intros (w' & Hrun & <-).
    apply (send_file_contents_was_let client_fd w c w' Hfile Hrun).
  - intros w' Hrun.
    destruct (send_file_contents_spec _ _ _ _ Hrun)
      as [Hf [(_ & Hs & _)|(Hbad & _)]]; [|discriminate Hbad].
    rewrite Hs, (contents_some _ _ Hfile). split; [reflexivity|congruence].
Qed.

Lemma send_file_contents_returns_witness :
  exists w',
    (send_file_contents 7 patient = Done 0 w' /\
     oracle w' = [delivers (line "next")]) /\
    sent (new_trace patient w') = line "hello" /\
    data_file w' = Some (line "hello").
Proof.
  destruct (send_file_contents_returns 7 patient (line "hello")
              [delivers (line "next")]) as [[Hrun _] Hsent].
  - reflexivity.
  - destruct Hrun as (w' & Hdone & Ho); [vm_compute; reflexivity|].
    exists w'. split; [split; assumption|]. apply (Hsent w' Hdone).
Defined.
(** ** A packet is stored and answered *)

Lemma open_append_runs w ev rest n :
  oracle w = ev :: rest -> answer ev = Ok n ->
  exists w1,
    open_append w = Done (Z.of_nat n) w1 /\
    oracle w1 = rest /\ data_file w1 = Some (contents w).
Proof.
  intros Ho Ha. destruct w as [x e f t o]. simpl in Ho. subst o.
  unfold open_append, bind, next_event, get_file, set_file, record, ret.
  simpl. rewrite deliver_eq. simpl. rewrite Ha.
  eexists. split; [reflexivity|]. split; reflexivity.
Qed.

Lemma write_runs fd buf w ev rest n :
  oracle w = ev :: rest -> answer ev = Ok n ->
  exists w1,
    write fd buf w = Done (Z.of_nat (length (firstn n buf))) w1 /\
    oracle w1 = rest.
Proof.
  intros Ho Ha. destruct w as [x e f t o]. simpl in Ho. subst o.
  unfold write, bind, next_event, get_file, set_file, record, ret.
  cbn -[firstn skipn]. rewrite deliver_eq. cbn -[firstn skipn]. rewrite Ha.
  eexists. split; [reflexivity|]. auto.
Qed.

Lemma write_fails_runs fd buf w ev rest e :
  oracle w = ev :: rest -> answer ev = Err e ->
  exists w1,
    write fd buf w = Done (-1) w1 /\ oracle w1 = rest /\ errno w1 = e.
Proof.
  intros Ho Ha. destruct w as [x e0 f t o]. simpl in Ho. subst o.
  unfold write, failed, bind, next_event, record, set_errno, ret.
  cbn -[firstn skipn]. rewrite deliver_eq. cbn -[firstn skipn]. rewrite Ha.
  eexists. split; [reflexivity|]. auto.
Qed.

Lemma recv_runs fd w ev rest n :
  oracle w = ev :: rest -> answer ev = Ok n ->
  exists w1,
    recv fd w =
      Done (Z.of_nat (length (firstn (Nat.min n BUF_SIZE) (payload ev))),
            firstn (Nat.min n BUF_SIZE) (payload ev)) w1 /\
    oracle w1 = rest /\ data_file w1 = data_file w.
Proof.
  intros Ho Ha. destruct w as [x e f t o]. simpl in Ho. subst o.
  unfold recv, bind, next_event. cbn -[firstn Nat.min].
  rewrite deliver_eq. cbn -[firstn Nat.min]. rewrite Ha.
  eexists. split; [reflexivity|]. auto.
Qed.

Lemma realloc_runs c size w ev rest :
  oracle w = ev :: rest ->
  exists w1,
    realloc c size w =
      Done (match answer ev with Ok _ => true | Err _ => false end) w1 /\
    oracle w1 = rest /\ data_file w1 = data_file w.
Proof.
  intros Ho. destruct w as [x e f t o]. simpl in Ho. subst o.
  unfold realloc, bind, next_event, record. simpl. rewrite deliver_eq. simpl.
  destruct (answer ev); eexists; (split; [reflexivity|]); auto.
Qed.

(** The write loop comes to its end on answers that pass the record. *)
Lemma write_loop_passes fd data :
  forall evs written w fuel rest,
    oracle w = evs ->
    passes (length data - written) evs = Some rest ->
    (length evs < fuel)%nat ->
    exists w',
      loop fuel (write_body fd data) written w = Done 0 w' /\
      oracle w' = rest.
Proof.
  assert (Hend : forall written w fuel,
             (length data - written = 0)%nat -> (0 < fuel)%nat ->
             loop fuel (write_body fd data) written w = Done 0 w).
  { intros written w fuel Hr Hf. destruct fuel as [|fuel]; [lia|].
    simpl. unfold bind, write_body.
    replace (written <? length data)%nat with false
      by (symmetry; apply Nat.ltb_ge; lia).
    reflexivity. }
  induction evs as [|ev evs IH]; intros written w fuel rest Ho Hp Hfuel.
  - destruct (length data - written)%nat eqn:Hr; [|discriminate Hp].
    injection Hp as <-. exists w. rewrite Hend by lia. auto.
  - destruct (length data - written)%nat as [|r] eqn:Hr.
    { injection Hp as <-. exists w. rewrite Hend by lia. auto. }
    assert (Hlt : (written <? length data)%nat = true)
      by (apply Nat.ltb_lt; lia).
    destruct fuel as [|fuel]; [lia|]. simpl in Hfuel, Hp.
    destruct (answer ev) as [n|e] eqn:Ha.
    + destruct (write_runs fd (skipn written data) w ev evs n Ho Ha)
        as (w1 & Hwrite & Ho1).
      set (put := firstn n (skipn written data)) in *.
      assert (Hput : length put = Nat.min n (S r)).
      { unfold put. rewrite length_firstn, length_skipn, Hr. reflexivity. }
      assert (Hbody : write_body fd data written w =
                      Done (Continue (written + length put)%nat) w1).
      { unfold write_body. rewrite Hlt, (bind_run _ _ _ _ _ Hwrite).
        rewrite of_nat_ltb_0, Nat2Z.id. reflexivity. }
      destruct (IH (written + length put)%nat w1 fuel rest Ho1)
        as (w' & Hl & Hr'); [|lia|].
      { replace (length data - (written + length put))%nat
          with (S r - n)%nat by lia.
        exact Hp. }
      exists w'. cbn [loop]. rewrite (bind_run _ _ _ _ _ Hbody). auto.
    + destruct (e =? EINTR) eqn:He; [|discriminate Hp].
      destruct (write_fails_runs fd (skipn written data) w ev evs e Ho Ha)
        as (w1 & Hwrite & Ho1 & He1).
      assert (Hbody : write_body fd data written w =
                      Done (Continue written) w1).
      { unfold write_body. rewrite Hlt, (bind_run _ _ _ _ _ Hwrite).
        change (-1 <? 0) with true. cbv iota.
        unfold bind at 1, get_errno. rewrite He1, He. reflexivity. }
      destruct (IH written w1 fuel rest Ho1)
        as (w' & Hl & Hr'); [rewrite Hr; exact Hp|lia|].
      exists w'. cbn [loop]. rewrite (bind_run _ _ _ _ _ Hbody). auto.
Qed.

Lemma append_to_file_runs data w rest :
  append_answers data (oracle w) = Some rest ->
  exists w', append_to_file data w = Done 0 w' /\ oracle w' = rest.
Proof.
  intros Hp. unfold append_answers in Hp.
  destruct (oracle w) as [|ev evs] eqn:Ho; [discriminate Hp|].
  destruct (answer ev) as [n|e] eqn:Ha; [|discriminate Hp].
  destruct (passes (length data) evs) as [[|cl rest']|] eqn:Hpass;
    try discriminate Hp.
  destruct (answer cl) as [m|e] eqn:Hcl; [|discriminate Hp].
  injection Hp as <-.
  destruct (open_append_runs w ev evs n Ho Ha) as (w1 & Hopen & Ho1 & _).
  destruct (write_loop_passes (Z.of_nat n) data evs 0 w1
              (S (length (oracle w1))) (cl :: rest') Ho1)
    as (w2 & Hloop & Ho2).
  { rewrite Nat.sub_0_r. exact Hpass. }
  { rewrite Ho1. lia. }
  destruct (sys_runs CLOSE (Z.of_nat n) w2 cl rest' m Ho2 Hcl)
    as (w3 & Hclose & Ho3 & _).
  assert (Hwhile : while (write_body (Z.of_nat n) data) 0%nat w1 = Done 0 w2)
    by exact Hloop.
  exists w3. split; [|exact Ho3].
  unfold append_to_file.
  rewrite (bind_run _ _ _ _ _ Hopen), of_nat_eqb_m1.
  rewrite (bind_run _ _ _ _ _ Hwhile).
  change (0 =? -1) with false. cbv iota.
  unfold close. rewrite (bind_run _ _ _ _ _ Hclose), of_nat_eqb_m1.
  reflexivity.
Qed.

(** The scan passes over bytes that are not delimiters without a call. *)
Lemma scan_skip client_fd cur rest :
  no_delimiter cur ->
  forall k i start m,
    (i + k <= length cur)%nat ->
    scan client_fd (cur ++ rest) (k + m) i start =
    scan client_fd (cur ++ rest) m (i + k) start.
Proof.
  intros Hcur. induction k as [|k IH]; intros i start m Hle.
  - rewrite Nat.add_0_r. reflexivity.
  - simpl. rewrite app_nth1 by lia. rewrite (nth_no_delimiter cur Hcur).
    rewrite IH by lia. f_equal. lia.
Qed.

(** X14.  A packet is stored and answered.  When the flag is clear, [recv]
    delivers a chunk that completes a packet (the buffer followed by the chunk
    is a record ending in its only delimiter), and the environment lets the
    calls that follow succeed (the growing [realloc], the open, writes and
    close of the append, the open, reads, sends and close of the answer,
    with short or interrupted writes and sends, and whatever the shrinking
    [realloc] returns), then the round of [handle_client] returns having
    used exactly those answers and goes on to the next with an empty buffer:
    the record is at the end of the data file and the bytes sent to the
    client are the whole file, the record included. *)
Theorem a_completed_packet_is_stored_and_answered
    client_fd buf cur w ev evs n rest :
  exit_requested w = 0 ->
  oracle w = ev :: evs ->
  answer ev = Ok n ->
  buf ++ firstn (Nat.min n BUF_SIZE) (payload ev) = cur ++ [NL] ->
  no_delimiter cur ->
  (length buf <= length cur)%nat ->
  packet_answers (cur ++ [NL]) (contents w ++ cur ++ [NL]) evs = Some rest ->
  exists w',
    handle_body client_fd buf w = Done (Continue []) w' /\
    oracle w' = rest /\
    data_file w' = Some (contents w ++ cur ++ [NL]) /\
    sent (new_trace w w') = contents w ++ cur ++ [NL].
Proof.
  intros Hx Ho Ha Hrec Hcur Hbuf Hp.
  set (chunk := firstn (Nat.min n BUF_SIZE) (payload ev)) in *.
  assert (Hsize : (length buf + length chunk = length cur + 1)%nat).
  { apply (f_equal (@length byte)) in Hrec. rewrite !length_app in Hrec.
    simpl in Hrec. exact Hrec. }
  unfold packet_answers in Hp.
  destruct evs as [|ev2 evs2]; [discriminate Hp|].
  destruct (answer ev2) as [n2|e2] eqn:Hn2; [|discriminate Hp].
  destruct (append_answers (cur ++ [NL]) evs2) as [evs3|] eqn:Hp3;
    [|discriminate Hp].
  destruct (echo_answers (contents w ++ cur ++ [NL]) evs3)
    as [[|ev5 rest5]|] eqn:Hp4; try discriminate Hp.
  injection Hp as <-.
  (* recv and the growing realloc *)
  destruct (recv_runs client_fd w ev (ev2 :: evs2) n Ho Ha)
    as (w1 & Hrecv & Ho1 & Hf1).
  fold chunk in Hrecv.
  destruct (realloc_runs REALLOC (length cur + 1) w1 ev2 evs2 Ho1)
    as (w2 & Hgrow & Ho2 & Hf2).
  rewrite Hn2 in Hgrow.
  assert (Hc2 : contents w2 = contents w)
    by (unfold contents; rewrite Hf2, Hf1; reflexivity).
  (* the append *)
  rewrite <- Ho2 in Hp3.
  destruct (append_to_file_runs (cur ++ [NL]) w2 evs3 Hp3)
    as (w3 & Happ & Ho3).
  assert (Hf3 : data_file w3 = Some (contents w ++ cur ++ [NL])).
  { destruct (append_to_file_spec _ _ _ _ Happ) as [(_ & Hf & _)|(Hbad & _)];
      [|discriminate Hbad].
    rewrite Hf, Hc2. reflexivity. }
  (* the answer *)
  rewrite <- Ho3 in Hp4.
  destruct (send_file_contents_runs client_fd w3 _ _ Hf3 Hp4)
    as (w4 & Hecho & Ho4).
  destruct (send_file_contents_spec _ _ _ _ Hecho)
    as [Hf4 [(_ & Hs4 & _)|(Hbad & _)]]; [|discriminate Hbad].
  rewrite (contents_some _ _ Hf3) in Hs4.
  (* the shrinking realloc *)
  destruct (realloc_runs REALLOC_SHRINK 0 w4 ev5 rest5 Ho4)
    as (w5 & Hshrink & Ho5 & Hf5).
  (* the scan *)
  assert (Hscan : scan client_fd (cur ++ [NL]) (length cur + 1) 0 0 w2 =
                  Done (length cur + 1)%nat w4).
  { rewrite (scan_skip client_fd cur [NL] Hcur (length cur) 0 0 1) by lia.
    simpl.
    replace (nth (length cur) (cur ++ [NL]) x00) with NL
      by (symmetry; apply nth_middle).
    change (Byte.eqb NL NL) with true. cbv iota.
    rewrite Nat.sub_0_r.
    rewrite firstn_all2 by (rewrite length_app; simpl; lia).
    rewrite (bind_run _ _ _ _ _ Happ). simpl.
    rewrite (bind_run _ _ _ _ _ Hecho). reflexivity. }
  exists w5. split.
  - unfold handle_body. unfold bind at 1, get_exit_requested. rewrite Hx.
    change (0 =? 0) with true. cbv iota.
    rewrite (bind_run _ _ _ _ _ Hrecv). cbv beta iota zeta.
    rewrite of_nat_ltb_0, Nat2Z.id.
    replace (Z.of_nat (length chunk) =? 0) with false
      by (symmetry; apply Z.eqb_neq; lia).
    rewrite Hsize, Hrec.
    rewrite (bind_run _ _ _ _ _ Hgrow).
    change (negb true) with false. cbv iota.
    rewrite (bind_run _ _ _ _ _ Hscan).
    replace ((0 <? length cur + 1)%nat && (length cur + 1 <=? length cur + 1)%nat)
      with true
      by (symmetry; apply andb_true_iff; split;
          [apply Nat.ltb_lt|apply Nat.leb_le]; lia).
    rewrite Nat.sub_diag.
    rewrite (bind_run _ _ _ _ _ Hshrink). reflexivity.
  - split; [exact Ho5|]. split; [congruence|].
    apply recv_cases in Hrecv as (E1 & _ & o1 & N1 & _).
    apply realloc_cases in Hgrow as (E2 & _ & o2 & N2 & _).
    destruct (sound_with_done _ _ _ _ _ (sound_append_to_file _) Happ)
      as [E3 F3].
    destruct (append_call_quiet _ F3) as (_ & S3 & _).
    destruct (sound_with_done _ _ _ _ _ (sound_send_file_contents _) Hecho)
      as [E4 _].
    apply realloc_cases in Hshrink as (E5 & _ & o5 & N5 & _).
    destruct (chain _ _ _ _ _ E1 N1 E2 N2) as [E12 N12].
    destruct (chain _ _ _ _ _ E12 N12 E3 eq_refl) as [E13 N13].
    destruct (chain _ _ _ _ _ E13 N13 E4 eq_refl) as [E14 N14].
    destruct (chain _ _ _ _ _ E14 N14 E5 N5) as [_ N].
    rewrite N, !sent_app, S3, Hs4. simpl. rewrite app_nil_r. reflexivity.
Qed.

Lemma a_completed_packet_is_stored_and_answered_witness :
  exists w',
    handle_body 7 (bytes "hel") completing = Done (Continue []) w' /\
    oracle w' = [delivers (line "next")] /\
    data_file w' = Some (contents completing ++ bytes "hello" ++ [NL]) /\
    sent (new_trace completing w') =
      contents completing ++ bytes "hello" ++ [NL].
Proof.
  apply (a_completed_packet_is_stored_and_answered 7 (bytes "hel")
           (bytes "hello") completing (delivers (line "lo"))
           (tl (oracle completing)) 3 [delivers (line "next")]).
  - reflexivity.
  - reflexivity.
  - reflexivity.
  - reflexivity.
  - reflexivity.
  - vm_compute. lia.
  - vm_compute. reflexivity.
Defined.
(** * The answers of a connection *)

(** ** The replies in a history *)









(** ** Every send of a connection is on its socket *)












(** ** The claim *)



